(** * Message handling and peer state of the data clock consensus engine

    A shallow embedding of
    - [node/consensus/data/message_handler.go],
    - [node/consensus/data/broadcast_messaging.go],
    - [node/internal/autononce/autononce.go],
    followed by the properties of the handlers.

    Conventions of the embedding:
    - a Go [[]byte] is a [list byte]; a nil slice and an empty slice are the
      same list, which is how [bytes.Equal], [bytes.Compare], [append] and
      [len] see them.  Where the code tests a slice against [nil], the field
      is an [option];
    - a Go pointer that the code only reads is an [option] ([None] is nil);
      a dereference of nil panics;
    - [uint64] and [int64] values are integers of [Z]; the conversions that
      wrap are written out;
    - a Go [error] is its message; a function returning [error] returns
      [option error], [None] being nil;
    - calls on the collaborators (pubsub, time reel, frame prover, execution
      engines, logger) are recorded, in order, in a trace of events. *)

From Stdlib Require Import ZArith List String Ascii Bool Lia.
From Stdlib.Strings Require Import Byte.
From stdpp Require Import base option gmap strings list fin_maps.
Import ListNotations.
Local Open Scope string_scope.
Local Open Scope list_scope.
Local Open Scope Z_scope.

(* ===================================================================== *)
(** * Byte slices *)
(* ===================================================================== *)

Abbreviation bytes := (list byte).

(** [bytes.Equal] *)
Fixpoint bytes_Equal (a b : bytes) : bool :=
  match a, b with
  | [], [] => true
  | x :: a', y :: b' => Byte.eqb x y && bytes_Equal a' b'
  | _, _ => false
  end.

(** [bytes.Compare]: lexicographic, -1, 0 or +1 *)
Fixpoint bytes_Compare (a b : bytes) : Z :=
  match a, b with
  | [], [] => 0
  | [], _ :: _ => -1
  | _ :: _, [] => 1
  | x :: a', y :: b' =>
      if (Byte.to_N x <? Byte.to_N y)%N then -1
      else if (Byte.to_N y <? Byte.to_N x)%N then 1
      else bytes_Compare a' b'
  end.

(** The conversion [byte(v)] of an unsigned integer: the low 8 bits. *)
Definition byte_of_Z (v : Z) : byte :=
  match Byte.of_N (Z.to_N (v mod 256)) with
  | Some b => b
  | None => x00
  end.

(** The conversion [uint64(v)] of an [int64]. *)
Definition uint64_of_int64 (v : Z) : Z := v mod 2 ^ 64.

(** [binary.BigEndian.AppendUint64] *)
Definition BigEndian_AppendUint64 (b : bytes) (v : Z) : bytes :=
  b ++ [ byte_of_Z (Z.shiftr v 56); byte_of_Z (Z.shiftr v 48);
         byte_of_Z (Z.shiftr v 40); byte_of_Z (Z.shiftr v 32);
         byte_of_Z (Z.shiftr v 24); byte_of_Z (Z.shiftr v 16);
         byte_of_Z (Z.shiftr v 8);  byte_of_Z v ].

(** [make([]byte, n)] *)
Definition make_bytes (n : nat) : bytes := repeat x00 n.

(** The base-256 digits of a natural number, least significant first. *)
Fixpoint le_digits (fuel : nat) (n : N) : bytes :=
  match fuel with
  | O => []
  | S fuel' =>
      if (n =? 0)%N then []
      else byte_of_Z (Z.of_N n) :: le_digits fuel' (n / 256)%N
  end.

(** The number that base-256 digits, least significant first, stand for. *)
Fixpoint le_value (l : bytes) : N :=
  match l with
  | [] => 0
  | c :: l' => Byte.to_N c + 256 * le_value l'
  end.

(** [Bytes] of a [big.Int]: the absolute value, big-endian, without leading
    zeros (the empty slice for 0). *)
Definition big_Bytes (x : Z) : bytes :=
  let n := Z.to_N (Z.abs x) in
  rev (le_digits (N.to_nat (N.size n)) n).

(** [strings.Replace(s, old, new, 1)]: the leftmost occurrence of [old] is
    replaced by [new]; [s] is returned as it is when there is none. *)
Fixpoint strings_Replace1 (s old new : string) : string :=
  if String.prefix old s
  then new +:+ String.substring (String.length old)
                                (String.length s - String.length old) s
  else match s with
       | EmptyString => EmptyString
       | String c s' => String c (strings_Replace1 s' old new)
       end.

(* ===================================================================== *)
(** * Results: normal completion or panic *)
(* ===================================================================== *)

Definition error := string.

(** [errors.Wrap(err, message)] *)
Definition errors_Wrap (err : error) (message : string) : error :=
  message +:+ ": " +:+ err.

Inductive outcome (A : Type) : Type :=
| Done (a : A)
| Panic (reason : string).
Arguments Done {A} a.
Arguments Panic {A} reason.

Global Instance outcome_ret : MRet outcome := fun A a => Done a.
Global Instance outcome_bind : MBind outcome := fun A B f m =>
  match m with
  | Done a => f a
  | Panic r => Panic r
  end.

(** Dereference of a pointer. *)
Definition deref {A} (p : option A) : outcome A :=
  match p with
  | Some a => Done a
  | None => Panic "invalid memory address or nil pointer dereference"
  end.

(** A [for ... range l] loop whose body may leave the loop through a
    labelled [break]; the body returns [true] when it breaks.  The result
    says whether the loop was left through the break. *)
Fixpoint range_until {A} (body : A -> outcome bool) (l : list A)
  : outcome bool :=
  match l with
  | [] => Done false
  | x :: l' =>
      b ← body x;
      if (b : bool) then Done true else range_until body l'
  end.

(* ===================================================================== *)
(** * Protocol messages *)
(* ===================================================================== *)

(** The messages of package [protobufs], with the fields the handlers
    read or write.  A field of message type is a pointer. *)
Module protobufs.

Record Ed448PublicKey := { KeyValue : bytes }.

Record Ed448Signature := {
  Ed448Signature_PublicKey : option Ed448PublicKey;
  Ed448Signature_Signature : bytes
}.

Record ClockFrame := {
  Filter : bytes;
  FrameNumber : Z;
  AggregateProofs : list bytes;
  ClockFrame_PublicKeySignatureEd448 : option Ed448Signature
}.

Record DataPeer := {
  PeerId : bytes;
  Multiaddr : string;
  MaxFrame : Z;
  Timestamp : Z;
  Version : option bytes;
  Signature : option bytes;
  PublicKey : option bytes;
  TotalDistance : bytes
}.

Record DataPeerListAnnounce := {
  PeerList : list DataPeer;
  Peer : option DataPeer
}.

Record CoinRef := { Address : bytes }.

Record TransferCoinRequest := { Transfer_OfCoin : option CoinRef }.
Record SplitCoinRequest := { Split_OfCoin : option CoinRef }.
Record MergeCoinRequest := { Coins : list (option CoinRef) }.
Record MintCoinRequest := { Proofs : list bytes }.
Record AnnounceProverRequest := {
  PublicKeySignaturesEd448 : list (option Ed448Signature)
}.
Record AnnounceProverJoin := {
  Join_PublicKeySignatureEd448 : option Ed448Signature
}.
Record AnnounceProverLeave := {
  Leave_PublicKeySignatureEd448 : option Ed448Signature
}.
Record AnnounceProverPause := {
  Pause_PublicKeySignatureEd448 : option Ed448Signature
}.
Record AnnounceProverResume := {
  Resume_PublicKeySignatureEd448 : option Ed448Signature
}.

(** The oneof [TokenRequest.Request]: each wrapper holds a pointer. *)
Inductive isTokenRequest_Request :=
| TokenRequest_Transfer (Transfer : option TransferCoinRequest)
| TokenRequest_Split (Split : option SplitCoinRequest)
| TokenRequest_Merge (Merge : option MergeCoinRequest)
| TokenRequest_Mint (Mint : option MintCoinRequest)
| TokenRequest_Announce (Announce : option AnnounceProverRequest)
| TokenRequest_Join (Join : option AnnounceProverJoin)
| TokenRequest_Leave (Leave : option AnnounceProverLeave)
| TokenRequest_Pause (Pause : option AnnounceProverPause)
| TokenRequest_Resume (Resume : option AnnounceProverResume).

Record TokenRequest := {
  Request : option isTokenRequest_Request;
  Nonce : bytes
}.

Record TokenRequests := { Requests : list TokenRequest }.

(** The signed message: hash, address, payload. *)
Record Message := {
  Hash : bytes;
  Message_Address : bytes;
  Payload : bytes
}.

(** The generated getters are nil-safe. *)
Definition GetPublicKeySignaturesEd448 (x : option AnnounceProverRequest)
  : list (option Ed448Signature) :=
  match x with
  | Some a => PublicKeySignaturesEd448 a
  | None => []
  end.

Definition Join_GetPublicKeySignatureEd448 (x : option AnnounceProverJoin)
  : option Ed448Signature := x ≫= Join_PublicKeySignatureEd448.
Definition Leave_GetPublicKeySignatureEd448 (x : option AnnounceProverLeave)
  : option Ed448Signature := x ≫= Leave_PublicKeySignatureEd448.
Definition Pause_GetPublicKeySignatureEd448 (x : option AnnounceProverPause)
  : option Ed448Signature := x ≫= Pause_PublicKeySignatureEd448.
Definition Resume_GetPublicKeySignatureEd448
  (x : option AnnounceProverResume)
  : option Ed448Signature := x ≫= Resume_PublicKeySignatureEd448.

(** [x.PublicKey.KeyValue] for a signature pointer [x]. *)
Definition signer_KeyValue (x : option Ed448Signature) : outcome bytes :=
  s ← deref x;
  k ← deref (Ed448Signature_PublicKey s);
  Done (KeyValue k).

End protobufs.
Import protobufs.

(** [anypb.Any] *)
Record Any := { TypeUrl : string; Value : bytes }.

(** [pb.Message] of the pubsub transport. *)
Record pb_Message := {
  Data : bytes;
  Bitmask : bytes;
  From : bytes;
  Seqno : option bytes
}.

(* ===================================================================== *)
(** * The engine, its collaborators and the world it runs in *)
(* ===================================================================== *)

(** [p2p.PubSub], the part the handlers call.  [SetPeerScore] only has an
    effect, which the trace records. *)
Record PubSub := {
  GetPeerID : bytes;
  GetMultiaddrOfPeer : bytes -> string;
  PublishToBitmask : bytes -> bytes -> option error
}.

(** [crypto.FrameProver] *)
Record FrameProver := {
  VerifyDataClockFrame : ClockFrame -> option error
}.

(** [time.DataTimeReel]: [Head] returns a frame or an error. *)
Record DataTimeReel := {
  Head : ClockFrame + error;
  GetTotalDistance : Z
}.

(** [execution.ExecutionEngine] *)
Record ExecutionEngine := {
  ProcessMessage : bytes -> Message -> list Message + error
}.

(** [tries.RollingFrecencyCritbitTrie]: the handlers only ask whether an
    address is a member. *)
Record ProverTrie := { Contains : bytes -> bool }.

(** The values of [syncingStatus]; the handlers compare it with
    [SyncStatusNotSyncing] only. *)
Inductive SyncStatusType :=
| SyncStatusNotSyncing
| SyncStatusOther (code : nat).

Definition SyncStatus_eqb (a b : SyncStatusType) : bool :=
  match a, b with
  | SyncStatusNotSyncing, SyncStatusNotSyncing => true
  | SyncStatusOther m, SyncStatusOther n => Nat.eqb m n
  | _, _ => false
  end.

(** [peerInfo], as the composite literals of the handlers fill it. *)
Record peerInfo := {
  peerId : bytes;
  multiaddr : string;
  maxFrame : Z;
  timestamp : Z;
  lastSeen : Z;
  version : option bytes;
  signature : option bytes;
  publicKey : option bytes;
  direct : bool;
  totalDistance : bytes
}.

(** The fields of [DataClockConsensusEngine] that the handlers use. *)
Record DataClockConsensusEngine := {
  pubSub : PubSub;
  frameProver : FrameProver;
  dataTimeReel : DataTimeReel;
  executionEngines : gmap string ExecutionEngine;
  frameProverTries : list ProverTrie;
  provingKeyAddress : bytes;
  syncingStatus : SyncStatusType;
  infoFilter : bytes;
  frameFilter : bytes;
  peerMap : gmap string peerInfo;
  uncooperativePeersMap : gmap string peerInfo;
  stagedTransactions : option TokenRequests
}.

Definition set_peerMap (f : gmap string peerInfo -> gmap string peerInfo)
  (e : DataClockConsensusEngine) : DataClockConsensusEngine :=
  {| pubSub := pubSub e; frameProver := frameProver e;
     dataTimeReel := dataTimeReel e; executionEngines := executionEngines e;
     frameProverTries := frameProverTries e;
     provingKeyAddress := provingKeyAddress e;
     syncingStatus := syncingStatus e;
     infoFilter := infoFilter e; frameFilter := frameFilter e;
     peerMap := f (peerMap e);
     uncooperativePeersMap := uncooperativePeersMap e;
     stagedTransactions := stagedTransactions e |}.

Definition set_stagedTransactions (s : option TokenRequests)
  (e : DataClockConsensusEngine) : DataClockConsensusEngine :=
  {| pubSub := pubSub e; frameProver := frameProver e;
     dataTimeReel := dataTimeReel e; executionEngines := executionEngines e;
     frameProverTries := frameProverTries e;
     provingKeyAddress := provingKeyAddress e;
     syncingStatus := syncingStatus e;
     infoFilter := infoFilter e; frameFilter := frameFilter e;
     peerMap := peerMap e;
     uncooperativePeersMap := uncooperativePeersMap e;
     stagedTransactions := s |}.

(** What a [proto.Message] points to. *)
Inductive proto_Message :=
| MsgTokenRequest (m : TokenRequest)
| MsgClockFrame (m : ClockFrame)
| MsgDataPeerListAnnounce (m : DataPeerListAnnounce).

(** A [proto.Message] is a pointer into the store of messages. *)
Definition loc := nat.

Inductive Level := DebugLevel | WarnLevel | ErrorLevel.

(** The calls on the collaborators. *)
Inductive Event :=
| Log (level : Level) (msg : string)
| SetPeerScore (peerId : bytes) (score : Z)
| VerifyDataClockFrameCall (frame : ClockFrame)
| HeadCall
| Insert (frame : ClockFrame) (isSync : bool)
| PublishToBitmaskCall (bitmask data : bytes)
| ProcessMessageCall (name : string) (address : bytes) (msg : Message).

(** The state a handler runs in: the engine, the store of the messages
    that are passed by pointer, the bytes [crypto/rand] will deliver, the
    number of times the clock has been read, and the calls made so far
    (the latest last). *)
Record World := {
  engine : DataClockConsensusEngine;
  heap : list proto_Message;
  entropy : bytes;
  time_reads : nat;
  trace : list Event
}.

Definition M (A : Type) : Type := World -> outcome (A * World).

Global Instance M_ret : MRet M := fun A a w => Done (a, w).
Global Instance M_bind : MBind M := fun A B f m w =>
  match m w with
  | Done (a, w') => f a w'
  | Panic r => Panic r
  end.

Definition lift {A} (o : outcome A) : M A := fun w =>
  match o with
  | Done a => Done (a, w)
  | Panic r => Panic r
  end.

Definition panic {A} (reason : string) : M A := fun _ => Panic reason.

Definition gets {A} (f : World -> A) : M A := fun w => Done (f w, w).

Definition emit (ev : Event) : M unit := fun w =>
  Done (tt, {| engine := engine w; heap := heap w; entropy := entropy w;
               time_reads := time_reads w; trace := trace w ++ [ev] |}).

Definition modify_engine
  (f : DataClockConsensusEngine -> DataClockConsensusEngine) : M unit :=
  fun w =>
  Done (tt, {| engine := f (engine w); heap := heap w; entropy := entropy w;
               time_reads := time_reads w; trace := trace w |}).

Definition set_heap (h : list proto_Message) : M unit := fun w =>
  Done (tt, {| engine := engine w; heap := h; entropy := entropy w;
               time_reads := time_reads w; trace := trace w |}).

(** [for _, x := range l { body }] *)
Fixpoint for_range {A} (body : A -> M unit) (l : list A) : M unit :=
  match l with
  | [] => mret tt
  | x :: l' => body x;; for_range body l'
  end.

(** [new]: a fresh object in the store. *)
Definition alloc (x : proto_Message) : M loc := fun w =>
  Done (length (heap w),
        {| engine := engine w; heap := heap w ++ [x]; entropy := entropy w;
           time_reads := time_reads w; trace := trace w |}).

(** Reading through a pointer. *)
Definition load (l : loc) : M proto_Message :=
  h ← gets heap; lift (deref (h !! l)).

(** Writing through a pointer. *)
Definition store (l : loc) (x : proto_Message) : M unit :=
  h ← gets heap;
  if decide (l < length h)%nat then set_heap (<[l := x]> h)
  else panic "invalid memory address or nil pointer dereference".

(** Modelled from the spec: [GetFrameProverTries] is declared in a file
    of the package that is not among the sources.  The handlers consult
    "only [tries[0]]" of the prover tries of the engine (sections 3, 4.3
    and 4.5), and [runTxMessageHandler] reads the same trie as
    [e.frameProverTries[0]]: the getter returns the field. *)
Definition GetFrameProverTries : M (list ProverTrie) :=
  gets (fun w => frameProverTries (engine w)).

(** [tries[0]]; an index out of range panics. *)
Definition index0 {A} (l : list A) : outcome A :=
  match l with
  | x :: _ => Done x
  | [] => Panic "index out of range [0] with length 0"
  end.

(** [Bytes] of a [big.Int] written into [buf], zero-extended on the left;
    [FillBytes] panics when the value does not fit. *)
Definition big_FillBytes (x : Z) (buf : bytes) : outcome bytes :=
  let b := big_Bytes x in
  if (length buf <? length b)%nat
  then Panic "math/big: buffer too small to fit value"
  else Done (repeat x00 (length buf - length b)%nat ++ b).

(* ===================================================================== *)
(** * The packages the handlers import *)
(* ===================================================================== *)

(** A parsed Ed448 public key ([pcrypto.Ed448PublicKey]). *)
Definition pcrypto_PubKey := bytes.

(** The functions and constants of other packages that the handlers call:
    configuration, cryptography, serialization and the clock.  A function
    that returns [(x, error)] returns a sum. *)
Record Packages := {
  config_GetVersion : option bytes;
  config_GetMinimumVersion : bytes;
  config_GetMinimumVersionCutoff_UnixMilli : Z;
  application_TOKEN_ADDRESS : bytes;
  protobufs_TokenRequestType : string;
  (** the successive readings of [time.Now()], in milliseconds *)
  time_Now : nat -> Z;
  poseidon_HashBytes : bytes -> Z + error;
  pcrypto_UnmarshalEd448PublicKey : bytes -> pcrypto_PubKey + error;
  peer_MatchesPublicKey : bytes -> pcrypto_PubKey -> bool;
  pcrypto_Verify : pcrypto_PubKey -> bytes -> bytes -> bool * option error;
  anypb_MarshalFrom : proto_Message -> Any + error;
  anypb_UnmarshalTo_ClockFrame : Any -> ClockFrame + error;
  anypb_UnmarshalTo_DataPeerListAnnounce : Any -> DataPeerListAnnounce + error;
  proto_Marshal_Any : Any -> bytes + error;
  proto_Marshal_Message : Message -> bytes + error;
  proto_Unmarshal_Message : bytes -> Message + error;
  proto_Unmarshal_Any : bytes -> Any + error;
  proto_Unmarshal_TokenRequest : bytes -> TokenRequest + error
}.

(** [time.Now()]: the next reading of the clock. *)
Definition time_Now_read (pk : Packages) : M Z := fun w =>
  Done (time_Now pk (time_reads w),
        {| engine := engine w; heap := heap w; entropy := entropy w;
           time_reads := S (time_reads w); trace := trace w |}).

(** [t.UnixMilli()] and [t.Unix()] of a reading in milliseconds. *)
Definition UnixMilli (t : Z) : Z := t.
Definition Unix (t : Z) : Z := t / 1000.

(** [rand.Read(b)] for a buffer of [n] bytes: the next [n] bytes of the
    entropy, or an error when the source cannot deliver them. *)
Definition rand_Read (n : nat) : M (bytes + error) := fun w =>
  if (length (entropy w) <? n)%nat
  then Done (inr "crypto/rand: read failed", w)
  else Done (inl (take n (entropy w)),
             {| engine := engine w; heap := heap w;
                entropy := drop n (entropy w);
                time_reads := time_reads w; trace := trace w |}).

(* ===================================================================== *)
(** * autononce.go *)
(* ===================================================================== *)

Module autononce.

(** [clone]: [proto.Clone] makes a deep copy in a new object. *)
Definition clone (message : loc) : M loc :=
  x ← load message; alloc x.

(** [AddTokenRequest]: writes the nonce into the object it is given. *)
Definition AddTokenRequest (request : loc) : M loc :=
  x ← load request;
  match x with
  | MsgTokenRequest t =>
      store request
        (MsgTokenRequest {| Request := Request t; Nonce := make_bytes 32 |});;
      r ← rand_Read 32;
      match r with
      | inr err => panic err
      | inl nonce =>
          store request
            (MsgTokenRequest {| Request := Request t; Nonce := nonce |});;
          mret request
      end
  | _ => panic "interface conversion: not a *protobufs.TokenRequest"
  end.

(** [Add]: the type assertion fails on every other message, and on nil. *)
Definition Add (message : loc) : M loc :=
  h ← gets heap;
  match h !! message with
  | Some (MsgTokenRequest _) => tokenRequest ← clone message;
                                AddTokenRequest tokenRequest
  | _ => mret message
  end.

End autononce.

(* ===================================================================== *)
(** * message_handler.go *)
(* ===================================================================== *)

Section Handlers.

Variable pk : Packages.

(** ** [handleTokenRequest] *)

(** The body of the loop over the staged requests (lines 370-469): whether
    the staged request [ti] sets [found] for the request [transition]. *)
Definition staged_collides (ti transition : TokenRequest) : outcome bool :=
  match Request ti with
  | Some (TokenRequest_Transfer t) =>
      match Request transition with
      | Some (TokenRequest_Transfer r) =>
          r' ← deref r; rc ← deref (Transfer_OfCoin r');
          t' ← deref t; tc ← deref (Transfer_OfCoin t');
          Done (bytes_Equal (Address rc) (Address tc))
      | _ => Done false
      end
  | Some (TokenRequest_Split t) =>
      match Request transition with
      | Some (TokenRequest_Split r) =>
          r' ← deref r; rc ← deref (Split_OfCoin r');
          r'' ← deref r; rc' ← deref (Split_OfCoin r'');
          Done (bytes_Equal (Address rc) (Address rc'))
      | _ => Done false
      end
  | Some (TokenRequest_Merge t) =>
      match Request transition with
      | Some (TokenRequest_Merge r) =>
          t' ← deref t;
          range_until (fun ci =>
            r' ← deref r;
            range_until (fun cj =>
              a ← deref ci; b ← deref cj;
              Done (bytes_Equal (Address a) (Address b)))
              (Coins r'))
            (Coins t')
      | _ => Done false
      end
  | Some (TokenRequest_Mint t) =>
      match Request transition with
      | Some (TokenRequest_Mint r) =>
          t' ← deref t;
          range_until (fun pi =>
            r' ← deref r;
            if (length (Proofs r') <? 2)%nat
            then range_until (fun pj => Done (bytes_Equal pi pj)) (Proofs r')
            else Done false)
            (Proofs t')
      | _ => Done false
      end
  | Some (TokenRequest_Announce t) =>
      match Request transition with
      | Some (TokenRequest_Announce r) =>
          range_until (fun si =>
            range_until (fun sj =>
              a ← signer_KeyValue si; b ← signer_KeyValue sj;
              Done (bytes_Equal a b))
              (GetPublicKeySignaturesEd448 r))
            (GetPublicKeySignaturesEd448 t)
      | _ => Done false
      end
  | Some (TokenRequest_Join t) =>
      match Request transition with
      | Some (TokenRequest_Join r) =>
          a ← signer_KeyValue (Join_GetPublicKeySignatureEd448 t);
          b ← signer_KeyValue (Join_GetPublicKeySignatureEd448 r);
          Done (bytes_Equal a b)
      | _ => Done false
      end
  | Some (TokenRequest_Leave t) =>
      match Request transition with
      | Some (TokenRequest_Leave r) =>
          a ← signer_KeyValue (Leave_GetPublicKeySignatureEd448 t);
          b ← signer_KeyValue (Leave_GetPublicKeySignatureEd448 r);
          Done (bytes_Equal a b)
      | _ => Done false
      end
  | Some (TokenRequest_Pause t) =>
      match Request transition with
      | Some (TokenRequest_Pause r) =>
          a ← signer_KeyValue (Pause_GetPublicKeySignatureEd448 t);
          b ← signer_KeyValue (Pause_GetPublicKeySignatureEd448 r);
          Done (bytes_Equal a b)
      | _ => Done false
      end
  | Some (TokenRequest_Resume t) =>
      match Request transition with
      | Some (TokenRequest_Resume r) =>
          a ← signer_KeyValue (Resume_GetPublicKeySignatureEd448 t);
          b ← signer_KeyValue (Resume_GetPublicKeySignatureEd448 r);
          Done (bytes_Equal a b)
      | _ => Done false
      end
  | None => Done false
  end.

(** The loop over the staged requests: [found] is set by every staged
    request that collides, and the loop runs to the end of the list. *)
Fixpoint scan_staged (requests : list TokenRequest)
  (transition : TokenRequest) (found : bool) : outcome bool :=
  match requests with
  | [] => Done found
  | ti :: rest =>
      hit ← staged_collides ti transition;
      scan_staged rest transition (found || hit)
  end.

Definition handleTokenRequest (transition : TokenRequest)
  : M (option error) :=
  tries ← GetFrameProverTries;
  trie ← lift (index0 tries);
  e ← gets engine;
  if Contains trie (provingKeyAddress e) then
    let staged := match stagedTransactions e with
                  | Some s => s
                  | None => {| Requests := [] |}
                  end in
    modify_engine (set_stagedTransactions (Some staged));;
    found ← lift (scan_staged (Requests staged) transition false);
    (if (found : bool) then mret tt
     else modify_engine (set_stagedTransactions
            (Some {| Requests := Requests staged ++ [transition] |})));;
    mret None
  else mret None.

(** ** [handleClockFrame] and [handleClockFrameData] *)

Definition handleClockFrame (peerID address : bytes)
  (frame : option ClockFrame) : M (option error) :=
  match frame with
  | None => mret (Some (errors_Wrap "frame is nil" "handle clock frame"))
  | Some frame =>
      kv ← lift (signer_KeyValue (ClockFrame_PublicKeySignatureEd448 frame));
      match poseidon_HashBytes pk kv with
      | inr err => mret (Some (errors_Wrap err "handle clock frame data"))
      | inl addr =>
          tries ← GetFrameProverTries;
          trie ← lift (index0 tries);
          if negb (Contains trie (big_Bytes addr)) then
            emit (Log DebugLevel
                    "prover not in trie at frame, address may be in fork");;
            mret None
          else
            emit (Log DebugLevel "got clock frame");;
            e ← gets engine;
            emit (VerifyDataClockFrameCall frame);;
            match VerifyDataClockFrame (frameProver e) frame with
            | Some err =>
                emit (Log DebugLevel "could not verify clock frame");;
                mret (Some (errors_Wrap err "handle clock frame data"))
            | None =>
                emit (Log DebugLevel "clock frame was valid");;
                emit HeadCall;;
                match Head (dataTimeReel e) with
                | inr err => panic err
                | inl head =>
                    (if FrameNumber frame >? FrameNumber head
                     then emit (Insert frame false)
                     else mret tt);;
                    mret None
                end
            end
      end
  end.

Definition handleClockFrameData (peerID address : bytes) (any : Any)
  (isSync : bool) : M (option error) :=
  e ← gets engine;
  if bytes_Equal peerID (GetPeerID (pubSub e)) then mret None
  else
    match anypb_UnmarshalTo_ClockFrame pk any with
    | inr err => mret (Some (errors_Wrap err "handle clock frame data"))
    | inl frame => handleClockFrame peerID address (Some frame)
    end.

(** ** [handleDataPeerListAnnounce] *)

(** The message a peer signs (lines 283-285). *)
Definition announce_signing_message (maxFrame : Z) (version : bytes)
  (timestamp : Z) : bytes :=
  let msg := BigEndian_AppendUint64 [] maxFrame in
  let msg := msg ++ version in
  BigEndian_AppendUint64 msg (uint64_of_int64 timestamp).

(** The validation of a record that carries a key, a signature and a
    version (lines 265-305).  The result is [true] when the block was left
    through a [continue]. *)
Definition validate_peer (p : DataPeer)
  (publicKey signature version : bytes) : M bool :=
  match pcrypto_UnmarshalEd448PublicKey pk publicKey with
  | inr err =>
      emit (Log WarnLevel "peer announcement contained invalid pubkey");;
      mret true
  | inl key =>
      if negb (peer_MatchesPublicKey pk (PeerId p) key) then
        emit (Log WarnLevel
                "peer announcement peer id does not match pubkey");;
        mret true
      else
        let msg := announce_signing_message (MaxFrame p) version
                     (Timestamp p) in
        let '(b, err) := pcrypto_Verify pk key msg signature in
        if bool_decide (is_Some err) || negb b then
          emit (Log WarnLevel "peer provided invalid signature");;
          mret true
        else if (bytes_Compare version (config_GetMinimumVersion pk) <? 0)
                && (Timestamp p
                      >? config_GetMinimumVersionCutoff_UnixMilli pk)
        then
          emit (Log DebugLevel
                  "peer provided outdated version, penalizing app score");;
          emit (SetPeerScore (PeerId p) (-1000000));;
          mret true
        else mret false
  end.

(** [string(b)] for a byte slice [b]. *)
Definition string_of_bytes (b : bytes) : string := string_of_list_byte b.

(** The rest of the loop body (lines 308-354): the record is entered in
    the peer map unless the peer is uncooperative or the entry the map
    holds wins. *)
Definition update_peer (peerID : bytes) (p : DataPeer) : M unit :=
  e ← gets engine;
  if bool_decide
       (is_Some (uncooperativePeersMap e !! string_of_bytes (PeerId p)))
  then mret tt
  else
    let multiaddr := GetMultiaddrOfPeer (pubSub e) (PeerId p) in
    emit (SetPeerScore (PeerId p) 10);;
    e ← gets engine;
    let keep :=
      match peerMap e !! string_of_bytes (PeerId p) with
      | Some existing =>
          (bool_decide (is_Some (signature existing))
             && bool_decide (Signature p = None))
          || (bool_decide (is_Some (publicKey existing))
                && bool_decide (PublicKey p = None))
          || (bool_decide (is_Some (version existing))
                && bool_decide (Version p = None))
          || (timestamp existing >? Timestamp p)
      | None => false
      end in
    if keep then mret tt
    else
      now ← time_Now_read pk;
      modify_engine (set_peerMap (insert (string_of_bytes (PeerId p))
        {| peerId := PeerId p;
           multiaddr := multiaddr;
           maxFrame := MaxFrame p;
           direct := bytes_Equal (PeerId p) peerID;
           lastSeen := Unix now;
           timestamp := Timestamp p;
           version := Version p;
           signature := Signature p;
           publicKey := PublicKey p;
           totalDistance := TotalDistance p |})).

(** The body of the loop over [announce.PeerList] (lines 252-354). *)
Definition announce_record (peerID : bytes) (p : DataPeer) : M unit :=
  e ← gets engine;
  if bytes_Equal (PeerId p) (GetPeerID (pubSub e)) then mret tt
  else if negb (bytes_Equal (PeerId p) peerID) then mret tt
  else
    match PublicKey p, Signature p, Version p with
    | Some publicKey, Some signature, Some version =>
        skipped ← validate_peer p publicKey signature version;
        if (skipped : bool) then mret tt else update_peer peerID p
    | _, _, _ => mret tt
    end.

Definition handleDataPeerListAnnounce (peerID address : bytes) (any : Any)
  : M (option error) :=
  match anypb_UnmarshalTo_DataPeerListAnnounce pk any with
  | inr err =>
      mret (Some (errors_Wrap err "handle data peer list announce"))
  | inl announce =>
      for_range (announce_record peerID) (PeerList announce);;
      mret None
  end.

(** ** [runTxMessageHandler] *)

(** The body of the loop over the messages an engine returns
    (lines 87-111). *)
Definition stage_app_message (name : string) (appMessage : Message)
  : M unit :=
  match proto_Unmarshal_Any pk (Payload appMessage) with
  | inr err => emit (Log ErrorLevel "could not unmarshal app message")
  | inl appMsg =>
      emit (Log DebugLevel (TypeUrl appMsg));;
      if String.eqb (TypeUrl appMsg) (protobufs_TokenRequestType pk) then
        match proto_Unmarshal_TokenRequest pk (Value appMsg) with
        | inr err => mret tt
        | inl t => _ ← handleTokenRequest t; mret tt
        end
      else mret tt
  end.

(** The function each engine's goroutine runs (lines 72-115). *)
Definition process_with_engine (msg : Message) (name : string) : M unit :=
  e ← gets engine;
  eng ← lift (deref (executionEngines e !! name));
  emit (ProcessMessageCall name (application_TOKEN_ADDRESS pk) msg);;
  match ProcessMessage eng (application_TOKEN_ADDRESS pk) msg with
  | inr err => emit (Log DebugLevel "could not process message for engine")
  | inl messages => for_range (stage_app_message name) messages
  end.

(** One turn of the loop of [runTxMessageHandler]: the message taken from
    [txMessageProcessorCh] is handled.  The goroutines the turn starts are
    run where they are started, one engine after the other. *)
Definition txMessageHandler_turn (message : pb_Message) : M unit :=
  emit (Log DebugLevel "handling tx message");;
  match proto_Unmarshal_Message pk (Data message) with
  | inr err => emit (Log DebugLevel "bad message")
  | inl msg =>
      e ← gets engine;
      trie ← lift (index0 (frameProverTries e));
      (if Contains trie (provingKeyAddress e)
          && SyncStatus_eqb (syncingStatus e) SyncStatusNotSyncing
       then for_range (process_with_engine msg)
              (map fst (map_to_list (executionEngines e)))
       else mret tt);;
      match proto_Unmarshal_Any pk (Payload msg) with
      | inr err => emit (Log ErrorLevel "error while unmarshaling")
      | inl any => emit (Log DebugLevel "message type")
      end
  end.

(** [runTxMessageHandler] on the messages [txMessageProcessorCh] delivers,
    in the order it delivers them. *)
Definition runTxMessageHandler (delivered : list pb_Message) : M unit :=
  for_range txMessageHandler_turn delivered.

(* ===================================================================== *)
(** * broadcast_messaging.go *)
(* ===================================================================== *)

Definition publishMessage (filter : bytes) (message : loc)
  : M (option error) :=
  message ← autononce.Add message;
  x ← load message;
  match anypb_MarshalFrom pk x with
  | inr err => mret (Some (errors_Wrap err "publish message"))
  | inl any =>
      let any := {| TypeUrl := strings_Replace1 (TypeUrl any)
                                 "type.googleapis.com" "types.quilibrium.com";
                    Value := Value any |} in
      match proto_Marshal_Any pk any with
      | inr err => mret (Some (errors_Wrap err "publish message"))
      | inl payload =>
          match poseidon_HashBytes pk payload with
          | inr err => mret (Some (errors_Wrap err "publish message"))
          | inl h =>
              e ← gets engine;
              let msg := {| Hash := big_Bytes h;
                            Message_Address := provingKeyAddress e;
                            Payload := payload |} in
              match proto_Marshal_Message pk msg with
              | inr err => mret (Some (errors_Wrap err "publish message"))
              | inl data =>
                  emit (PublishToBitmaskCall filter data);;
                  mret (PublishToBitmask (pubSub e) filter data)
              end
          end
      end
  end.

Definition publishProof (frame : loc) : M (option error) :=
  x ← load frame;
  match x with
  | MsgClockFrame f =>
      emit (Log DebugLevel "publishing frame and aggregations");;
      now ← time_Now_read pk;
      let timestamp := UnixMilli now in
      e ← gets engine;
      d ← lift (big_FillBytes (GetTotalDistance (dataTimeReel e))
                  (make_bytes 256));
      modify_engine (set_peerMap
        (insert (string_of_bytes (GetPeerID (pubSub e)))
          {| peerId := GetPeerID (pubSub e);
             multiaddr := "";
             maxFrame := FrameNumber f;
             version := config_GetVersion pk;
             timestamp := timestamp;
             totalDistance := d;
             lastSeen := 0;
             signature := None;
             publicKey := None;
             direct := false |}));;
      d' ← lift (big_FillBytes (GetTotalDistance (dataTimeReel e))
                   (make_bytes 256));
      list ← alloc (MsgDataPeerListAnnounce
        {| PeerList := [];
           Peer := Some {| PeerId := [];
                           Multiaddr := "";
                           MaxFrame := FrameNumber f;
                           Version := config_GetVersion pk;
                           Timestamp := timestamp;
                           TotalDistance := d';
                           Signature := None;
                           PublicKey := None |} |});
      r ← publishMessage (infoFilter e) list;
      match r with
      | Some err => emit (Log DebugLevel "error publishing message")
      | None => mret tt
      end;;
      publishMessage (frameFilter e) frame;;
      mret None
  | _ => panic "interface conversion: not a *protobufs.ClockFrame"
  end.

End Handlers.

(* ===================================================================== *)
(** * Observations on a run *)
(* ===================================================================== *)

(** The calls made between the world [w] and a later world [w']. *)
Definition calls_since (w w' : World) : list Event :=
  drop (length (trace w)) (trace w').

Definition is_verify_call (ev : Event) : bool :=
  match ev with VerifyDataClockFrameCall _ => true | _ => false end.

Definition is_time_reel_call (ev : Event) : bool :=
  match ev with HeadCall | Insert _ _ => true | _ => false end.

Definition is_insert_call (ev : Event) : bool :=
  match ev with Insert _ _ => true | _ => false end.

Definition is_score_call (ev : Event) : bool :=
  match ev with SetPeerScore _ _ => true | _ => false end.

Definition is_engine_call (ev : Event) : bool :=
  match ev with ProcessMessageCall _ _ _ => true | _ => false end.

(** The score calls of a run that concern the peer [id]. *)
Definition is_score_call_for (id : bytes) (ev : Event) : bool :=
  match ev with SetPeerScore p _ => bytes_Equal p id | _ => false end.

(** The record [p] of an announcement carries a public key, a signature
    and a version, the key parses, and the signature verifies under the key
    over [BigEndian(max_frame) || version || BigEndian(uint64(timestamp))]. *)
Definition announcement_verifies (pk : Packages) (p : DataPeer) : Prop :=
  exists publicKey signature version key,
    PublicKey p = Some publicKey
    /\ Signature p = Some signature
    /\ Version p = Some version
    /\ pcrypto_UnmarshalEd448PublicKey pk publicKey = inl key
    /\ pcrypto_Verify pk key
         (BigEndian_AppendUint64
            (BigEndian_AppendUint64 [] (MaxFrame p) ++ version)
            (uint64_of_int64 (Timestamp p)))
         signature
       = (true, None).

(** A record that passes the checks of lines 252-295: it is about the
    sender, not about this node, its key parses and matches the peer id,
    and its signature verifies. *)
Definition announcement_validated (pk : Packages)
  (e : DataClockConsensusEngine) (peerID : bytes) (p : DataPeer) : Prop :=
  PeerId p <> GetPeerID (pubSub e)
  /\ PeerId p = peerID
  /\ exists publicKey signature version key,
       PublicKey p = Some publicKey
       /\ Signature p = Some signature
       /\ Version p = Some version
       /\ pcrypto_UnmarshalEd448PublicKey pk publicKey = inl key
       /\ peer_MatchesPublicKey pk (PeerId p) key = true
       /\ pcrypto_Verify pk key
            (BigEndian_AppendUint64
               (BigEndian_AppendUint64 [] (MaxFrame p) ++ version)
               (uint64_of_int64 (Timestamp p)))
            signature
          = (true, None).

(** The entry [update_peer] writes for the record [p] when the clock
    reads [now]. *)
Definition peerInfo_of (e : DataClockConsensusEngine) (peerID : bytes)
  (p : DataPeer) (now : Z) : peerInfo :=
  {| peerId := PeerId p;
     multiaddr := GetMultiaddrOfPeer (pubSub e) (PeerId p);
     maxFrame := MaxFrame p;
     direct := bytes_Equal (PeerId p) peerID;
     lastSeen := Unix now;
     timestamp := Timestamp p;
     version := Version p;
     signature := Signature p;
     publicKey := PublicKey p;
     totalDistance := TotalDistance p |}.

(** The engines [e] and [e'] differ in the peer map at most. *)
Definition same_but_peerMap (e e' : DataClockConsensusEngine) : Prop :=
  e' = set_peerMap (fun _ => peerMap e') e.

(** The world [w] after the calls [evs]. *)
Definition emitted (w : World) (evs : list Event) : World :=
  {| engine := engine w; heap := heap w; entropy := entropy w;
     time_reads := time_reads w; trace := trace w ++ evs |}.

(** The calls the record [p] of an announcement may cause: logs, and
    scores of the peer it names. *)
Definition record_event (p : DataPeer) (ev : Event) : Prop :=
  match ev with
  | Log _ _ => True
  | SetPeerScore id _ => id = PeerId p
  | _ => False
  end.

(** What the record [p] may do to the world: change the peer map at its
    own key and make the calls above. *)
Definition record_step (p : DataPeer) (w w' : World) : Prop :=
  same_but_peerMap (engine w) (engine w')
  /\ (forall k, k <> string_of_bytes (PeerId p) ->
        peerMap (engine w') !! k = peerMap (engine w) !! k)
  /\ exists evs, trace w' = trace w ++ evs /\ Forall (record_event p) evs.

(** Between [w] and [w'] the entry of the peer [id] in the peer map has
    not changed and no score of that peer was set. *)
Definition peer_untouched (id : bytes) (w w' : World) : Prop :=
  peerMap (engine w') !! string_of_bytes id
  = peerMap (engine w) !! string_of_bytes id
  /\ exists evs, trace w' = trace w ++ evs
       /\ Forall (fun ev => is_score_call_for id ev = false) evs.

(** The world in which [publishProof] starts to publish the frame [f]:
    the entry of the node itself is written, the announcement is in the
    store behind the messages that were there, and the clock has been
    read once (lines 51-81). *)
Definition self_announced (pk : Packages) (f : ClockFrame) (w : World)
  : World :=
  let e := engine w in
  let now := time_Now pk (time_reads w) in
  let distance := GetTotalDistance (dataTimeReel e) in
  let d := repeat x00 (256 - length (big_Bytes distance))%nat
             ++ big_Bytes distance in
  {| engine := set_peerMap
       (insert (string_of_bytes (GetPeerID (pubSub e)))
          {| peerId := GetPeerID (pubSub e);
             multiaddr := "";
             maxFrame := FrameNumber f;
             version := config_GetVersion pk;
             timestamp := UnixMilli now;
             totalDistance := d;
             lastSeen := 0;
             signature := None;
             publicKey := None;
             direct := false |}) e;
     heap := heap w ++
       [MsgDataPeerListAnnounce
          {| PeerList := [];
             Peer := Some {| PeerId := [];
                             Multiaddr := "";
                             MaxFrame := FrameNumber f;
                             Version := config_GetVersion pk;
                             Timestamp := UnixMilli now;
                             TotalDistance := d;
                             Signature := None;
                             PublicKey := None |} |}];
     entropy := entropy w;
     time_reads := S (time_reads w);
     trace := trace w ++ [Log DebugLevel "publishing frame and aggregations"]
  |}.

(** The envelope [publishMessage] builds around the message [x]
    (lines 147-173): the payload is the marshaled [Any] with its type URL
    rewritten, the hash is the Poseidon hash of the payload. *)
Definition envelope_of (pk : Packages) (address : bytes) (x : proto_Message)
  : Message + error :=
  match anypb_MarshalFrom pk x with
  | inr err => inr (errors_Wrap err "publish message")
  | inl any =>
      let any := {| TypeUrl := strings_Replace1 (TypeUrl any)
                                 "type.googleapis.com" "types.quilibrium.com";
                    Value := Value any |} in
      match proto_Marshal_Any pk any with
      | inr err => inr (errors_Wrap err "publish message")
      | inl payload =>
          match poseidon_HashBytes pk payload with
          | inr err => inr (errors_Wrap err "publish message")
          | inl h => inl {| Hash := big_Bytes h;
                            Message_Address := address;
                            Payload := payload |}
          end
      end
  end.

(** The token request [t] with the nonce [nonce]. *)
Definition with_nonce (t : TokenRequest) (nonce : bytes) : TokenRequest :=
  {| Request := Request t; Nonce := nonce |}.

(** The world after [Add] has cloned the token request [t] and drawn a
    nonce for the copy. *)
Definition nonce_added (t : TokenRequest) (w : World) : World :=
  {| engine := engine w;
     heap := heap w ++ [MsgTokenRequest (with_nonce t (take 32 (entropy w)))];
     entropy := drop 32 (entropy w);
     time_reads := time_reads w;
     trace := trace w |}.

Definition is_token_request (x : proto_Message) : bool :=
  match x with MsgTokenRequest _ => true | _ => false end.

(** The requests staged in the engine. *)
Definition staged_requests (e : DataClockConsensusEngine)
  : list TokenRequest :=
  match stagedTransactions e with
  | Some s => Requests s
  | None => []
  end.

(* ===================================================================== *)
(** * A small network, to run the handlers on *)
(* ===================================================================== *)

(** Stand-ins for the imported packages (a hash, a signature scheme and a
    wire format that are simple enough to compute with) and a node with
    one prover [A] in its trie and frame 5 at the head of its time reel. *)
Module Scenario.

Definition b (s : string) : bytes := list_byte_of_string s.

(** The hash: the bytes read as a number in base 256 behind a leading 1. *)
Definition hash (x : bytes) : Z :=
  fold_left (fun acc c => acc * 256 + Z.of_N (Byte.to_N c)) x 1.

(** A slice behind its length, for slices shorter than 256 bytes. *)
Definition framed (x : bytes) : bytes :=
  byte_of_Z (Z.of_nat (length x)) :: x.

Definition unframed (x : bytes) : option (bytes * bytes) :=
  match x with
  | [] => None
  | n :: rest =>
      let k := N.to_nat (Byte.to_N n) in
      if (length rest <? k)%nat then None
      else Some (take k rest, drop k rest)
  end.

Definition marshal_any (a : Any) : bytes + error :=
  if (length (list_byte_of_string (TypeUrl a)) <? 256)%nat
  then inl (framed (list_byte_of_string (TypeUrl a)) ++ Value a)
  else inr "type url too long".

Definition unmarshal_any (x : bytes) : Any + error :=
  match unframed x with
  | Some (u, v) => inl {| TypeUrl := string_of_list_byte u; Value := v |}
  | None => inr "unexpected EOF"
  end.

Definition marshal_message (m : Message) : bytes + error :=
  if (length (Hash m) <? 256)%nat && (length (Message_Address m) <? 256)%nat
  then inl (framed (Hash m) ++ framed (Message_Address m) ++ Payload m)
  else inr "field too long".

Definition unmarshal_message (x : bytes) : Message + error :=
  match unframed x with
  | Some (h, rest) =>
      match unframed rest with
      | Some (a, p) =>
          inl {| Hash := h; Message_Address := a; Payload := p |}
      | None => inr "unexpected EOF"
      end
  | None => inr "unexpected EOF"
  end.

(** Token requests on the wire: the nonce, then the kind of the request
    and, for a transfer or a split, the address of the coin. *)
Definition marshal_token_request (t : TokenRequest) : bytes :=
  framed (Nonce t) ++
  match Request t with
  | Some (TokenRequest_Transfer (Some {| Transfer_OfCoin := Some c |})) =>
      "T"%byte :: Address c
  | Some (TokenRequest_Split (Some {| Split_OfCoin := Some c |})) =>
      "S"%byte :: Address c
  | _ => []
  end.

Definition unmarshal_token_request (x : bytes) : TokenRequest + error :=
  match unframed x with
  | Some (n, "T"%byte :: a) =>
      inl {| Request := Some (TokenRequest_Transfer
               (Some {| Transfer_OfCoin := Some {| Address := a |} |}));
             Nonce := n |}
  | Some (n, "S"%byte :: a) =>
      inl {| Request := Some (TokenRequest_Split
               (Some {| Split_OfCoin := Some {| Address := a |} |}));
             Nonce := n |}
  | Some (n, _) => inl {| Request := None; Nonce := n |}
  | None => inr "unexpected EOF"
  end.

Definition TokenRequestType : string :=
  "types.quilibrium.com/quilibrium.node.token.pb.TokenRequest".

Definition marshal_from (x : proto_Message) : Any + error :=
  match x with
  | MsgTokenRequest t =>
      if (length (Nonce t) <? 256)%nat
      then inl {| TypeUrl :=
                    "type.googleapis.com/quilibrium.node.token.pb.TokenRequest";
                  Value := marshal_token_request t |}
      else inr "nonce too long"
  | MsgClockFrame f =>
      inl {| TypeUrl :=
               "type.googleapis.com/quilibrium.node.clock.pb.ClockFrame";
             Value := BigEndian_AppendUint64 [] (FrameNumber f)
                        ++ Filter f |}
  | MsgDataPeerListAnnounce a =>
      inl {| TypeUrl :=
               "type.googleapis.com/quilibrium.node.data.pb.DataPeerListAnnounce";
             Value := match Peer a with
                      | Some p => BigEndian_AppendUint64 [] (MaxFrame p)
                      | None => []
                      end |}
  end.

(** An announcement on the wire is not decoded here: the scenario hands
    the handler the announcement it is to find in the payload. *)
Definition packages (announce : DataPeerListAnnounce) : Packages :=
  {| config_GetVersion := Some [x02; x00; x03];
     config_GetMinimumVersion := [x02; x00; x00];
     config_GetMinimumVersionCutoff_UnixMilli := 1000;
     application_TOKEN_ADDRESS := b "token";
     protobufs_TokenRequestType := TokenRequestType;
     time_Now := fun n => 5000000 + Z.of_nat n;
     poseidon_HashBytes := fun x => inl (hash x);
     pcrypto_UnmarshalEd448PublicKey := fun x =>
       match x with [] => inr "invalid key" | _ => inl x end;
     peer_MatchesPublicKey := fun id key => bytes_Equal id key;
     pcrypto_Verify := fun key msg sig =>
       (bytes_Equal sig (key ++ msg), None);
     anypb_MarshalFrom := marshal_from;
     anypb_UnmarshalTo_ClockFrame := fun _ => inr "mismatched message type";
     anypb_UnmarshalTo_DataPeerListAnnounce := fun _ => inl announce;
     proto_Marshal_Any := marshal_any;
     proto_Marshal_Message := marshal_message;
     proto_Unmarshal_Message := unmarshal_message;
     proto_Unmarshal_Any := unmarshal_any;
     proto_Unmarshal_TokenRequest := unmarshal_token_request |}.

Definition no_announce : DataPeerListAnnounce :=
  {| PeerList := []; Peer := None |}.

Definition pk0 : Packages := packages no_announce.

Definition self : bytes := b "self".
Definition P1 : bytes := b "P1".
Definition P2 : bytes := b "P2".
Definition keyA : bytes := b "A".
Definition keyB : bytes := b "B".

Definition signed_by (key : bytes) : option Ed448Signature :=
  Some {| Ed448Signature_PublicKey := Some {| KeyValue := key |};
          Ed448Signature_Signature := [] |}.

Definition frame_of (n : Z) (key : bytes) : ClockFrame :=
  {| Filter := b "f"; FrameNumber := n; AggregateProofs := [];
     ClockFrame_PublicKeySignatureEd448 := signed_by key |}.

Definition trieA : ProverTrie :=
  {| Contains := fun a => bytes_Equal a (big_Bytes (hash keyA)) |}.

(** The engine that hands every wire message back as its own result. *)
Definition echo : ExecutionEngine :=
  {| ProcessMessage := fun _ msg => inl [msg] |}.

(** A node whose own proving key hashes to [addr], with the pubsub
    [publish] and the sync status [status]. *)
Definition node (addr : bytes) (status : SyncStatusType)
  (publish : bytes -> bytes -> option error) : DataClockConsensusEngine :=
  {| pubSub := {| GetPeerID := self;
                  GetMultiaddrOfPeer := fun _ => "/ip4/10.0.0.7/udp/8336";
                  PublishToBitmask := publish |};
     frameProver := {| VerifyDataClockFrame := fun f =>
                         match AggregateProofs f with
                         | [] => None
                         | _ => Some "invalid proof"
                         end |};
     dataTimeReel := {| Head := inl (frame_of 5 keyA);
                        GetTotalDistance := 70000 |};
     executionEngines := {[ "token" := echo ]};
     frameProverTries := [trieA];
     provingKeyAddress := addr;
     syncingStatus := status;
     infoFilter := b "info";
     frameFilter := b "frame";
     peerMap := ∅;
     uncooperativePeersMap := ∅;
     stagedTransactions := None |}.

Definition prover_address : bytes := big_Bytes (hash keyA).

Definition engine0 : DataClockConsensusEngine :=
  node prover_address SyncStatusNotSyncing (fun _ _ => None).

Definition world_of (e : DataClockConsensusEngine) : World :=
  {| engine := e; heap := []; entropy := []; time_reads := 0; trace := [] |}.

Definition world0 : World := world_of engine0.

Definition split_of (coin : bytes) : TokenRequest :=
  {| Request := Some (TokenRequest_Split
       (Some {| Split_OfCoin := Some {| Address := coin |} |}));
     Nonce := [] |}.

Definition transfer_of (coin : bytes) : TokenRequest :=
  {| Request := Some (TokenRequest_Transfer
       (Some {| Transfer_OfCoin := Some {| Address := coin |} |}));
     Nonce := [] |}.

(** The signature of the stand-in scheme: the key, then the message. *)
Definition sign (key : bytes) (maxFrame : Z) (version : bytes)
  (timestamp : Z) : bytes :=
  key ++ BigEndian_AppendUint64
           (BigEndian_AppendUint64 [] maxFrame ++ version)
           (uint64_of_int64 timestamp).

(** The record a peer signs about itself. *)
Definition record_of (id : bytes) (maxFrame timestamp : Z)
  (version : bytes) : DataPeer :=
  {| PeerId := id; Multiaddr := ""; MaxFrame := maxFrame;
     Timestamp := timestamp; Version := Some version;
     Signature := Some (sign id maxFrame version timestamp);
     PublicKey := Some id; TotalDistance := [] |}.

(** The same record with a signature that does not verify. *)
Definition forged_record (id : bytes) (maxFrame timestamp : Z)
  (version : bytes) : DataPeer :=
  {| PeerId := id; Multiaddr := ""; MaxFrame := maxFrame;
     Timestamp := timestamp; Version := Some version;
     Signature := Some (b "forged");
     PublicKey := Some id; TotalDistance := [] |}.

Definition announce_of (records : list DataPeer) : DataPeerListAnnounce :=
  {| PeerList := records; Peer := None |}.

Definition current : bytes := [x02; x00; x03].
Definition outdated : bytes := [x01; x04; x15].

(** The payload of an announcement; the scenario's packages decode it. *)
Definition announce_payload : Any :=
  {| TypeUrl :=
       "types.quilibrium.com/quilibrium.node.data.pb.DataPeerListAnnounce";
     Value := [] |}.

(** The node that knows the peers [known]. *)
Definition knowing (known : list (string * peerInfo)) : World :=
  world_of (set_peerMap (fun _ => list_to_map known) engine0).

(** What the node has stored about [P1]: frame 7 at time 2000. *)
Definition P1_at_2000 : peerInfo :=
  {| peerId := P1; multiaddr := "/ip4/10.0.0.7/udp/8336"; maxFrame := 7;
     timestamp := 2000; lastSeen := 2; version := Some current;
     signature := Some (sign P1 7 current 2000); publicKey := Some P1;
     direct := true; totalDistance := [] |}.

(** A token request as it arrives on the tx topic. *)
Definition wire_of (t : TokenRequest) : pb_Message :=
  {| Data := framed (b "hash") ++ framed (b "addr")
             ++ framed (list_byte_of_string TokenRequestType)
             ++ marshal_token_request t;
     Bitmask := b "tx"; From := P1; Seqno := None |}.

(** The node while it synchronizes. *)
Definition syncing : World :=
  world_of (node prover_address (SyncStatusOther 2) (fun _ _ => None)).

(** A pubsub on which every publish on the frame topic fails. *)
Definition frame_topic_down (bitmask data : bytes) : option error :=
  if bytes_Equal bitmask (b "frame") then Some "no peers subscribed"
  else None.

(** The node about to publish frame 6, which the store holds at 0. *)
Definition publishing (publish : bytes -> bytes -> option error) : World :=
  {| engine := node prover_address SyncStatusNotSyncing publish;
     heap := [MsgClockFrame (frame_of 6 keyA)];
     entropy := []; time_reads := 0; trace := [] |}.

(** The node about to publish the token request [t], held at 0, with the
    bytes [random] to come from [crypto/rand]. *)
Definition requesting (t : TokenRequest) (random : bytes) : World :=
  {| engine := engine0; heap := [MsgTokenRequest t];
     entropy := random; time_reads := 0; trace := [] |}.

Definition merge_of (coins : list bytes) : TokenRequest :=
  {| Request := Some (TokenRequest_Merge
       (Some {| Coins := map (fun c => Some {| Address := c |}) coins |}));
     Nonce := [] |}.

Definition mint_of (proofs : list bytes) : TokenRequest :=
  {| Request := Some (TokenRequest_Mint (Some {| Proofs := proofs |}));
     Nonce := [] |}.

(** The node with the requests [requests] staged. *)
Definition staging (requests : list TokenRequest) : World :=
  world_of (set_stagedTransactions (Some {| Requests := requests |}) engine0).

End Scenario.

(* ===================================================================== *)
(** * The rest of message_handler.go and broadcast_messaging.go *)
(* ===================================================================== *)

(** [nearestApplicablePowerOfTwo] *)
Definition nearestApplicablePowerOfTwo (number : Z) : Z :=
  let power := 128 in
  if number >? 2048 then 65536
  else if number >? 1024 then 2048
  else if number >? 128 then 1024
  else power.

(** The type URLs of package [protobufs] that the frame and the info
    worker dispatch on. *)
Record TypeUrls := {
  protobufs_ClockFrameType : string;
  protobufs_DataPeerListAnnounceType : string
}.

Section Workers.

Variable pk : Packages.
Variable urls : TypeUrls.

(** One turn of the loop of [runFrameMessageHandler]; the goroutine the
    turn starts is run where it is started. *)
Definition frameMessageHandler_turn (message : pb_Message) : M unit :=
  emit (Log DebugLevel "handling frame message");;
  match proto_Unmarshal_Message pk (Data message) with
  | inr err => emit (Log DebugLevel "bad message")
  | inl msg =>
      match proto_Unmarshal_Any pk (Payload msg) with
      | inr err => emit (Log ErrorLevel "error while unmarshaling")
      | inl any =>
          emit (Log DebugLevel "message type");;
          if String.eqb (TypeUrl any) (protobufs_ClockFrameType urls) then
            _ ← handleClockFrameData pk (From message)
                  (Message_Address msg) any false;
            mret tt
          else mret tt
      end
  end.

Definition runFrameMessageHandler (delivered : list pb_Message) : M unit :=
  for_range frameMessageHandler_turn delivered.

(** One turn of the loop of [runInfoMessageHandler]. *)
Definition infoMessageHandler_turn (message : pb_Message) : M unit :=
  emit (Log DebugLevel "handling info message");;
  match proto_Unmarshal_Message pk (Data message) with
  | inr err => emit (Log DebugLevel "bad message")
  | inl msg =>
      match proto_Unmarshal_Any pk (Payload msg) with
      | inr err => emit (Log ErrorLevel "error while unmarshaling")
      | inl any =>
          emit (Log DebugLevel "message type");;
          if String.eqb (TypeUrl any)
               (protobufs_DataPeerListAnnounceType urls) then
            _ ← handleDataPeerListAnnounce pk (From message)
                  (Message_Address msg) any;
            mret tt
          else mret tt
      end
  end.

Definition runInfoMessageHandler (delivered : list pb_Message) : M unit :=
  for_range infoMessageHandler_turn delivered.

(** [insertTxMessage].  The goroutine it starts sends a message on
    [txMessageProcessorCh]: the second component of the result is that
    message, [None] when the function returns before it starts one. *)
Definition insertTxMessage (filter : bytes) (message : loc)
  : M (option error * option pb_Message) :=
  x ← load message;
  match anypb_MarshalFrom pk x with
  | inr err => mret (Some (errors_Wrap err "publish message"), None)
  | inl any =>
      let any := {| TypeUrl := strings_Replace1 (TypeUrl any)
                                 "type.googleapis.com" "types.quilibrium.com";
                    Value := Value any |} in
      match proto_Marshal_Any pk any with
      | inr err => mret (Some (errors_Wrap err "publish message"), None)
      | inl payload =>
          match poseidon_HashBytes pk payload with
          | inr err => mret (Some (errors_Wrap err "publish message"), None)
          | inl h =>
              e ← gets engine;
              let msg := {| Hash := big_Bytes h;
                            Message_Address := provingKeyAddress e;
                            Payload := payload |} in
              match proto_Marshal_Message pk msg with
              | inr err =>
                  mret (Some (errors_Wrap err "publish message"), None)
              | inl data =>
                  let m := {| Data := data;
                              Bitmask := filter;
                              From := GetPeerID (pubSub e);
                              Seqno := None |} in
                  mret (None, Some m)
              end
          end
      end
  end.

End Workers.

(* ===================================================================== *)
(** * More observations *)
(* ===================================================================== *)

(** The variant of the oneof of a token request. *)
Inductive RequestKind :=
| KTransfer | KSplit | KMerge | KMint | KAnnounce
| KJoin | KLeave | KPause | KResume.

Definition kind_of (t : TokenRequest) : option RequestKind :=
  match Request t with
  | Some (TokenRequest_Transfer _) => Some KTransfer
  | Some (TokenRequest_Split _) => Some KSplit
  | Some (TokenRequest_Merge _) => Some KMerge
  | Some (TokenRequest_Mint _) => Some KMint
  | Some (TokenRequest_Announce _) => Some KAnnounce
  | Some (TokenRequest_Join _) => Some KJoin
  | Some (TokenRequest_Leave _) => Some KLeave
  | Some (TokenRequest_Pause _) => Some KPause
  | Some (TokenRequest_Resume _) => Some KResume
  | None => None
  end.

(** The address of the coin of a transfer whose pointers are not nil. *)
Definition transfer_coin (t : TokenRequest) : option bytes :=
  match Request t with
  | Some (TokenRequest_Transfer (Some r)) => Address <$> Transfer_OfCoin r
  | _ => None
  end.

(** The addresses of the coins of a merge whose pointers are not nil. *)
Definition merge_coins (t : TokenRequest) : option (list bytes) :=
  match Request t with
  | Some (TokenRequest_Merge (Some r)) =>
      mapM (fun c : option CoinRef => Address <$> c) (Coins r)
  | _ => None
  end.

(** The proofs of a mint whose pointer is not nil. *)
Definition mint_proofs (t : TokenRequest) : option (list bytes) :=
  match Request t with
  | Some (TokenRequest_Mint (Some r)) => Some (Proofs r)
  | _ => None
  end.

(** The key of a signature whose pointers are not nil. *)
Definition key_of (s : option Ed448Signature) : option bytes :=
  match s with
  | Some {| Ed448Signature_PublicKey := Some k |} => Some (KeyValue k)
  | _ => None
  end.

(** The signer of a join, a leave, a pause or a resume. *)
Definition membership_key (t : TokenRequest) : option bytes :=
  match Request t with
  | Some (TokenRequest_Join r) => key_of (Join_GetPublicKeySignatureEd448 r)
  | Some (TokenRequest_Leave r) => key_of (Leave_GetPublicKeySignatureEd448 r)
  | Some (TokenRequest_Pause r) => key_of (Pause_GetPublicKeySignatureEd448 r)
  | Some (TokenRequest_Resume r) =>
      key_of (Resume_GetPublicKeySignatureEd448 r)
  | _ => None
  end.

Definition is_membership (k : RequestKind) : bool :=
  match k with KJoin | KLeave | KPause | KResume => true | _ => false end.

Definition RequestKind_eqb (a b : RequestKind) : bool :=
  match a, b with
  | KTransfer, KTransfer | KSplit, KSplit | KMerge, KMerge | KMint, KMint
  | KAnnounce, KAnnounce | KJoin, KJoin | KLeave, KLeave | KPause, KPause
  | KResume, KResume => true
  | _, _ => false
  end.

(** The world [w] with the requests [requests] staged. *)
Definition staged_as (requests : list TokenRequest) (w : World) : World :=
  {| engine := set_stagedTransactions (Some {| Requests := requests |})
                 (engine w);
     heap := heap w; entropy := entropy w;
     time_reads := time_reads w; trace := trace w |}.

(** The engines [e] and [e'] differ in the staged requests at most. *)
Definition same_but_staged (e e' : DataClockConsensusEngine) : Prop :=
  e' = set_stagedTransactions (stagedTransactions e') e.

(** The score calls that raise a score by 10. *)
Definition is_raise_for (id : bytes) (ev : Event) : bool :=
  match ev with
  | SetPeerScore p score => bytes_Equal p id && (score =? 10)
  | _ => false
  end.

(** What holds of every entry the handlers write into the peer map: it
    is filed under the peer id it carries. *)
Definition keyed_by_peer_id (m : gmap string peerInfo) : Prop :=
  forall k info, m !! k = Some info -> k = string_of_bytes (peerId info).

(** What [handleClockFrame] has checked of a frame [f] before it inserts
    it: the signer, hashed, is in the first prover trie, the frame prover
    accepts the frame, and the frame is ahead of the head. *)
Definition admitted_frame (pk : Packages) (e : DataClockConsensusEngine)
  (f : ClockFrame) : Prop :=
  exists sig key addr trie tries head,
    ClockFrame_PublicKeySignatureEd448 f = Some sig
    /\ Ed448Signature_PublicKey sig = Some key
    /\ poseidon_HashBytes pk (KeyValue key) = inl addr
    /\ frameProverTries e = trie :: tries
    /\ Contains trie (big_Bytes addr) = true
    /\ VerifyDataClockFrame (frameProver e) f = None
    /\ Head (dataTimeReel e) = inl head
    /\ FrameNumber head < FrameNumber f.

(** More requests and messages for the scenario. *)
Module Cases.

Definition join_of (key : bytes) : TokenRequest :=
  {| Request := Some (TokenRequest_Join
       (Some {| Join_PublicKeySignatureEd448 := Scenario.signed_by key |}));
     Nonce := [] |}.

Definition leave_of (key : bytes) : TokenRequest :=
  {| Request := Some (TokenRequest_Leave
       (Some {| Leave_PublicKeySignatureEd448 := Scenario.signed_by key |}));
     Nonce := [] |}.

Definition urls : TypeUrls :=
  {| protobufs_ClockFrameType :=
       "types.quilibrium.com/quilibrium.node.clock.pb.ClockFrame";
     protobufs_DataPeerListAnnounceType :=
       "types.quilibrium.com/quilibrium.node.data.pb.DataPeerListAnnounce" |}.

(** The packages of the scenario, with the frame [f] behind every payload
    typed as a clock frame. *)
Definition packages_with_frame (f : ClockFrame) : Packages :=
  let pk := Scenario.pk0 in
  {| config_GetVersion := config_GetVersion pk;
     config_GetMinimumVersion := config_GetMinimumVersion pk;
     config_GetMinimumVersionCutoff_UnixMilli :=
       config_GetMinimumVersionCutoff_UnixMilli pk;
     application_TOKEN_ADDRESS := application_TOKEN_ADDRESS pk;
     protobufs_TokenRequestType := protobufs_TokenRequestType pk;
     time_Now := time_Now pk;
     poseidon_HashBytes := poseidon_HashBytes pk;
     pcrypto_UnmarshalEd448PublicKey := pcrypto_UnmarshalEd448PublicKey pk;
     peer_MatchesPublicKey := peer_MatchesPublicKey pk;
     pcrypto_Verify := pcrypto_Verify pk;
     anypb_MarshalFrom := anypb_MarshalFrom pk;
     anypb_UnmarshalTo_ClockFrame := fun _ => inl f;
     anypb_UnmarshalTo_DataPeerListAnnounce :=
       anypb_UnmarshalTo_DataPeerListAnnounce pk;
     proto_Marshal_Any := proto_Marshal_Any pk;
     proto_Marshal_Message := proto_Marshal_Message pk;
     proto_Unmarshal_Message := proto_Unmarshal_Message pk;
     proto_Unmarshal_Any := proto_Unmarshal_Any pk;
     proto_Unmarshal_TokenRequest := proto_Unmarshal_TokenRequest pk |}.

(** A message on the wire with the type URL [url]. *)
Definition wire (from : bytes) (url : string) (value : bytes) : pb_Message :=
  {| Data := Scenario.framed (Scenario.b "hash")
             ++ Scenario.framed (Scenario.b "addr")
             ++ Scenario.framed (list_byte_of_string url) ++ value;
     Bitmask := Scenario.b "topic"; From := from; Seqno := None |}.

Definition frame_payload : Any :=
  {| TypeUrl := protobufs_ClockFrameType urls; Value := [] |}.

(** The node that holds [P1] to be uncooperative. *)
Definition shunning_P1 : World :=
  {| engine :=
       {| pubSub := pubSub Scenario.engine0;
          frameProver := frameProver Scenario.engine0;
          dataTimeReel := dataTimeReel Scenario.engine0;
          executionEngines := executionEngines Scenario.engine0;
          frameProverTries := frameProverTries Scenario.engine0;
          provingKeyAddress := provingKeyAddress Scenario.engine0;
          syncingStatus := syncingStatus Scenario.engine0;
          infoFilter := infoFilter Scenario.engine0;
          frameFilter := frameFilter Scenario.engine0;
          peerMap := {[ string_of_bytes Scenario.P1 := Scenario.P1_at_2000 ]};
          uncooperativePeersMap :=
            {[ string_of_bytes Scenario.P1 := Scenario.P1_at_2000 ]};
          stagedTransactions := None |};
     heap := []; entropy := []; time_reads := 0; trace := [] |}.



End Cases.

(** The signer of the frame [f], hashed, is in the first prover trie. *)
Definition signer_in_trie (pk : Packages) (e : DataClockConsensusEngine)
  (f : ClockFrame) (present : bool) : Prop :=
  exists sig key addr trie tries,
    ClockFrame_PublicKeySignatureEd448 f = Some sig
    /\ Ed448Signature_PublicKey sig = Some key
    /\ poseidon_HashBytes pk (KeyValue key) = inl addr
    /\ frameProverTries e = trie :: tries
    /\ Contains trie (big_Bytes addr) = present.

(** The ways a run of [handleClockFrame] on the frame [f] ends when it
    does not panic: the result and the world it leaves. *)
Inductive frame_outcome (pk : Packages) (w : World) (f : ClockFrame)
  : option error -> World -> Prop :=
| frame_hash_error sig key err :
    ClockFrame_PublicKeySignatureEd448 f = Some sig ->
    Ed448Signature_PublicKey sig = Some key ->
    poseidon_HashBytes pk (KeyValue key) = inr err ->
    frame_outcome pk w f
      (Some (errors_Wrap err "handle clock frame data")) w
| frame_skipped :
    signer_in_trie pk (engine w) f false ->
    frame_outcome pk w f None
      (emitted w [Log DebugLevel
                    "prover not in trie at frame, address may be in fork"])
| frame_rejected err :
    signer_in_trie pk (engine w) f true ->
    VerifyDataClockFrame (frameProver (engine w)) f = Some err ->
    frame_outcome pk w f
      (Some (errors_Wrap err "handle clock frame data"))
      (emitted w [Log DebugLevel "got clock frame";
                  VerifyDataClockFrameCall f;
                  Log DebugLevel "could not verify clock frame"])
| frame_stale head :
    signer_in_trie pk (engine w) f true ->
    VerifyDataClockFrame (frameProver (engine w)) f = None ->
    Head (dataTimeReel (engine w)) = inl head ->
    FrameNumber f <= FrameNumber head ->
    frame_outcome pk w f None
      (emitted w [Log DebugLevel "got clock frame";
                  VerifyDataClockFrameCall f;
                  Log DebugLevel "clock frame was valid"; HeadCall])
| frame_inserted :
    admitted_frame pk (engine w) f ->
    frame_outcome pk w f None
      (emitted w [Log DebugLevel "got clock frame";
                  VerifyDataClockFrameCall f;
                  Log DebugLevel "clock frame was valid"; HeadCall;
                  Insert f false]).

Definition is_log_or_score (ev : Event) : bool :=
  match ev with Log _ _ | SetPeerScore _ _ => true | _ => false end.

(** The message [message] of the frame topic carries the frame [f] from
    another peer: it decodes to an envelope and a payload of the type of
    clock frames, and the payload decodes to [f]. *)
Definition carries_frame (pk : Packages) (urls : TypeUrls)
  (e : DataClockConsensusEngine) (message : pb_Message) (f : ClockFrame)
  : Prop :=
  exists msg any,
    proto_Unmarshal_Message pk (Data message) = inl msg
    /\ proto_Unmarshal_Any pk (Payload msg) = inl any
    /\ TypeUrl any = protobufs_ClockFrameType urls
    /\ From message <> GetPeerID (pubSub e)
    /\ anypb_UnmarshalTo_ClockFrame pk any = inl f.

(** The calls an announcement from the peer [peerID] may cause: logs, and
    the two scores of the sender. *)
Definition announce_call (peerID : bytes) (ev : Event) : Prop :=
  match ev with
  | Log _ _ => True
  | SetPeerScore id score =>
      id = peerID /\ (score = 10 \/ score = -1000000)
  | _ => False
  end.

(** What an announcement from [peerID] may do to the world: change the
    peer map at the key of the sender, read the clock, and make the calls
    above. *)
Definition announce_step (peerID : bytes) (w w' : World) : Prop :=
  same_but_peerMap (engine w) (engine w')
  /\ (forall k, k <> string_of_bytes peerID ->
        peerMap (engine w') !! k = peerMap (engine w) !! k)
  /\ heap w' = heap w /\ entropy w' = entropy w
  /\ exists evs, trace w' = trace w ++ evs
       /\ Forall (announce_call peerID) evs.

(** Between [w] and [w'] the entry of the peer [id] in the peer map has
    not changed and the score of the peer was not raised. *)
Definition peer_masked (id : bytes) (w w' : World) : Prop :=
  peerMap (engine w') !! string_of_bytes id
  = peerMap (engine w) !! string_of_bytes id
  /\ exists evs, trace w' = trace w ++ evs
       /\ Forall (fun ev => is_raise_for id ev = false) evs.

(** What the worker of the info queue may do to the world: change the
    peer map, read the clock, log and score. *)
Definition info_step (w w' : World) : Prop :=
  same_but_peerMap (engine w) (engine w')
  /\ heap w' = heap w /\ entropy w' = entropy w
  /\ exists evs, trace w' = trace w ++ evs
       /\ Forall (fun ev => is_log_or_score ev = true) evs.

(** What the worker of the tx queue may do to the world: append to the
    staged requests and make calls, of which [calls] are the calls on the
    execution engines, in order. *)
Definition tx_step (calls : list Event) (w w' : World) : Prop :=
  same_but_staged (engine w) (engine w')
  /\ (exists added,
        staged_requests (engine w') = staged_requests (engine w) ++ added)
  /\ exists evs, trace w' = trace w ++ evs
       /\ filter (fun ev => is_engine_call ev = true) evs = calls.


(** The object [publishMessage] marshals for the message [x]: the copy of
    a token request with the nonce [nonce], every other message itself. *)
Definition published_object (x : proto_Message) (nonce : bytes)
  : proto_Message :=
  match x with
  | MsgTokenRequest t => MsgTokenRequest (with_nonce t nonce)
  | _ => x
  end.

(* ===================================================================== *)
(** * Properties *)
(* ===================================================================== *)

Lemma bytes_Equal_eq (a b : bytes) : bytes_Equal a b = true <-> a = b.
Proof.
  revert b; induction a as [|x a IH]; intros [|y b]; simpl; split;
    try congruence; try done.
  - intros [Hx Hab]%andb_true_iff.
    apply Byte.byte_dec_bl in Hx. apply IH in Hab. congruence.
  - intros [= -> ->]. apply andb_true_iff; split.
    + by apply Byte.byte_dec_lb.
    + by apply IH.
Qed.

Lemma bytes_Equal_refl (a : bytes) : bytes_Equal a a = true.
Proof. by apply bytes_Equal_eq. Qed.

Lemma bytes_Equal_neq (a b : bytes) : bytes_Equal a b = false <-> a <> b.
Proof.
  destruct (bytes_Equal a b) eqn:E; split; try done.
  - apply bytes_Equal_eq in E. congruence.
  - intros _ ->. rewrite bytes_Equal_refl in E. done.
Qed.

Arguments BigEndian_AppendUint64 : simpl never.
Arguments uint64_of_int64 : simpl never.

Ltac run_M :=
  unfold mbind, mret, M_bind, M_ret, outcome_bind, outcome_ret, lift, gets,
    emit, panic, modify_engine, GetFrameProverTries; simpl.

Section ClockFrames.

Context (pk : Packages).

(** C4.  A frame whose signer, hashed with Poseidon, is not in the first
    prover trie is skipped: [handleClockFrame] returns nil, the only call
    it makes is the debug log, so the frame prover and the time reel are
    not called, and the engine is as it was. *)
Theorem handleClockFrame_skips_absent_prover
  (w : World) (peerID address : bytes) (frame : ClockFrame)
  (sig : Ed448Signature) (key : Ed448PublicKey) (addr : Z)
  (trie : ProverTrie) (tries : list ProverTrie) :
  ClockFrame_PublicKeySignatureEd448 frame = Some sig ->
  Ed448Signature_PublicKey sig = Some key ->
  poseidon_HashBytes pk (KeyValue key) = inl addr ->
  frameProverTries (engine w) = trie :: tries ->
  Contains trie (big_Bytes addr) = false ->
  exists w',
    handleClockFrame pk peerID address (Some frame) w = Done (None, w')
    /\ calls_since w w'
       = [Log DebugLevel "prover not in trie at frame, address may be in fork"]
    /\ Forall (fun ev => is_verify_call ev = false
                         /\ is_time_reel_call ev = false) (calls_since w w')
    /\ engine w' = engine w.
Proof.
  intros Hsig Hkey Hhash Htries Habsent.
  unfold handleClockFrame, signer_KeyValue. run_M.
  rewrite Hsig; simpl. rewrite Hkey; simpl. rewrite Hhash; simpl.
  rewrite Htries; simpl. rewrite Habsent; simpl.
  eexists; split; [reflexivity|].
  unfold calls_since; simpl; rewrite drop_app_length.
  repeat split; repeat constructor.
Qed.

(** C5.  For a frame that the prover trie admits and the frame prover
    verifies, [handleClockFrame] calls [Insert(frame, false)] on the time
    reel exactly when the frame number is strictly greater than the frame
    number of the head; otherwise the time reel receives no insert. *)
Theorem handleClockFrame_inserts_iff_ahead
  (w : World) (peerID address : bytes) (frame head : ClockFrame)
  (sig : Ed448Signature) (key : Ed448PublicKey) (addr : Z)
  (trie : ProverTrie) (tries : list ProverTrie) :
  ClockFrame_PublicKeySignatureEd448 frame = Some sig ->
  Ed448Signature_PublicKey sig = Some key ->
  poseidon_HashBytes pk (KeyValue key) = inl addr ->
  frameProverTries (engine w) = trie :: tries ->
  Contains trie (big_Bytes addr) = true ->
  VerifyDataClockFrame (frameProver (engine w)) frame = None ->
  Head (dataTimeReel (engine w)) = inl head ->
  exists w',
    handleClockFrame pk peerID address (Some frame) w = Done (None, w')
    /\ (In (Insert frame false) (calls_since w w')
        <-> FrameNumber head < FrameNumber frame)
    /\ filter (fun ev => is_insert_call ev = true) (calls_since w w')
       = (if FrameNumber frame >? FrameNumber head
          then [Insert frame false] else [])
    /\ engine w' = engine w.
Proof.
  intros Hsig Hkey Hhash Htries Hin Hverify Hhead.
  unfold handleClockFrame, signer_KeyValue. run_M.
  rewrite Hsig; simpl. rewrite Hkey; simpl. rewrite Hhash; simpl.
  rewrite Htries; simpl. rewrite Hin; simpl.
  rewrite Hverify; simpl. rewrite Hhead; simpl.
  destruct (FrameNumber frame >? FrameNumber head) eqn:Hcmp; simpl;
    (eexists; split; [reflexivity|]);
    unfold calls_since; simpl; rewrite <- ?app_assoc, drop_app_length; simpl.
  - apply Z.gtb_lt in Hcmp. repeat split; auto 10.
  - assert (~ FrameNumber head < FrameNumber frame) as Hle.
    { intros H%Z.gtb_lt. congruence. }
    repeat split; auto; try (intros; exfalso; by auto).
    intros [H|[H|[H|[H|[]]]]]; discriminate H.
Qed.

End ClockFrames.

Lemma handleClockFrame_skips_absent_prover_witness :
  exists w',
    handleClockFrame Scenario.pk0 Scenario.P1 []
      (Some (Scenario.frame_of 6 Scenario.keyB)) Scenario.world0
    = Done (None, w')
    /\ calls_since Scenario.world0 w'
       = [Log DebugLevel "prover not in trie at frame, address may be in fork"]
    /\ Forall (fun ev => is_verify_call ev = false
                         /\ is_time_reel_call ev = false)
         (calls_since Scenario.world0 w')
    /\ engine w' = engine Scenario.world0.
Proof.
  eapply (handleClockFrame_skips_absent_prover Scenario.pk0 Scenario.world0
            Scenario.P1 [] (Scenario.frame_of 6 Scenario.keyB));
    reflexivity.
Defined.

Lemma handleClockFrame_inserts_iff_ahead_witness :
  exists w',
    handleClockFrame Scenario.pk0 Scenario.P1 []
      (Some (Scenario.frame_of 6 Scenario.keyA)) Scenario.world0
    = Done (None, w')
    /\ (In (Insert (Scenario.frame_of 6 Scenario.keyA) false)
           (calls_since Scenario.world0 w')
        <-> 5 < 6)
    /\ filter (fun ev => is_insert_call ev = true)
         (calls_since Scenario.world0 w')
       = [Insert (Scenario.frame_of 6 Scenario.keyA) false]
    /\ engine w' = engine Scenario.world0.
Proof.
  eapply (handleClockFrame_inserts_iff_ahead Scenario.pk0 Scenario.world0
            Scenario.P1 [] (Scenario.frame_of 6 Scenario.keyA)
            (Scenario.frame_of 5 Scenario.keyA));
    reflexivity.
Defined.

Section Staging.

(** In the [Split] case the incoming request is compared with itself: a
    staged split and a well-formed incoming split always collide. *)
Lemma staged_collides_split (ti transition : TokenRequest)
  (t : option SplitCoinRequest) (r : SplitCoinRequest) (c : CoinRef) :
  Request ti = Some (TokenRequest_Split t) ->
  Request transition = Some (TokenRequest_Split (Some r)) ->
  Split_OfCoin r = Some c ->
  staged_collides ti transition = Done true.
Proof.
  intros Hti Htr Hc. unfold staged_collides. rewrite Hti, Htr. simpl.
  rewrite Hc. simpl. by rewrite bytes_Equal_refl.
Qed.

(** In the [Transfer] case the incoming request is compared with the
    staged one. *)
Lemma staged_collides_transfer (ti transition : TokenRequest)
  (t r : TransferCoinRequest) (ct cr : CoinRef) :
  Request ti = Some (TokenRequest_Transfer (Some t)) ->
  Request transition = Some (TokenRequest_Transfer (Some r)) ->
  Transfer_OfCoin t = Some ct ->
  Transfer_OfCoin r = Some cr ->
  staged_collides ti transition
  = Done (bytes_Equal (Address cr) (Address ct)).
Proof.
  intros Hti Htr Hct Hcr. unfold staged_collides. rewrite Hti, Htr. simpl.
  rewrite Hcr. simpl. by rewrite Hct.
Qed.

Lemma scan_staged_found (requests : list TokenRequest)
  (transition : TokenRequest) (found : bool) :
  scan_staged requests transition true = Done found -> found = true.
Proof.
  revert found. induction requests as [|ti rest IH]; simpl; intros found.
  - congruence.
  - unfold mbind, outcome_bind.
    destruct (staged_collides ti transition); [|done]. simpl. apply IH.
Qed.

(** Once a split is staged, no well-formed split is appended, whatever
    coin it names. *)
Lemma scan_staged_split (requests : list TokenRequest)
  (ti transition : TokenRequest)
  (t : option SplitCoinRequest) (r : SplitCoinRequest) (c : CoinRef)
  (found0 found : bool) :
  In ti requests ->
  Request ti = Some (TokenRequest_Split t) ->
  Request transition = Some (TokenRequest_Split (Some r)) ->
  Split_OfCoin r = Some c ->
  scan_staged requests transition found0 = Done found ->
  found = true.
Proof.
  intros Hin Hti Htr Hc. revert found0.
  induction requests as [|tj rest IH]; simpl; intros found0; [done|].
  destruct Hin as [->|Hin].
  - rewrite (staged_collides_split _ _ _ _ _ Hti Htr Hc). simpl.
    rewrite orb_true_r. apply scan_staged_found.
  - unfold mbind, outcome_bind.
    destruct (staged_collides tj transition); [|done]. by apply IH.
Qed.

End Staging.

(** C1.  The node has staged a split of the coin [coinX]; a split of the
    different coin [coinY] arrives.  The two requests do not share the
    coin address, and yet [handleTokenRequest] finds a collision and does
    not append the request: the staged list is as it was. *)
Theorem handleTokenRequest_split_other_coin_dropped :
  let staged := Scenario.split_of (Scenario.b "coinX") in
  let incoming := Scenario.split_of (Scenario.b "coinY") in
  Scenario.b "coinY" <> Scenario.b "coinX"
  /\ staged_collides staged incoming = Done true
  /\ exists w',
       handleTokenRequest incoming (Scenario.staging [staged])
       = Done (None, w')
       /\ staged_requests (engine w') = [staged].
Proof.
  simpl. split; [discriminate|]. split; [reflexivity|].
  eexists. split; [vm_compute; reflexivity|reflexivity].
Qed.

(** The sibling case: a transfer of another coin is appended. *)
Example handleTokenRequest_transfer_other_coin_staged :
  let staged := Scenario.transfer_of (Scenario.b "coinX") in
  let incoming := Scenario.transfer_of (Scenario.b "coinY") in
  exists w',
    handleTokenRequest incoming (Scenario.staging [staged]) = Done (None, w')
    /\ staged_requests (engine w') = [staged; incoming].
Proof. simpl. eexists. split; [vm_compute; reflexivity|reflexivity]. Qed.

(** Two merges that share a coin collide. *)
Example handleTokenRequest_merge_overlap_dropped :
  let staged := Scenario.merge_of [Scenario.b "coinA"; Scenario.b "coinB"] in
  let incoming :=
    Scenario.merge_of [Scenario.b "coinB"; Scenario.b "coinC"] in
  exists w',
    handleTokenRequest incoming (Scenario.staging [staged]) = Done (None, w')
    /\ staged_requests (engine w') = [staged].
Proof. simpl. eexists. split; [vm_compute; reflexivity|reflexivity]. Qed.

(** A mint with two proofs or more is staged whatever is staged. *)
Example handleTokenRequest_mint_two_proofs_staged :
  let staged := Scenario.mint_of [Scenario.b "p"] in
  let incoming := Scenario.mint_of [Scenario.b "p"; Scenario.b "q"] in
  exists w',
    handleTokenRequest incoming (Scenario.staging [staged]) = Done (None, w')
    /\ staged_requests (engine w') = [staged; incoming].
Proof. simpl. eexists. split; [vm_compute; reflexivity|reflexivity]. Qed.

(** A request whose pointers are nil makes the handler panic. *)
Example handleTokenRequest_nil_coin_panics :
  let staged := Scenario.transfer_of (Scenario.b "coinX") in
  let incoming :=
    {| Request := Some (TokenRequest_Transfer
         (Some {| Transfer_OfCoin := None |}));
       Nonce := [] |} in
  handleTokenRequest incoming (Scenario.staging [staged])
  = Panic "invalid memory address or nil pointer dereference".
Proof. reflexivity. Qed.

(** A transfer of the same coin is not. *)
Example handleTokenRequest_transfer_same_coin_dropped :
  let staged := Scenario.transfer_of (Scenario.b "coinX") in
  exists w',
    handleTokenRequest staged (Scenario.staging [staged]) = Done (None, w')
    /\ staged_requests (engine w') = [staged].
Proof. simpl. eexists. split; [vm_compute; reflexivity|reflexivity]. Qed.

Section Announcements.

Context (pk : Packages).

Lemma string_of_bytes_inj (a b : bytes) :
  string_of_bytes a = string_of_bytes b -> a = b.
Proof.
  unfold string_of_bytes. intros H.
  rewrite <- (list_byte_of_string_of_list_byte a),
          <- (list_byte_of_string_of_list_byte b). by rewrite H.
Qed.

Lemma same_but_peerMap_refl (e : DataClockConsensusEngine) :
  same_but_peerMap e e.
Proof. by destruct e. Qed.

Lemma same_but_peerMap_trans (e1 e2 e3 : DataClockConsensusEngine) :
  same_but_peerMap e1 e2 -> same_but_peerMap e2 e3 -> same_but_peerMap e1 e3.
Proof.
  unfold same_but_peerMap. intros H12 H23. rewrite H23 at 1.
  rewrite H12 at 1. by destruct e1.
Qed.

Lemma same_but_peerMap_set (e : DataClockConsensusEngine)
  (f : gmap string peerInfo -> gmap string peerInfo) :
  same_but_peerMap e (set_peerMap f e).
Proof. reflexivity. Qed.

Lemma same_but_peerMap_fields (e e' : DataClockConsensusEngine) :
  same_but_peerMap e e' ->
  pubSub e' = pubSub e
  /\ uncooperativePeersMap e' = uncooperativePeersMap e
  /\ frameProverTries e' = frameProverTries e
  /\ provingKeyAddress e' = provingKeyAddress e
  /\ syncingStatus e' = syncingStatus e
  /\ stagedTransactions e' = stagedTransactions e.
Proof. intros ->. by destruct e. Qed.

Lemma emitted_nil (w : World) : emitted w [] = w.
Proof. unfold emitted. rewrite app_nil_r. by destruct w. Qed.

Lemma emitted_emitted (w : World) (evs evs' : list Event) :
  emitted (emitted w evs) evs' = emitted w (evs ++ evs').
Proof. unfold emitted; simpl. by rewrite app_assoc. Qed.

Lemma emit_emitted (ev : Event) (w : World) :
  emit ev w = Done (tt, emitted w [ev]).
Proof. reflexivity. Qed.

Lemma calls_since_emitted (w : World) (evs : list Event) :
  calls_since w (emitted w evs) = evs.
Proof. unfold calls_since; simpl. by rewrite drop_app_length. Qed.

Lemma record_step_refl (p : DataPeer) (w : World) : record_step p w w.
Proof.
  split; [apply same_but_peerMap_refl|]. split; [done|].
  exists []. by rewrite app_nil_r.
Qed.

Lemma record_step_emitted (p : DataPeer) (w : World) (evs : list Event) :
  Forall (record_event p) evs -> record_step p w (emitted w evs).
Proof.
  intros H. split; [apply same_but_peerMap_refl|]. split; [done|].
  by exists evs.
Qed.

Lemma record_step_trans (p : DataPeer) (w1 w2 w3 : World) :
  record_step p w1 w2 -> record_step p w2 w3 -> record_step p w1 w3.
Proof.
  intros (He & Hk & evs & Ht & Hev) (He' & Hk' & evs' & Ht' & Hev').
  split; [by eapply same_but_peerMap_trans|].
  split.
  - intros k Hne. rewrite Hk', Hk; done.
  - exists (evs ++ evs'). rewrite Ht', Ht, app_assoc. split; [done|].
    by apply Forall_app.
Qed.

(** The validation completes and only logs or scores the peer: the
    engine is as it was. *)
Lemma validate_peer_emits (p : DataPeer) (publicKey signature version : bytes)
  (w : World) :
  exists skipped evs,
    validate_peer pk p publicKey signature version w
    = Done (skipped, emitted w evs)
    /\ Forall (record_event p) evs.
Proof.
  unfold validate_peer. run_M.
  destruct (pcrypto_UnmarshalEd448PublicKey pk publicKey) as [key|err].
  - destruct (negb (peer_MatchesPublicKey pk (PeerId p) key)).
    + eexists _, [_]. split; [reflexivity|]. by repeat constructor.
    + destruct (pcrypto_Verify pk key _ signature) as [ok err].
      destruct (bool_decide (is_Some err) || negb ok).
      * eexists _, [_]. split; [reflexivity|]. by repeat constructor.
      * destruct (_ && _).
        -- eexists _, [_; _]. split.
           ++ unfold emitted; simpl. by rewrite <- app_assoc.
           ++ by repeat constructor.
        -- exists false, []. by rewrite emitted_nil.
  - eexists _, [_]. split; [reflexivity|]. by repeat constructor.
Qed.

(** The second half of the loop body completes within the footprint of
    the record. *)
Lemma update_peer_step (peerID : bytes) (p : DataPeer) (w : World) :
  exists w', update_peer pk peerID p w = Done (tt, w') /\ record_step p w w'.
Proof.
  unfold update_peer, time_Now_read. run_M.
  destruct (bool_decide (is_Some (uncooperativePeersMap _ !! _))).
  { eexists; split; [reflexivity|]. apply record_step_refl. }
  simpl.
  match goal with |- context [if ?c then _ else _] => destruct c end.
  - eexists; split; [reflexivity|].
    apply (record_step_emitted p w [SetPeerScore (PeerId p) 10]).
    by repeat constructor.
  - eexists; split; [reflexivity|]. simpl.
    split; [apply same_but_peerMap_set|]. split.
    + intros k Hne. simpl. by rewrite lookup_insert_ne.
    + exists [SetPeerScore (PeerId p) 10]. simpl. split; [done|].
      by repeat constructor.
Qed.

(** The loop body always completes, within the footprint of the record. *)
Lemma announce_record_step (peerID : bytes) (p : DataPeer) (w : World) :
  exists w',
    announce_record pk peerID p w = Done (tt, w') /\ record_step p w w'.
Proof.
  unfold announce_record. run_M.
  destruct (bytes_Equal (PeerId p) (GetPeerID _)).
  { eexists; split; [reflexivity|apply record_step_refl]. }
  destruct (negb (bytes_Equal (PeerId p) peerID)).
  { eexists; split; [reflexivity|apply record_step_refl]. }
  destruct (PublicKey p) as [publicKey|];
    [|eexists; split; [reflexivity|apply record_step_refl]].
  destruct (Signature p) as [signature|];
    [|eexists; split; [reflexivity|apply record_step_refl]].
  destruct (Version p) as [version|];
    [|eexists; split; [reflexivity|apply record_step_refl]].
  destruct (validate_peer_emits p publicKey signature version w)
    as (skipped & evs & -> & Hevs).
  destruct skipped.
  - eexists; split; [reflexivity|]. by apply record_step_emitted.
  - destruct (update_peer_step peerID p (emitted w evs)) as (w' & -> & Hw').
    eexists; split; [reflexivity|].
    eapply record_step_trans; [|exact Hw']. by apply record_step_emitted.
Qed.

Lemma for_range_invariant {A} (body : A -> M unit) (Inv : World -> Prop)
  (l : list A) (w : World) :
  Inv w ->
  (forall x w1, In x l -> Inv w1 ->
     exists w2, body x w1 = Done (tt, w2) /\ Inv w2) ->
  exists w', for_range body l w = Done (tt, w') /\ Inv w'.
Proof.
  revert w. induction l as [|x l IH]; intros w Hw Hstep; simpl.
  - by exists w.
  - destruct (Hstep x w (or_introl eq_refl) Hw) as (w2 & Hx & Hw2).
    unfold mbind, M_bind. rewrite Hx.
    apply IH; [done|]. intros y w1 Hy. apply Hstep. by right.
Qed.

Lemma peer_untouched_refl (id : bytes) (w : World) : peer_untouched id w w.
Proof. split; [done|]. exists []. by rewrite app_nil_r. Qed.

Lemma peer_untouched_trans (id : bytes) (w1 w2 w3 : World) :
  peer_untouched id w1 w2 -> peer_untouched id w2 w3 ->
  peer_untouched id w1 w3.
Proof.
  intros (Hk & evs & Ht & Hev) (Hk' & evs' & Ht' & Hev').
  split; [by rewrite Hk', Hk|].
  exists (evs ++ evs'). rewrite Ht', Ht, app_assoc. split; [done|].
  by apply Forall_app.
Qed.

Lemma peer_untouched_calls (id : bytes) (w w' : World) :
  peer_untouched id w w' ->
  Forall (fun ev => is_score_call_for id ev = false) (calls_since w w').
Proof.
  intros (_ & evs & Ht & Hev). unfold calls_since.
  by rewrite Ht, drop_app_length.
Qed.

(** A record about another peer leaves the peer [id] untouched. *)
Lemma record_step_other (id : bytes) (p : DataPeer) (w w' : World) :
  PeerId p <> id -> record_step p w w' -> peer_untouched id w w'.
Proof.
  intros Hne (_ & Hk & evs & Ht & Hev). split.
  - apply Hk. intros Heq%string_of_bytes_inj. congruence.
  - exists evs. split; [done|].
    eapply Forall_impl; [exact Hev|]. intros [] Hr; simpl in *; try done.
    apply bytes_Equal_neq. congruence.
Qed.

(** Calls that are logs only leave every peer untouched. *)
Lemma peer_untouched_logs (id : bytes) (w : World) (evs : list Event) :
  Forall (fun ev => is_score_call ev = false) evs ->
  peer_untouched id w (emitted w evs).
Proof.
  intros H. split; [done|]. exists evs. split; [done|].
  eapply Forall_impl; [exact H|]. by intros [].
Qed.

(** ** Records about another peer than the sender *)

Lemma announce_record_not_sender (peerID : bytes) (p : DataPeer) (w : World) :
  PeerId p <> peerID -> announce_record pk peerID p w = Done (tt, w).
Proof.
  intros Hne%bytes_Equal_neq. unfold announce_record. run_M.
  rewrite Hne. simpl. by destruct (bytes_Equal _ (GetPeerID _)).
Qed.

(** ** Records whose signature does not verify *)

Lemma announce_record_bad_signature (peerID : bytes) (p : DataPeer)
  (w : World) :
  ~ announcement_verifies pk p ->
  exists evs,
    announce_record pk peerID p w = Done (tt, emitted w evs)
    /\ Forall (fun ev => is_score_call ev = false) evs.
Proof.
  intros Hbad. unfold announce_record. run_M.
  destruct (bytes_Equal (PeerId p) (GetPeerID _)).
  { exists []. by rewrite emitted_nil. }
  destruct (negb (bytes_Equal (PeerId p) peerID)).
  { exists []. by rewrite emitted_nil. }
  destruct (PublicKey p) as [publicKey|] eqn:Hpub;
    [|exists []; by rewrite emitted_nil].
  destruct (Signature p) as [signature|] eqn:Hsig;
    [|exists []; by rewrite emitted_nil].
  destruct (Version p) as [version|] eqn:Hver;
    [|exists []; by rewrite emitted_nil].
  unfold validate_peer, announce_signing_message. run_M.
  destruct (pcrypto_UnmarshalEd448PublicKey pk publicKey) as [key|err] eqn:Hkey;
    [|eexists [_]; split; [reflexivity|by repeat constructor]].
  destruct (negb (peer_MatchesPublicKey pk (PeerId p) key)).
  { eexists [_]; split; [reflexivity|by repeat constructor]. }
  destruct (pcrypto_Verify pk key _ signature) as [ok err] eqn:Hverify.
  destruct ok, err as [err|]; simpl;
    try (eexists [_]; split; [reflexivity|by repeat constructor]).
  exfalso. apply Hbad. by exists publicKey, signature, version, key.
Qed.

Lemma for_range_app {A} (body : A -> M unit) (l1 l2 : list A) (w : World) :
  for_range body (l1 ++ l2) w
  = (for_range body l1;; for_range body l2) w.
Proof.
  revert w. induction l1 as [|x l1 IH]; intros w; simpl; [done|].
  unfold mbind, M_bind in *. destruct (body x w) as [[[] w1]|]; [|done].
  apply IH.
Qed.

(** C8.  A record of an announcement that names another peer than the
    sender is skipped entirely: the handler does what it does on the
    announcement without the record, so no change of the peer map and no
    score results from it. *)
Theorem handleDataPeerListAnnounce_skips_other_peer
  (w : World) (peerID address : bytes) (any : Any)
  (ann : DataPeerListAnnounce) (p : DataPeer) (before after : list DataPeer) :
  anypb_UnmarshalTo_DataPeerListAnnounce pk any = inl ann ->
  PeerList ann = before ++ p :: after ->
  PeerId p <> peerID ->
  announce_record pk peerID p w = Done (tt, w)
  /\ handleDataPeerListAnnounce pk peerID address any w
     = (for_range (announce_record pk peerID) (before ++ after);;
        mret None) w.
Proof.
  intros Hann Hlist Hne. split; [by apply announce_record_not_sender|].
  unfold handleDataPeerListAnnounce. rewrite Hann, Hlist.
  unfold mbind, M_bind. rewrite !for_range_app. unfold mbind, M_bind.
  destruct (for_range _ before w) as [[[] w1]|]; [|done].
  simpl. unfold mbind, M_bind.
  by rewrite announce_record_not_sender.
Qed.

(** An announcement leaves every peer other than its sender untouched. *)
Lemma handleDataPeerListAnnounce_others_untouched
  (w : World) (peerID address : bytes) (any : Any)
  (ann : DataPeerListAnnounce) (id : bytes) :
  anypb_UnmarshalTo_DataPeerListAnnounce pk any = inl ann ->
  id <> peerID ->
  exists w',
    handleDataPeerListAnnounce pk peerID address any w = Done (None, w')
    /\ peer_untouched id w w'.
Proof.
  intros Hann Hne. unfold handleDataPeerListAnnounce. rewrite Hann.
  destruct (for_range_invariant (announce_record pk peerID)
              (peer_untouched id w) (PeerList ann) w)
    as (w' & Hrun & Hinv).
  - apply peer_untouched_refl.
  - intros p w1 _ Hw1.
    destruct (announce_record_step peerID p w1) as (w2 & Hp & Hstep).
    exists w2. split; [done|].
    eapply peer_untouched_trans; [exact Hw1|].
    destruct (bytes_Equal (PeerId p) peerID) eqn:E.
    + apply bytes_Equal_eq in E. eapply record_step_other; [|done].
      congruence.
    + apply bytes_Equal_neq in E.
      rewrite (announce_record_not_sender _ _ _ E) in Hp.
      injection Hp as <-. apply peer_untouched_refl.
  - exists w'. unfold mbind, M_bind. by rewrite Hrun.
Qed.

(** C7.  When no record of an announcement about the peer [id] carries a
    signature that verifies over
    [BigEndian(max_frame) || version || BigEndian(timestamp)], the handler
    completes, the entry of the peer in the peer map is as it was, and no
    score of the peer is set (in particular it is not raised by 10). *)
Theorem handleDataPeerListAnnounce_bad_signature
  (w : World) (peerID address : bytes) (any : Any)
  (ann : DataPeerListAnnounce) (id : bytes) :
  anypb_UnmarshalTo_DataPeerListAnnounce pk any = inl ann ->
  (forall p, In p (PeerList ann) -> PeerId p = id ->
             ~ announcement_verifies pk p) ->
  exists w',
    handleDataPeerListAnnounce pk peerID address any w = Done (None, w')
    /\ peerMap (engine w') !! string_of_bytes id
       = peerMap (engine w) !! string_of_bytes id
    /\ Forall (fun ev => is_score_call_for id ev = false) (calls_since w w').
Proof.
  intros Hann Hbad. unfold handleDataPeerListAnnounce. rewrite Hann.
  destruct (for_range_invariant (announce_record pk peerID)
              (peer_untouched id w) (PeerList ann) w)
    as (w' & Hrun & Hinv).
  - apply peer_untouched_refl.
  - intros p w1 Hin Hw1.
    destruct (bytes_Equal (PeerId p) id) eqn:E.
    + apply bytes_Equal_eq in E.
      destruct (announce_record_bad_signature peerID p w1 (Hbad p Hin E))
        as (evs & Hp & Hevs).
      eexists. split; [exact Hp|].
      eapply peer_untouched_trans; [exact Hw1|].
      by apply peer_untouched_logs.
    + apply bytes_Equal_neq in E.
      destruct (announce_record_step peerID p w1) as (w2 & Hp & Hstep).
      exists w2. split; [done|].
      eapply peer_untouched_trans; [exact Hw1|].
      by eapply record_step_other.
  - exists w'. unfold mbind, M_bind. rewrite Hrun. simpl.
    split; [done|]. split; [apply Hinv|].
    by apply peer_untouched_calls.
Qed.

(** ** Records older than the entry the map holds *)







(** ** Records that pass the validation *)

Lemma update_peer_inserts (peerID : bytes) (p : DataPeer) (w : World) :
  uncooperativePeersMap (engine w) !! string_of_bytes (PeerId p) = None ->
  is_Some (PublicKey p) -> is_Some (Signature p) -> is_Some (Version p) ->
  (forall existing,
     peerMap (engine w) !! string_of_bytes (PeerId p) = Some existing ->
     timestamp existing <= Timestamp p) ->
  update_peer pk peerID p w
  = Done (tt,
      {| engine := set_peerMap
           (insert (string_of_bytes (PeerId p))
              (peerInfo_of (engine w) peerID p
                 (time_Now pk (time_reads w))))
           (engine w);
         heap := heap w; entropy := entropy w;
         time_reads := S (time_reads w);
         trace := trace w ++ [SetPeerScore (PeerId p) 10] |}).
Proof.
  intros Hcoop [publicKey Hpub] [signature Hsig] [version Hver] Hwin.
  unfold update_peer, time_Now_read. run_M. rewrite Hcoop. simpl.
  unfold peerInfo_of.
  destruct (peerMap (engine w) !! _) as [existing|] eqn:Hex; [|done].
  rewrite Hpub, Hsig, Hver.
  rewrite !(bool_decide_eq_false_2 (Some _ = None)) by done.
  rewrite !andb_false_r. simpl.
  assert ((timestamp existing >? Timestamp p) = false) as ->; [|done].
  specialize (Hwin existing eq_refl). rewrite Z.gtb_ltb. apply Z.ltb_ge. lia.
Qed.

Lemma validate_peer_validated (peerID : bytes) (p : DataPeer) (w : World)
  (publicKey signature version : bytes) :
  announcement_validated pk (engine w) peerID p ->
  PublicKey p = Some publicKey ->
  Signature p = Some signature ->
  Version p = Some version ->
  validate_peer pk p publicKey signature version w
  = if (bytes_Compare version (config_GetMinimumVersion pk) <? 0)
       && (Timestamp p >? config_GetMinimumVersionCutoff_UnixMilli pk)
    then Done (true, emitted w
           [Log DebugLevel
              "peer provided outdated version, penalizing app score";
            SetPeerScore (PeerId p) (-1000000)])
    else Done (false, w).
Proof.
  intros (_ & _ & pub & sig & ver & key & Hp & Hs & Hv & Hkey & Hm & Hok)
         Hpub Hsig Hver.
  assert (pub = publicKey) as -> by congruence.
  assert (sig = signature) as -> by congruence.
  assert (ver = version) as -> by congruence.
  unfold validate_peer, announce_signing_message. run_M.
  rewrite Hkey, Hm. simpl. simpl in Hok. rewrite Hok. simpl.
  destruct (_ && _); [|done].
  unfold emitted; simpl. by rewrite <- app_assoc.
Qed.

Lemma announce_record_validated (peerID : bytes) (p : DataPeer) (w : World)
  (version : bytes) :
  announcement_validated pk (engine w) peerID p ->
  Version p = Some version ->
  announce_record pk peerID p w
  = if (bytes_Compare version (config_GetMinimumVersion pk) <? 0)
       && (Timestamp p >? config_GetMinimumVersionCutoff_UnixMilli pk)
    then Done (tt, emitted w
           [Log DebugLevel
              "peer provided outdated version, penalizing app score";
            SetPeerScore (PeerId p) (-1000000)])
    else update_peer pk peerID p w.
Proof.
  intros Hval Hver.
  pose proof Hval as (Hself & Hsender & publicKey & signature & ver & key
                      & Hpub & Hsig & Hver' & _).
  assert (ver = version) as -> by congruence.
  unfold announce_record. run_M.
  apply bytes_Equal_neq in Hself. rewrite Hself.
  apply bytes_Equal_eq in Hsender. rewrite Hsender. simpl.
  rewrite Hpub, Hsig, Hver.
  rewrite (validate_peer_validated peerID p w publicKey signature version)
    by done.
  by destruct (_ && _).
Qed.

(** C6.  A record that passes the validation and whose version compares
    below the minimum version:
    - after the cutoff, the score of the peer is set to -1,000,000 and
      nothing else happens: the record is not entered in the peer map;
    - at or before the cutoff, the record goes on to the registration
      ([update_peer]), which enters it in the peer map unless the peer is
      uncooperative or the map holds a later entry. *)
Theorem announce_record_version_gate
  (w : World) (peerID : bytes) (p : DataPeer) (version : bytes) :
  announcement_validated pk (engine w) peerID p ->
  Version p = Some version ->
  bytes_Compare version (config_GetMinimumVersion pk) < 0 ->
  (config_GetMinimumVersionCutoff_UnixMilli pk < Timestamp p ->
     announce_record pk peerID p w
     = Done (tt, emitted w
         [Log DebugLevel
            "peer provided outdated version, penalizing app score";
          SetPeerScore (PeerId p) (-1000000)]))
  /\ (Timestamp p <= config_GetMinimumVersionCutoff_UnixMilli pk ->
        announce_record pk peerID p w = update_peer pk peerID p w
        /\ (uncooperativePeersMap (engine w) !! string_of_bytes (PeerId p)
            = None ->
            (forall existing,
               peerMap (engine w) !! string_of_bytes (PeerId p)
               = Some existing ->
               timestamp existing <= Timestamp p) ->
            exists w',
              announce_record pk peerID p w = Done (tt, w')
              /\ peerMap (engine w')
                 = <[string_of_bytes (PeerId p) :=
                       peerInfo_of (engine w) peerID p
                         (time_Now pk (time_reads w))]> (peerMap (engine w))
              /\ calls_since w w' = [SetPeerScore (PeerId p) 10])).
Proof.
  intros Hval Hver Hlow.
  rewrite (announce_record_validated peerID p w version) by done.
  apply Z.ltb_lt in Hlow. rewrite Hlow. simpl. split.
  - intros Hafter. apply Z.gtb_lt in Hafter. by rewrite Hafter.
  - intros Hbefore.
    assert ((Timestamp p >? config_GetMinimumVersionCutoff_UnixMilli pk)
            = false) as ->.
    { rewrite Z.gtb_ltb. apply Z.ltb_ge. lia. }
    split; [done|]. intros Hcoop Hwin.
    destruct Hval as (_ & _ & publicKey & signature & ver & key
                      & Hpub & Hsig & Hver' & _).
    rewrite update_peer_inserts; [|done|by eexists..|done].
    eexists. split; [reflexivity|]. simpl. split; [done|].
    unfold calls_since; simpl. by rewrite drop_app_length.
Qed.

End Announcements.



Lemma handleDataPeerListAnnounce_skips_other_peer_witness :
  let p := Scenario.record_of Scenario.P2 9 3000 Scenario.current in
  let pk := Scenario.packages (Scenario.announce_of [p]) in
  announce_record pk Scenario.P1 p Scenario.world0
  = Done (tt, Scenario.world0)
  /\ handleDataPeerListAnnounce pk Scenario.P1 []
       Scenario.announce_payload Scenario.world0
     = (for_range (announce_record pk Scenario.P1) ([] ++ []);; mret None)
         Scenario.world0.
Proof.
  simpl.
  apply (handleDataPeerListAnnounce_skips_other_peer
           (Scenario.packages (Scenario.announce_of
              [Scenario.record_of Scenario.P2 9 3000 Scenario.current]))
           Scenario.world0 Scenario.P1 [] Scenario.announce_payload
           (Scenario.announce_of
              [Scenario.record_of Scenario.P2 9 3000 Scenario.current])
           (Scenario.record_of Scenario.P2 9 3000 Scenario.current) [] []).
  - reflexivity.
  - reflexivity.
  - vm_compute. discriminate.
Defined.

Lemma handleDataPeerListAnnounce_bad_signature_witness :
  let p := Scenario.forged_record Scenario.P1 9 3000 Scenario.current in
  let pk := Scenario.packages (Scenario.announce_of [p]) in
  exists w',
    handleDataPeerListAnnounce pk Scenario.P1 [] Scenario.announce_payload
      Scenario.world0
    = Done (None, w')
    /\ peerMap (engine w') !! string_of_bytes Scenario.P1
       = peerMap (engine Scenario.world0) !! string_of_bytes Scenario.P1
    /\ Forall (fun ev => is_score_call_for Scenario.P1 ev = false)
         (calls_since Scenario.world0 w').
Proof.
  simpl.
  apply (handleDataPeerListAnnounce_bad_signature
           (Scenario.packages (Scenario.announce_of
              [Scenario.forged_record Scenario.P1 9 3000 Scenario.current]))
           Scenario.world0 Scenario.P1 [] Scenario.announce_payload
           (Scenario.announce_of
              [Scenario.forged_record Scenario.P1 9 3000 Scenario.current])
           Scenario.P1).
  - reflexivity.
  - intros p [<-|[]] _ (pub & sig & ver & key & Hpub & Hsig & Hver & Hkey & Hok).
    vm_compute in Hpub, Hsig, Hver. 
    injection Hpub as <-. injection Hsig as <-. injection Hver as <-.
    vm_compute in Hkey. injection Hkey as <-.
    vm_compute in Hok. discriminate Hok.
Defined.

Lemma announce_record_version_gate_witness :
  let late := Scenario.record_of Scenario.P1 9 3000 Scenario.outdated in
  let early := Scenario.record_of Scenario.P1 9 900 Scenario.outdated in
  announce_record Scenario.pk0 Scenario.P1 late Scenario.world0
  = Done (tt, emitted Scenario.world0
      [Log DebugLevel "peer provided outdated version, penalizing app score";
       SetPeerScore Scenario.P1 (-1000000)])
  /\ exists w',
       announce_record Scenario.pk0 Scenario.P1 early Scenario.world0
       = Done (tt, w')
       /\ peerMap (engine w')
          = <[string_of_bytes Scenario.P1 :=
                peerInfo_of Scenario.engine0 Scenario.P1 early 5000000]> ∅
       /\ calls_since Scenario.world0 w' = [SetPeerScore Scenario.P1 10].
Proof.
  assert (forall ts, ts = 3000 \/ ts = 900 ->
    announcement_validated Scenario.pk0 Scenario.engine0 Scenario.P1
      (Scenario.record_of Scenario.P1 9 ts Scenario.outdated)) as Hval.
  { intros ts Hts. split; [vm_compute; discriminate|]. split; [reflexivity|].
    eexists _, _, _, _. repeat split; try reflexivity.
    destruct Hts as [->| ->]; vm_compute; reflexivity. }
  simpl. split.
  - apply (announce_record_version_gate Scenario.pk0 Scenario.world0
             Scenario.P1
             (Scenario.record_of Scenario.P1 9 3000 Scenario.outdated)
             Scenario.outdated (Hval 3000 (or_introl eq_refl)) eq_refl eq_refl).
    reflexivity.
  - apply (announce_record_version_gate Scenario.pk0 Scenario.world0
             Scenario.P1
             (Scenario.record_of Scenario.P1 9 900 Scenario.outdated)
             Scenario.outdated (Hval 900 (or_intror eq_refl)) eq_refl eq_refl).
    + vm_compute. discriminate.
    + reflexivity.
    + intros existing H. vm_compute in H. discriminate H.
Defined.

Section TxWorker.

Context (pk : Packages).

Lemma SyncStatus_eqb_eq (a b : SyncStatusType) :
  SyncStatus_eqb a b = true <-> a = b.
Proof.
  destruct a as [|m], b as [|n]; simpl; split; try done.
  - intros ->%Nat.eqb_eq. done.
  - intros [= ->]. apply Nat.eqb_refl.
Qed.

(** One turn of the worker with the gate closed: the message is decoded
    and logged, and nothing else happens. *)
Lemma txMessageHandler_turn_gated (message : pb_Message) (w : World)
  (trie : ProverTrie) (tries : list ProverTrie) :
  frameProverTries (engine w) = trie :: tries ->
  Contains trie (provingKeyAddress (engine w))
    && SyncStatus_eqb (syncingStatus (engine w)) SyncStatusNotSyncing
  = false ->
  exists evs,
    txMessageHandler_turn pk message w = Done (tt, emitted w evs)
    /\ Forall (fun ev => is_engine_call ev = false) evs.
Proof.
  intros Htries Hgate. unfold txMessageHandler_turn. run_M.
  destruct (proto_Unmarshal_Message pk (Data message)) as [msg|err].
  - simpl. rewrite Htries. simpl. rewrite Hgate. simpl.
    destruct (proto_Unmarshal_Any pk (Payload msg)).
    + exists [Log DebugLevel "handling tx message";
              Log DebugLevel "message type"].
      split; [|by repeat constructor].
      unfold emitted; simpl. by rewrite <- app_assoc.
    + exists [Log DebugLevel "handling tx message";
              Log ErrorLevel "error while unmarshaling"].
      split; [|by repeat constructor].
      unfold emitted; simpl. by rewrite <- app_assoc.
  - exists [Log DebugLevel "handling tx message";
            Log DebugLevel "bad message"].
    split; [|by repeat constructor].
    unfold emitted; simpl. by rewrite <- app_assoc.
Qed.

(** C10.  While the proving key of the node is not in the first prover
    trie, or the node is not in the state [SyncStatusNotSyncing], the
    worker of the tx queue hands no message to an execution engine: on
    every sequence of messages the queue delivers it completes without a
    call of [ProcessMessage], and the engine, with its staged requests, is
    as it was. *)
Theorem runTxMessageHandler_gate
  (w : World) (delivered : list pb_Message)
  (trie : ProverTrie) (tries : list ProverTrie) :
  frameProverTries (engine w) = trie :: tries ->
  Contains trie (provingKeyAddress (engine w)) = false
  \/ syncingStatus (engine w) <> SyncStatusNotSyncing ->
  exists w',
    runTxMessageHandler pk delivered w = Done (tt, w')
    /\ Forall (fun ev => is_engine_call ev = false) (calls_since w w')
    /\ engine w' = engine w
    /\ staged_requests (engine w') = staged_requests (engine w).
Proof.
  intros Htries Hclosed.
  assert (Contains trie (provingKeyAddress (engine w))
            && SyncStatus_eqb (syncingStatus (engine w)) SyncStatusNotSyncing
          = false) as Hgate.
  { destruct Hclosed as [->|Hsync]; [done|].
    apply andb_false_iff. right.
    destruct (SyncStatus_eqb _ _) eqn:E; [|done].
    by apply SyncStatus_eqb_eq in E. }
  unfold runTxMessageHandler.
  destruct (for_range_invariant (txMessageHandler_turn pk)
              (fun w1 => exists evs, w1 = emitted w evs
                 /\ Forall (fun ev => is_engine_call ev = false) evs)
              delivered w)
    as (w' & Hrun & evs & -> & Hevs).
  - exists []. by rewrite emitted_nil.
  - intros message w1 _ (evs & -> & Hevs).
    destruct (txMessageHandler_turn_gated message (emitted w evs) trie tries)
      as (evs' & Hturn & Hevs'); [done..|].
    eexists. split; [exact Hturn|].
    exists (evs ++ evs'). rewrite emitted_emitted. split; [done|].
    by apply Forall_app.
  - eexists. split; [exact Hrun|].
    by rewrite calls_since_emitted.
Qed.

End TxWorker.

Lemma runTxMessageHandler_gate_witness :
  let delivered :=
    [Scenario.wire_of (Scenario.transfer_of (Scenario.b "coinX"))] in
  exists w',
    runTxMessageHandler Scenario.pk0 delivered Scenario.syncing
    = Done (tt, w')
    /\ Forall (fun ev => is_engine_call ev = false)
         (calls_since Scenario.syncing w')
    /\ engine w' = engine Scenario.syncing
    /\ staged_requests (engine w') = staged_requests (engine Scenario.syncing).
Proof.
  simpl.
  apply (runTxMessageHandler_gate Scenario.pk0 Scenario.syncing
           [Scenario.wire_of (Scenario.transfer_of (Scenario.b "coinX"))]
           Scenario.trieA []).
  - reflexivity.
  - right. simpl. discriminate.
Defined.

(** With the gate open the same message reaches the engine, and the
    request it carries is staged. *)
Example runTxMessageHandler_open :
  let t := Scenario.transfer_of (Scenario.b "coinX") in
  exists w',
    runTxMessageHandler Scenario.pk0 [Scenario.wire_of t] Scenario.world0
    = Done (tt, w')
    /\ length (filter (fun ev => is_engine_call ev = true)
                 (calls_since Scenario.world0 w')) = 1%nat
    /\ staged_requests (engine w') = [t].
Proof.
  simpl. eexists. split; [vm_compute; reflexivity|].
  split; reflexivity.
Qed.

Section Publisher.

Context (pk : Packages).

(** [Add] hands every message that is not a token request back as it is. *)
Lemma Add_other (message : loc) (x : proto_Message) (w : World) :
  heap w !! message = Some x ->
  is_token_request x = false ->
  autononce.Add message w = Done (message, w).
Proof.
  intros Hx Hnot. unfold autononce.Add. run_M. rewrite Hx.
  by destruct x.
Qed.

(** Publishing a message that is not a token request completes; it makes
    at most one call, the publish whose result it returns. *)
Lemma publishMessage_other (filter : bytes) (message : loc)
  (x : proto_Message) (w : World) :
  heap w !! message = Some x ->
  is_token_request x = false ->
  exists r evs,
    publishMessage pk filter message w = Done (r, emitted w evs)
    /\ (evs = []
        \/ exists data,
             evs = [PublishToBitmaskCall filter data]
             /\ r = PublishToBitmask (pubSub (engine w)) filter data).
Proof.
  intros Hx Hnot. unfold publishMessage.
  unfold mbind at 1. unfold M_bind at 1.
  rewrite (Add_other message x w Hx Hnot).
  unfold load. run_M. rewrite Hx. simpl.
  destruct (anypb_MarshalFrom pk x) as [any|err];
    [|eexists _, []; rewrite emitted_nil; split; [reflexivity|by left]].
  destruct (proto_Marshal_Any pk _) as [payload|err];
    [|eexists _, []; rewrite emitted_nil; split; [reflexivity|by left]].
  destruct (poseidon_HashBytes pk payload) as [h|err];
    [|eexists _, []; rewrite emitted_nil; split; [reflexivity|by left]].
  destruct (proto_Marshal_Message pk _) as [data|err];
    [|eexists _, []; rewrite emitted_nil; split; [reflexivity|by left]].
  eexists _, [_]. split; [reflexivity|]. right. by eexists.
Qed.

(** [publishProof] never returns an error. *)
Lemma publishProof_never_fails (frame : loc) (w w' : World)
  (r : option error) :
  publishProof pk frame w = Done (r, w') -> r = None.
Proof.
  unfold publishProof, load, time_Now_read, alloc. run_M.
  destruct (heap w !! frame) as [[| f |]|]; simpl; try done.
  destruct (big_FillBytes _ _); simpl; [|done].
  destruct (publishMessage pk _ _ _) as [[[err|] w1]|]; simpl; try done.
  - destruct (publishMessage pk _ _ _) as [[r2 w2]|]; [|done]. congruence.
  - destruct (publishMessage pk _ _ _) as [[r2 w2]|]; [|done]. congruence.
Qed.

Lemma big_FillBytes_fits (x : Z) (n : nat) :
  (length (big_Bytes x) <= n)%nat ->
  big_FillBytes x (make_bytes n)
  = Done (repeat x00 (n - length (big_Bytes x)) ++ big_Bytes x).
Proof.
  intros Hfit. unfold big_FillBytes, make_bytes. rewrite repeat_length.
  assert ((n <? length (big_Bytes x))%nat = false) as ->; [|done].
  apply Nat.ltb_ge. lia.
Qed.

(** [publishProof] is its two publishes, run after the node has written
    its own entry. *)
Lemma publishProof_publishes (w : World) (frame : loc) (f : ClockFrame) :
  heap w !! frame = Some (MsgClockFrame f) ->
  (length (big_Bytes (GetTotalDistance (dataTimeReel (engine w)))) <= 256)%nat ->
  publishProof pk frame w
  = (r ← publishMessage pk (infoFilter (engine w)) (length (heap w));
     match r with
     | Some err => emit (Log DebugLevel "error publishing message")
     | None => mret tt
     end;;
     publishMessage pk (frameFilter (engine w)) frame;;
     mret None) (self_announced pk f w).
Proof.
  intros Hframe Hfit.
  unfold publishProof, load, time_Now_read, alloc.
  unfold mbind, mret, M_bind, M_ret, lift, gets, emit, modify_engine.
  cbn [heap engine entropy time_reads trace deref].
  rewrite Hframe. cbn [deref].
  rewrite (big_FillBytes_fits _ 256 Hfit).
  reflexivity.
Qed.

(** C3, as the code has it.  When the frame is in the store and the total
    distance fits 256 bytes, [publishProof] completes and returns nil,
    whatever the two publishes return: a failure of the publish on the
    info filter is logged at debug level and ignored, and the result of
    the publish on the frame filter is discarded. *)
Theorem publishProof_swallows_publish_failures
  (w : World) (frame : loc) (f : ClockFrame) :
  heap w !! frame = Some (MsgClockFrame f) ->
  (length (big_Bytes (GetTotalDistance (dataTimeReel (engine w)))) <= 256)%nat ->
  exists r1 w1 r2 w',
    publishMessage pk (infoFilter (engine w)) (length (heap w))
      (self_announced pk f w)
    = Done (r1, w1)
    /\ publishMessage pk (frameFilter (engine w)) frame
         (match r1 with
          | Some _ => emitted w1 [Log DebugLevel "error publishing message"]
          | None => w1
          end)
       = Done (r2, w')
    /\ publishProof pk frame w = Done (None, w').
Proof.
  intros Hframe Hfit.
  rewrite (publishProof_publishes w frame f Hframe Hfit).
  unfold mbind, M_bind.
  destruct (publishMessage_other (infoFilter (engine w)) (length (heap w))
              (MsgDataPeerListAnnounce
                 {| PeerList := [];
                    Peer := Some
                      {| PeerId := []; Multiaddr := "";
                         MaxFrame := FrameNumber f;
                         Version := config_GetVersion pk;
                         Timestamp := UnixMilli (time_Now pk (time_reads w));
                         TotalDistance :=
                           repeat x00
                             (256 - length (big_Bytes (GetTotalDistance
                                (dataTimeReel (engine w)))))
                           ++ big_Bytes (GetTotalDistance
                                (dataTimeReel (engine w)));
                         Signature := None; PublicKey := None |} |})
              (self_announced pk f w))
    as (r1 & evs1 & Hinfo & _);
    [cbn [heap self_announced]; by rewrite list_lookup_middle|done|].
  rewrite Hinfo. exists r1, (emitted (self_announced pk f w) evs1).
  set (w1 := match r1 with
             | Some _ => emitted (emitted (self_announced pk f w) evs1)
                           [Log DebugLevel "error publishing message"]
             | None => emitted (self_announced pk f w) evs1
             end).
  destruct (publishMessage_other (frameFilter (engine w)) frame
              (MsgClockFrame f) w1) as (r2 & evs2 & Hpub & _); [|done|].
  { subst w1. destruct r1; cbn [heap emitted self_announced];
      by apply lookup_app_l_Some. }
  exists r2, (emitted w1 evs2).
  split; [done|]. split; [exact Hpub|].
  destruct r1 as [err|]; cbn beta iota.
  - rewrite emit_emitted. fold w1. by rewrite Hpub.
  - unfold mret, M_ret. fold w1. by rewrite Hpub.
Qed.

End Publisher.

(** C3, as it is stated, fails: on a pubsub whose frame topic is down the
    publish of the frame returns an error, and [publishProof] returns
    nil. *)
Lemma publishProof_drops_frame_publish_error :
  let w := Scenario.publishing Scenario.frame_topic_down in
  exists w' data,
    publishProof Scenario.pk0 0%nat w = Done (None, w')
    /\ last (trace w')
       = Some (PublishToBitmaskCall (frameFilter (engine w)) data)
    /\ PublishToBitmask (pubSub (engine w)) (frameFilter (engine w)) data
       = Some "no peers subscribed".
Proof.
  simpl. eexists _, _. split; [vm_compute; reflexivity|].
  split; reflexivity.
Qed.

Lemma publishProof_swallows_publish_failures_witness :
  let w := Scenario.publishing Scenario.frame_topic_down in
  exists r1 w1 r2 w',
    publishMessage Scenario.pk0 (infoFilter (engine w)) (length (heap w))
      (self_announced Scenario.pk0 (Scenario.frame_of 6 Scenario.keyA) w)
    = Done (r1, w1)
    /\ publishMessage Scenario.pk0 (frameFilter (engine w)) 0%nat
         (match r1 with
          | Some _ => emitted w1 [Log DebugLevel "error publishing message"]
          | None => w1
          end)
       = Done (r2, w')
    /\ publishProof Scenario.pk0 0%nat w = Done (None, w').
Proof.
  apply (publishProof_swallows_publish_failures Scenario.pk0
           (Scenario.publishing Scenario.frame_topic_down) 0%nat
           (Scenario.frame_of 6 Scenario.keyA)).
  - reflexivity.
  - vm_compute. lia.
Defined.

(** ** Big integers as bytes *)

Lemma to_N_byte_of_Z (v : Z) : Byte.to_N (byte_of_Z v) = Z.to_N (v mod 256).
Proof.
  unfold byte_of_Z.
  destruct (Byte.of_N (Z.to_N (v mod 256))) as [c|] eqn:E.
  - by apply Byte.to_of_N.
  - apply Byte.of_N_None_iff in E.
    pose proof (Z.mod_pos_bound v 256 ltac:(lia)). lia.
Qed.

Lemma to_N_inj (c d : byte) : Byte.to_N c = Byte.to_N d -> c = d.
Proof.
  intros H. pose proof (Byte.of_to_N c) as Hc.
  rewrite H, Byte.of_to_N in Hc. congruence.
Qed.

Lemma le_value_digits (fuel : nat) (n : N) :
  (n < 2 ^ N.of_nat fuel)%N -> le_value (le_digits fuel n) = n.
Proof.
  revert n. induction fuel as [|fuel IH]; intros n Hn.
  - simpl in *. lia.
  - cbn [le_digits]. destruct (N.eqb_spec n 0) as [->|Hnz]; [done|].
    cbn [le_value]. rewrite to_N_byte_of_Z, IH.
    + rewrite <- (Z2N.id 256) at 1 by lia.
      change (Z.to_N 256) with 256%N.
      rewrite <- N2Z.inj_mod, N2Z.id.
      rewrite (N.div_mod n 256) at 3 by lia. lia.
    + rewrite Nat2N.inj_succ, N.pow_succ_r' in Hn.
      apply N.Div0.div_lt_upper_bound. lia.
Qed.

Lemma big_Bytes_inj (x y : Z) :
  0 <= x -> 0 <= y -> big_Bytes x = big_Bytes y -> x = y.
Proof.
  intros Hx Hy H. unfold big_Bytes in H.
  apply (f_equal (@rev byte)) in H. rewrite !rev_involutive in H.
  apply (f_equal le_value) in H.
  rewrite !le_value_digits in H
    by (rewrite N2Nat.id; apply N.size_gt).
  lia.
Qed.

Section Nonce.

Context (pk : Packages).

(** [Add] on a token request: the request is copied into a new object,
    the nonce is written into the copy, and the copy is returned. *)
Lemma Add_token_request (message : loc) (t : TokenRequest) (w : World) :
  heap w !! message = Some (MsgTokenRequest t) ->
  (32 <= length (entropy w))%nat ->
  autononce.Add message w = Done (length (heap w), nonce_added t w).
Proof.
  intros Ht Hrand.
  unfold autononce.Add, autononce.clone, autononce.AddTokenRequest,
    load, alloc, store, set_heap, rand_Read.
  unfold mbind, mret, M_bind, M_ret, lift, gets, panic.
  cbn -[make_bytes take drop]. rewrite Ht.
  cbn -[make_bytes take drop]. rewrite Ht.
  cbn -[make_bytes take drop]. rewrite list_lookup_middle by done.
  cbn -[make_bytes take drop].
  rewrite !length_app. cbn [length].
  destruct (decide (length (heap w) < length (heap w) + 1)%nat); [|lia].
  cbn -[make_bytes take drop].
  assert ((length (entropy w) <=? 31)%nat = false) as ->
    by (apply Nat.leb_gt; lia).
  cbn -[make_bytes take drop].
  rewrite !length_insert, !length_app. cbn [length].
  destruct (decide (length (heap w) < length (heap w) + 1)%nat); [|lia].
  unfold nonce_added, with_nonce. do 2 f_equal. f_equal.
  rewrite list_insert_insert_eq.
  rewrite <- (Nat.add_0_r (length (heap w))) at 1.
  by rewrite insert_app_r.
Qed.

(** Publishing a token request: the envelope is built around the copy
    that carries the nonce, and published. *)
Lemma publishMessage_token_request (filter : bytes) (message : loc)
  (t : TokenRequest) (w : World) (msg : Message) (data : bytes) :
  heap w !! message = Some (MsgTokenRequest t) ->
  (32 <= length (entropy w))%nat ->
  envelope_of pk (provingKeyAddress (engine w))
    (MsgTokenRequest (with_nonce t (take 32 (entropy w)))) = inl msg ->
  proto_Marshal_Message pk msg = inl data ->
  publishMessage pk filter message w
  = Done (PublishToBitmask (pubSub (engine w)) filter data,
          emitted (nonce_added t w) [PublishToBitmaskCall filter data]).
Proof.
  intros Ht Hrand Henv Hdata. unfold publishMessage.
  unfold mbind at 1. unfold M_bind at 1.
  rewrite (Add_token_request message t w Ht Hrand).
  unfold load. unfold mbind, mret, M_bind, M_ret, lift, gets, emit.
  cbn [heap nonce_added]. rewrite list_lookup_middle by done.
  cbn [deref]. unfold envelope_of in Henv.
  destruct (anypb_MarshalFrom pk _) as [any|]; [|done].
  destruct (proto_Marshal_Any pk _) as [payload|]; [|done].
  destruct (poseidon_HashBytes pk payload) as [h|]; [|done].
  injection Henv as <-. cbn [engine nonce_added]. by rewrite Hdata.
Qed.

Lemma envelope_of_hash (address : bytes) (x : proto_Message)
  (msg : Message) :
  envelope_of pk address x = inl msg ->
  exists h, poseidon_HashBytes pk (Payload msg) = inl h
            /\ Hash msg = big_Bytes h.
Proof.
  unfold envelope_of.
  destruct (anypb_MarshalFrom pk x) as [any|]; [|done].
  destruct (proto_Marshal_Any pk _) as [payload|]; [|done].
  destruct (poseidon_HashBytes pk payload) as [h|] eqn:Hh; [|done].
  intros [= <-]. by exists h.
Qed.

(** When the wire format of a token request determines its nonce and the
    marshaling of [Any] is injective, the payload of the envelope
    determines the nonce. *)
Lemma envelope_of_payload_nonce (address : bytes) (ta tb : TokenRequest)
  (ma mb : Message) :
  (forall t1 t2 a1 a2,
     anypb_MarshalFrom pk (MsgTokenRequest t1) = inl a1 ->
     anypb_MarshalFrom pk (MsgTokenRequest t2) = inl a2 ->
     Value a1 = Value a2 -> Nonce t1 = Nonce t2) ->
  (forall a1 a2 x,
     proto_Marshal_Any pk a1 = inl x -> proto_Marshal_Any pk a2 = inl x ->
     a1 = a2) ->
  envelope_of pk address (MsgTokenRequest ta) = inl ma ->
  envelope_of pk address (MsgTokenRequest tb) = inl mb ->
  Payload ma = Payload mb ->
  Nonce ta = Nonce tb.
Proof.
  intros Hwire Hany Ha Hb Hpayload. unfold envelope_of in Ha, Hb.
  destruct (anypb_MarshalFrom pk (MsgTokenRequest ta)) as [a1|] eqn:Ea;
    [|done].
  destruct (anypb_MarshalFrom pk (MsgTokenRequest tb)) as [a2|] eqn:Eb;
    [|done].
  destruct (proto_Marshal_Any pk _) as [p1|] eqn:E1 in Ha; [|done].
  destruct (proto_Marshal_Any pk _) as [p2|] eqn:E2 in Hb; [|done].
  destruct (poseidon_HashBytes pk p1); [|done].
  destruct (poseidon_HashBytes pk p2); [|done].
  injection Ha as <-. injection Hb as <-. simpl in Hpayload. subst p2.
  pose proof (Hany _ _ _ E1 E2) as Heq.
  apply (Hwire ta tb a1 a2 Ea Eb). by injection Heq.
Qed.

(** C9.  [publishMessage] gives a token request a nonce of 32 bytes from
    [crypto/rand], in a copy: the object of the caller is not written.
    Two calls on the same token request draw the nonces [n1] and [n2];
    when they differ, the two envelopes that are published differ in
    their payloads and in their hashes.  A message that is not a token
    request goes through [Add] as it is.

    The wire format is taken to determine the nonce of a token request and
    to marshal [Any] injectively (both hold of a format that can be
    decoded), and Poseidon to return non-negative values that do not
    collide on the two payloads. *)
Theorem publishMessage_fresh_nonce
  (w : World) (filter : bytes) (message : loc) (t : TokenRequest)
  (n1 n2 : bytes) (msg1 msg2 : Message) (data1 data2 : bytes) :
  heap w !! message = Some (MsgTokenRequest t) ->
  (64 <= length (entropy w))%nat ->
  n1 = take 32 (entropy w) ->
  n2 = take 32 (drop 32 (entropy w)) ->
  n1 <> n2 ->
  (forall t1 t2 a1 a2,
     anypb_MarshalFrom pk (MsgTokenRequest t1) = inl a1 ->
     anypb_MarshalFrom pk (MsgTokenRequest t2) = inl a2 ->
     Value a1 = Value a2 -> Nonce t1 = Nonce t2) ->
  (forall a1 a2 x,
     proto_Marshal_Any pk a1 = inl x -> proto_Marshal_Any pk a2 = inl x ->
     a1 = a2) ->
  envelope_of pk (provingKeyAddress (engine w))
    (MsgTokenRequest (with_nonce t n1)) = inl msg1 ->
  envelope_of pk (provingKeyAddress (engine w))
    (MsgTokenRequest (with_nonce t n2)) = inl msg2 ->
  proto_Marshal_Message pk msg1 = inl data1 ->
  proto_Marshal_Message pk msg2 = inl data2 ->
  (forall h1 h2,
     poseidon_HashBytes pk (Payload msg1) = inl h1 ->
     poseidon_HashBytes pk (Payload msg2) = inl h2 ->
     0 <= h1 /\ 0 <= h2 /\ (h1 = h2 -> Payload msg1 = Payload msg2)) ->
  (length n1 = 32%nat /\ length n2 = 32%nat)
  /\ (exists w1 w2,
        publishMessage pk filter message w
        = Done (PublishToBitmask (pubSub (engine w)) filter data1, w1)
        /\ publishMessage pk filter message w1
           = Done (PublishToBitmask (pubSub (engine w)) filter data2, w2)
        /\ calls_since w w1 = [PublishToBitmaskCall filter data1]
        /\ calls_since w1 w2 = [PublishToBitmaskCall filter data2]
        /\ heap w2 = heap w ++ [MsgTokenRequest (with_nonce t n1);
                                MsgTokenRequest (with_nonce t n2)]
        /\ heap w2 !! message = Some (MsgTokenRequest t))
  /\ Payload msg1 <> Payload msg2
  /\ Hash msg1 <> Hash msg2
  /\ (forall w0 m x,
        heap w0 !! m = Some x -> is_token_request x = false ->
        autononce.Add m w0 = Done (m, w0)).
Proof.
  intros Ht Hrand -> -> Hfresh Hwire Hany Henv1 Henv2 Hdata1 Hdata2 Hhash.
  assert (Payload msg1 <> Payload msg2) as Hpayload.
  { intros Heq. apply Hfresh.
    apply (envelope_of_payload_nonce _ _ _ _ _ Hwire Hany Henv1 Henv2 Heq). }
  split; [|split; [|split; [done|split]]].
  - rewrite !length_take, length_drop. lia.
  - set (w1 := emitted (nonce_added t w) [PublishToBitmaskCall filter data1]).
    assert (heap w1 !! message = Some (MsgTokenRequest t)) as Ht1.
    { cbn [w1 emitted heap nonce_added]. by apply lookup_app_l_Some. }
    assert (32 <= length (entropy w1))%nat as Hrand1.
    { cbn [w1 emitted entropy nonce_added]. rewrite length_drop. lia. }
    exists w1, (emitted (nonce_added t w1)
                  [PublishToBitmaskCall filter data2]).
    split; [apply (publishMessage_token_request filter message t w msg1);
              [done|lia|done..]|].
    split; [by apply (publishMessage_token_request filter message t w1 msg2)|].
    split; [unfold calls_since; cbn; by rewrite drop_app_length|].
    split; [unfold calls_since; cbn; by rewrite drop_app_length|].
    split; [cbn; by rewrite <- app_assoc|].
    cbn. rewrite <- app_assoc. by apply lookup_app_l_Some.
  - destruct (envelope_of_hash _ _ _ Henv1) as (h1 & Hh1 & ->).
    destruct (envelope_of_hash _ _ _ Henv2) as (h2 & Hh2 & ->).
    destruct (Hhash h1 h2 Hh1 Hh2) as (Hp1 & Hp2 & Hcoll).
    intros Heq. apply Hpayload, Hcoll. by apply big_Bytes_inj.
  - intros w0 m x. apply Add_other.
Qed.

End Nonce.

(** ** The stand-ins of the scenario meet the assumptions *)

Lemma Scenario_hash_snoc (x : bytes) (c : byte) :
  Scenario.hash (x ++ [c])
  = Scenario.hash x * 256 + Z.of_N (Byte.to_N c).
Proof. unfold Scenario.hash. by rewrite fold_left_app. Qed.

Lemma Scenario_hash_pos (x : bytes) : 1 <= Scenario.hash x.
Proof.
  induction x as [|c x IH] using rev_ind; [done|].
  rewrite Scenario_hash_snoc. lia.
Qed.

Lemma Scenario_hash_inj (x y : bytes) :
  Scenario.hash x = Scenario.hash y -> x = y.
Proof.
  revert y. induction x as [|c x IH] using rev_ind; intros y.
  - destruct y as [|d y _] using rev_ind; [done|].
    rewrite Scenario_hash_snoc. pose proof (Scenario_hash_pos y).
    change (Scenario.hash []) with 1. lia.
  - destruct y as [|d y _] using rev_ind.
    + rewrite Scenario_hash_snoc. pose proof (Scenario_hash_pos x).
      change (Scenario.hash []) with 1. lia.
    + rewrite !Scenario_hash_snoc. intros H.
      pose proof (Byte.to_N_bounded c). pose proof (Byte.to_N_bounded d).
      assert (Scenario.hash x = Scenario.hash y) as Hxy by lia.
      assert (Byte.to_N c = Byte.to_N d) as Hcd by lia.
      by rewrite (IH y Hxy), (to_N_inj c d Hcd).
Qed.

Lemma Scenario_framed_inj (x y r s : bytes) :
  (length x < 256)%nat -> (length y < 256)%nat ->
  Scenario.framed x ++ r = Scenario.framed y ++ s -> x = y /\ r = s.
Proof.
  intros Hx Hy. unfold Scenario.framed. cbn [app]. intros [= Hlen Happ].
  apply (f_equal Byte.to_N) in Hlen. rewrite !to_N_byte_of_Z in Hlen.
  rewrite !Z.mod_small in Hlen by lia.
  apply app_inj_1; [lia|done].
Qed.

Lemma Scenario_wire_nonce (ann : DataPeerListAnnounce)
  (t1 t2 : TokenRequest) (a1 a2 : Any) :
  anypb_MarshalFrom (Scenario.packages ann) (MsgTokenRequest t1) = inl a1 ->
  anypb_MarshalFrom (Scenario.packages ann) (MsgTokenRequest t2) = inl a2 ->
  Value a1 = Value a2 -> Nonce t1 = Nonce t2.
Proof.
  cbn [anypb_MarshalFrom Scenario.packages Scenario.marshal_from].
  destruct (length (Nonce t1) <? 256)%nat eqn:H1; [|done].
  destruct (length (Nonce t2) <? 256)%nat eqn:H2; [|done].
  intros [= <-] [= <-]. cbn [Value]. unfold Scenario.marshal_token_request.
  intros H. apply Nat.ltb_lt in H1, H2.
  by destruct (Scenario_framed_inj _ _ _ _ H1 H2 H).
Qed.

Lemma Scenario_marshal_any_inj (ann : DataPeerListAnnounce)
  (a1 a2 : Any) (x : bytes) :
  proto_Marshal_Any (Scenario.packages ann) a1 = inl x ->
  proto_Marshal_Any (Scenario.packages ann) a2 = inl x ->
  a1 = a2.
Proof.
  cbn [proto_Marshal_Any Scenario.packages]. unfold Scenario.marshal_any.
  destruct (length (list_byte_of_string (TypeUrl a1)) <? 256)%nat eqn:H1;
    [|done].
  destruct (length (list_byte_of_string (TypeUrl a2)) <? 256)%nat eqn:H2;
    [|done].
  intros [= <-] H. apply Nat.ltb_lt in H1, H2.
  apply (f_equal (fun s : bytes + error =>
                    match s with inl v => v | inr _ => [] end)) in H.
  cbn beta iota in H.
  destruct (Scenario_framed_inj _ _ _ _ H2 H1 H) as [Hurl Hvalue].
  apply (f_equal string_of_list_byte) in Hurl.
  rewrite !string_of_list_byte_of_string in Hurl.
  destruct a1, a2; simpl in *; congruence.
Qed.

Lemma publishMessage_fresh_nonce_witness :
  let t := Scenario.transfer_of (Scenario.b "coinX") in
  let w := Scenario.requesting t (repeat x01 32 ++ repeat x02 32) in
  let filter := Scenario.b "tx" in
  exists msg1 msg2 data1 data2,
    (length (repeat x01 32) = 32%nat /\ length (repeat x02 32) = 32%nat)
    /\ (exists w1 w2,
          publishMessage Scenario.pk0 filter 0%nat w
          = Done (PublishToBitmask (pubSub (engine w)) filter data1, w1)
          /\ publishMessage Scenario.pk0 filter 0%nat w1
             = Done (PublishToBitmask (pubSub (engine w)) filter data2, w2)
          /\ calls_since w w1 = [PublishToBitmaskCall filter data1]
          /\ calls_since w1 w2 = [PublishToBitmaskCall filter data2]
          /\ heap w2
             = heap w ++ [MsgTokenRequest (with_nonce t (repeat x01 32));
                          MsgTokenRequest (with_nonce t (repeat x02 32))]
          /\ heap w2 !! 0%nat = Some (MsgTokenRequest t))
    /\ Payload msg1 <> Payload msg2
    /\ Hash msg1 <> Hash msg2
    /\ (forall w0 m x,
          heap w0 !! m = Some x -> is_token_request x = false ->
          autononce.Add m w0 = Done (m, w0)).
Proof.
  intros t w filter. eexists _, _, _, _.
  eapply (publishMessage_fresh_nonce Scenario.pk0 w filter 0%nat t
            (repeat x01 32) (repeat x02 32)).
  - reflexivity.
  - vm_compute. lia.
  - reflexivity.
  - reflexivity.
  - vm_compute. discriminate.
  - apply Scenario_wire_nonce.
  - apply Scenario_marshal_any_inj.
  - vm_compute. reflexivity.
  - vm_compute. reflexivity.
  - vm_compute. reflexivity.
  - vm_compute. reflexivity.
  - cbn [Payload poseidon_HashBytes Scenario.pk0 Scenario.packages].
    intros h1 h2 [= <-] [= <-].
    split; [apply Z.le_trans with 1; [lia|apply Scenario_hash_pos]|].
    split; [apply Z.le_trans with 1; [lia|apply Scenario_hash_pos]|].
    apply Scenario_hash_inj.
Defined.

(* ===================================================================== *)
(** * Further properties *)
(* ===================================================================== *)

(** ** Staging *)

Lemma range_until_pure {A} (f : A -> bool) (l : list A) :
  range_until (fun x => Done (f x)) l = Done (existsb f l).
Proof.
  induction l as [|x l IH]; [done|]. simpl.
  destruct (f x); [done|]. by rewrite IH.
Qed.

Lemma scan_staged_existsb (c : TokenRequest -> bool)
  (requests : list TokenRequest) (transition : TokenRequest) (found : bool) :
  (forall ti, In ti requests -> staged_collides ti transition = Done (c ti)) ->
  scan_staged requests transition found
  = Done (found || existsb c requests).
Proof.
  revert found. induction requests as [|ti rest IH]; intros found Hc; simpl.
  - by rewrite orb_false_r.
  - rewrite (Hc ti (or_introl eq_refl)). simpl.
    rewrite IH by (intros tj Hj; apply Hc; by right).
    by rewrite orb_assoc.
Qed.

Lemma same_but_staged_refl (e : DataClockConsensusEngine) :
  same_but_staged e e.
Proof. by destruct e. Qed.

(** The handler on a node that is a prover: the staged requests are
    scanned, and the request is appended when the scan finds nothing. *)
Lemma handleTokenRequest_prover (transition : TokenRequest) (w : World)
  (trie : ProverTrie) (tries : list ProverTrie) (found : bool) :
  frameProverTries (engine w) = trie :: tries ->
  Contains trie (provingKeyAddress (engine w)) = true ->
  scan_staged (staged_requests (engine w)) transition false = Done found ->
  handleTokenRequest transition w
  = Done (None,
          staged_as (if found then staged_requests (engine w)
                     else staged_requests (engine w) ++ [transition]) w).
Proof.
  intros Htries Hin Hscan. unfold handleTokenRequest. run_M.
  rewrite Htries. simpl. rewrite Hin. unfold staged_requests in *.
  destruct (stagedTransactions (engine w)) as [[requests]|]; simpl in *.
  - rewrite Hscan. by destruct found.
  - by injection Hscan as <-.
Qed.

Lemma handleTokenRequest_not_prover (transition : TokenRequest) (w : World)
  (trie : ProverTrie) (tries : list ProverTrie) :
  frameProverTries (engine w) = trie :: tries ->
  Contains trie (provingKeyAddress (engine w)) = false ->
  handleTokenRequest transition w = Done (None, w).
Proof.
  intros Htries Hout. unfold handleTokenRequest. run_M.
  rewrite Htries. simpl. by rewrite Hout.
Qed.

Lemma handleTokenRequest_effect
  (transition : TokenRequest) (w w' : World) (r : option error) :
  handleTokenRequest transition w = Done (r, w') ->
  r = None
  /\ same_but_staged (engine w) (engine w')
  /\ heap w' = heap w /\ entropy w' = entropy w /\ trace w' = trace w
  /\ (staged_requests (engine w') = staged_requests (engine w)
      \/ (staged_requests (engine w')
          = staged_requests (engine w) ++ [transition]
          /\ exists trie tries,
               frameProverTries (engine w) = trie :: tries
               /\ Contains trie (provingKeyAddress (engine w)) = true)).
Proof.
  destruct (frameProverTries (engine w)) as [|trie tries] eqn:Htries.
  { unfold handleTokenRequest. run_M. by rewrite Htries. }
  destruct (Contains trie (provingKeyAddress (engine w))) eqn:Hin.
  - destruct (scan_staged (staged_requests (engine w)) transition false)
      as [found|reason] eqn:Hscan.
    + rewrite (handleTokenRequest_prover _ _ _ _ _ Htries Hin Hscan).
      intros [= <- <-]. repeat split; try done.
      destruct found; simpl; [by left|right]. split; [done|].
      by exists trie, tries.
    + unfold handleTokenRequest. run_M. rewrite Htries. simpl.
      rewrite Hin. unfold staged_requests in Hscan.
      destruct (stagedTransactions (engine w)) as [[requests]|];
        simpl in *; [by rewrite Hscan|done].
  - rewrite (handleTokenRequest_not_prover _ _ _ _ Htries Hin).
    intros [= <- <-]. repeat split; try done; [|by left].
    apply same_but_staged_refl.
Qed.

(** X1.  Staging is append-only.  When [handleTokenRequest] completes it
    returns nil and makes no call; the store and the entropy are as they
    were, the engine differs in the staged requests at most, and the
    staged list is the list of before, or the list of before with the
    request at its end.  The list changes only on a node whose proving
    key is in the first prover trie. *)
Theorem handleTokenRequest_append_only
  (transition : TokenRequest) (w w' : World) (r : option error) :
  handleTokenRequest transition w = Done (r, w') ->
  r = None
  /\ same_but_staged (engine w) (engine w')
  /\ heap w' = heap w /\ entropy w' = entropy w /\ trace w' = trace w
  /\ (staged_requests (engine w') = staged_requests (engine w)
      \/ (staged_requests (engine w')
          = staged_requests (engine w) ++ [transition]
          /\ exists trie tries,
               frameProverTries (engine w) = trie :: tries
               /\ Contains trie (provingKeyAddress (engine w)) = true)).
Proof. exact (handleTokenRequest_effect transition w w' r). Qed.

(** Requests of different kinds do not collide, whatever their fields. *)
Lemma staged_collides_other_kind (ti transition : TokenRequest) :
  (forall k, kind_of ti = Some k -> kind_of transition <> Some k) ->
  staged_collides ti transition = Done false.
Proof.
  unfold kind_of, staged_collides. intros H.
  destruct (Request ti) as [[]|]; try done;
    destruct (Request transition) as [[]|]; try done;
    exfalso; by eapply H.
Qed.

(** X2.  On a prover, a request is staged whenever no staged request is
    of its kind: requests of different kinds never collide, and no field
    of either request is read.  In particular the first request is always
    staged. *)
Theorem handleTokenRequest_other_kinds_staged
  (transition : TokenRequest) (w : World)
  (trie : ProverTrie) (tries : list ProverTrie) :
  frameProverTries (engine w) = trie :: tries ->
  Contains trie (provingKeyAddress (engine w)) = true ->
  (forall ti k, In ti (staged_requests (engine w)) ->
                kind_of ti = Some k -> kind_of transition <> Some k) ->
  handleTokenRequest transition w
  = Done (None, staged_as (staged_requests (engine w) ++ [transition]) w).
Proof.
  intros Htries Hin Hkinds.
  rewrite (handleTokenRequest_prover transition w trie tries false);
    try done.
  rewrite (scan_staged_existsb (fun _ => false)).
  - assert (forall l : list TokenRequest, existsb (fun _ => false) l = false)
      as -> by (induction l; done).
    done.
  - intros ti Hti. apply staged_collides_other_kind. intros k.
    by apply Hkinds.
Qed.

(** How a staged request compares with an incoming transfer. *)
Lemma staged_collides_transfer_coin (ti transition : TokenRequest)
  (coin : bytes) :
  transfer_coin transition = Some coin ->
  (kind_of ti = Some KTransfer -> is_Some (transfer_coin ti)) ->
  staged_collides ti transition
  = Done (match transfer_coin ti with
          | Some c => bytes_Equal coin c
          | None => false
          end).
Proof.
  unfold transfer_coin, kind_of, staged_collides. intros Hr Hwf.
  destruct (Request transition) as [[[[[rc|]]|]| | | | | | | |]|];
    try done. simpl in Hr. injection Hr as <-.
  destruct (Request ti) as [[[[[tc|]]|]| | | | | | | |]|]; try done;
    simpl in *; destruct Hwf as [? [=]]; done.
Qed.

(** X3.  Transfers are deduplicated by coin.  On a prover whose staged
    transfers have their pointers set, a transfer whose pointers are set
    is appended exactly when no staged transfer names the same coin
    address; otherwise the staged list is as it was. *)
Theorem handleTokenRequest_transfer_dedup
  (transition : TokenRequest) (w : World)
  (trie : ProverTrie) (tries : list ProverTrie) (coin : bytes) :
  frameProverTries (engine w) = trie :: tries ->
  Contains trie (provingKeyAddress (engine w)) = true ->
  transfer_coin transition = Some coin ->
  (forall ti, In ti (staged_requests (engine w)) ->
              kind_of ti = Some KTransfer -> is_Some (transfer_coin ti)) ->
  handleTokenRequest transition w
  = Done (None,
      staged_as
        (if existsb (fun ti => match transfer_coin ti with
                               | Some c => bytes_Equal coin c
                               | None => false
                               end) (staged_requests (engine w))
         then staged_requests (engine w)
         else staged_requests (engine w) ++ [transition]) w).
Proof.
  intros Htries Hin Hcoin Hwf.
  apply (handleTokenRequest_prover transition w trie tries); try done.
  rewrite (scan_staged_existsb
             (fun ti => match transfer_coin ti with
                        | Some c => bytes_Equal coin c
                        | None => false
                        end)); [done|].
  intros ti Hti. apply staged_collides_transfer_coin; [done|].
  by apply Hwf.
Qed.

Lemma handleTokenRequest_transfer_dedup_witness :
  let x := Scenario.transfer_of (Scenario.b "coinX") in
  let y := Scenario.transfer_of (Scenario.b "coinY") in
  handleTokenRequest x (Scenario.staging [y; x])
  = Done (None, staged_as [y; x] (Scenario.staging [y; x]))
  /\ handleTokenRequest x (Scenario.staging [y])
     = Done (None, staged_as [y; x] (Scenario.staging [y])).
Proof.
  intros x y. split.
  - apply (handleTokenRequest_transfer_dedup x (Scenario.staging [y; x])
             Scenario.trieA [] (Scenario.b "coinX")); try reflexivity.
    intros ti [<-|[<-|[]]] _; by eexists.
  - apply (handleTokenRequest_transfer_dedup x (Scenario.staging [y])
             Scenario.trieA [] (Scenario.b "coinX")); try reflexivity.
    intros ti [<-|[]] _; by eexists.
Defined.

Lemma handleTokenRequest_append_only_witness :
  let x := Scenario.transfer_of (Scenario.b "coinX") in
  let w := Scenario.staging [] in
  let w' := staged_as [x] w in
  None = (None : option error)
  /\ same_but_staged (engine w) (engine w')
  /\ heap w' = heap w /\ entropy w' = entropy w /\ trace w' = trace w
  /\ (staged_requests (engine w') = staged_requests (engine w)
      \/ (staged_requests (engine w') = staged_requests (engine w) ++ [x]
          /\ exists trie tries,
               frameProverTries (engine w) = trie :: tries
               /\ Contains trie (provingKeyAddress (engine w)) = true)).
Proof.
  intros x w w'.
  apply (handleTokenRequest_append_only x w w' None).
  vm_compute. reflexivity.
Defined.

Lemma handleTokenRequest_other_kinds_staged_witness :
  let x := Scenario.transfer_of (Scenario.b "coinX") in
  let s := Scenario.split_of (Scenario.b "coinX") in
  handleTokenRequest x (Scenario.staging [s])
  = Done (None, staged_as [s; x] (Scenario.staging [s])).
Proof.
  intros x s.
  apply (handleTokenRequest_other_kinds_staged x (Scenario.staging [s])
           Scenario.trieA []); try reflexivity.
  intros ti k [<-|[]] [= <-]. discriminate.
Defined.

Lemma merge_inner_loop (a : CoinRef) (rcoins : list (option CoinRef))
  (rc : list bytes) :
  Forall2 (fun (x : option CoinRef) y => Address <$> x = Some y) rcoins rc ->
  range_until (fun cj => a' ← deref (Some a); b' ← deref cj;
                         Done (bytes_Equal (Address a') (Address b')))
    rcoins
  = Done (existsb (fun y => bytes_Equal (Address a) y) rc).
Proof.
  induction 1 as [|x y rcoins rc Hxy _ IH]; [done|].
  destruct x as [c|]; [|done]. simpl in Hxy. injection Hxy as <-.
  simpl. destruct (bytes_Equal (Address a) (Address c)); [done|].
  exact IH.
Qed.

Lemma merge_outer_loop (r : MergeCoinRequest)
  (tcoins : list (option CoinRef)) (tc rc : list bytes) :
  Forall2 (fun (x : option CoinRef) y => Address <$> x = Some y) tcoins tc ->
  Forall2 (fun (x : option CoinRef) y => Address <$> x = Some y)
    (Coins r) rc ->
  range_until (fun ci =>
      r' ← deref (Some r);
      range_until (fun cj => a ← deref ci; b ← deref cj;
                             Done (bytes_Equal (Address a) (Address b)))
        (Coins r'))
    tcoins
  = Done (existsb (fun x => existsb (fun y => bytes_Equal x y) rc) tc).
Proof.
  intros Ht Hr. induction Ht as [|x y tcoins tc Hxy _ IH]; [done|].
  destruct x as [c|]; [|done]. simpl in Hxy. injection Hxy as <-.
  pose proof (merge_inner_loop c (Coins r) rc Hr) as Hinner.
  simpl in Hinner. simpl. simpl in IH. rewrite Hinner.
  destruct (existsb _ rc); [done|]. exact IH.
Qed.

Lemma staged_collides_merge_coins (ti transition : TokenRequest)
  (rc : list bytes) :
  merge_coins transition = Some rc ->
  (kind_of ti = Some KMerge -> is_Some (merge_coins ti)) ->
  staged_collides ti transition
  = Done (match merge_coins ti with
          | Some tc => existsb (fun x => existsb (fun y => bytes_Equal x y) rc)
                         tc
          | None => false
          end).
Proof.
  unfold merge_coins, kind_of, staged_collides. intros Hr Hwf.
  destruct (Request transition) as [[| |[r|]| | | | | |]|]; try done.
  apply mapM_Some_1 in Hr.
  destruct (Request ti) as [[| |[t|]| | | | | |]|]; try done.
  - specialize (Hwf eq_refl). destruct Hwf as [tc Htc]. rewrite Htc.
    apply mapM_Some_1 in Htc. cbn [deref mbind outcome_bind].
    by apply merge_outer_loop.
  - by destruct (Hwf eq_refl).
Qed.

(** X4.  Merges are deduplicated by overlap.  On a prover whose staged
    merges have their pointers set, a merge whose pointers are set is
    appended exactly when it shares no coin address with a staged merge. *)
Theorem handleTokenRequest_merge_dedup
  (transition : TokenRequest) (w : World)
  (trie : ProverTrie) (tries : list ProverTrie) (rc : list bytes) :
  frameProverTries (engine w) = trie :: tries ->
  Contains trie (provingKeyAddress (engine w)) = true ->
  merge_coins transition = Some rc ->
  (forall ti, In ti (staged_requests (engine w)) ->
              kind_of ti = Some KMerge -> is_Some (merge_coins ti)) ->
  handleTokenRequest transition w
  = Done (None,
      staged_as
        (if existsb (fun ti =>
              match merge_coins ti with
              | Some tc =>
                  existsb (fun x => existsb (fun y => bytes_Equal x y) rc) tc
              | None => false
              end) (staged_requests (engine w))
         then staged_requests (engine w)
         else staged_requests (engine w) ++ [transition]) w).
Proof.
  intros Htries Hin Hcoins Hwf.
  apply (handleTokenRequest_prover transition w trie tries); try done.
  rewrite (scan_staged_existsb
             (fun ti =>
                match merge_coins ti with
                | Some tc =>
                    existsb (fun x => existsb (fun y => bytes_Equal x y) rc)
                      tc
                | None => false
                end)); [done|].
  intros ti Hti. apply staged_collides_merge_coins; [done|]. by apply Hwf.
Qed.

Lemma handleTokenRequest_merge_dedup_witness :
  let ab := Scenario.merge_of [Scenario.b "coinA"; Scenario.b "coinB"] in
  let bc := Scenario.merge_of [Scenario.b "coinB"; Scenario.b "coinC"] in
  let cd := Scenario.merge_of [Scenario.b "coinC"; Scenario.b "coinD"] in
  handleTokenRequest bc (Scenario.staging [ab])
  = Done (None, staged_as [ab] (Scenario.staging [ab]))
  /\ handleTokenRequest cd (Scenario.staging [ab])
     = Done (None, staged_as [ab; cd] (Scenario.staging [ab])).
Proof.
  intros ab bc cd. split.
  - apply (handleTokenRequest_merge_dedup bc (Scenario.staging [ab])
             Scenario.trieA [] [Scenario.b "coinB"; Scenario.b "coinC"]);
      try reflexivity.
    intros ti [<-|[]] _; by eexists.
  - apply (handleTokenRequest_merge_dedup cd (Scenario.staging [ab])
             Scenario.trieA [] [Scenario.b "coinC"; Scenario.b "coinD"]);
      try reflexivity.
    intros ti [<-|[]] _; by eexists.
Defined.

Lemma mint_loop (r : MintCoinRequest) (tp : list bytes) :
  range_until (fun pi =>
      r' ← deref (Some r);
      if (length (Proofs r') <? 2)%nat
      then range_until (fun pj => Done (bytes_Equal pi pj)) (Proofs r')
      else Done false)
    tp
  = Done ((length (Proofs r) <? 2)%nat
          && existsb (fun x => existsb (fun y => bytes_Equal x y) (Proofs r))
               tp).
Proof.
  induction tp as [|x tp IH].
  - by rewrite andb_false_r.
  - cbn [range_until existsb]. rewrite IH.
    unfold mbind, outcome_bind, deref.
    destruct (length (Proofs r) <? 2)%nat; [|done].
    rewrite range_until_pure.
    by destruct (existsb _ (Proofs r)).
Qed.

Lemma staged_collides_mint_proofs (ti transition : TokenRequest)
  (rp : list bytes) :
  mint_proofs transition = Some rp ->
  (kind_of ti = Some KMint -> is_Some (mint_proofs ti)) ->
  staged_collides ti transition
  = Done (match mint_proofs ti with
          | Some tp =>
              (length rp <? 2)%nat
              && existsb (fun x => existsb (fun y => bytes_Equal x y) rp) tp
          | None => false
          end).
Proof.
  unfold mint_proofs, kind_of, staged_collides. intros Hr Hwf.
  destruct (Request transition) as [[| | |[r|]| | | | |]|]; try done.
  injection Hr as <-.
  destruct (Request ti) as [[| | |[t|]| | | | |]|]; try done.
  - exact (mint_loop r (Proofs t)).
  - by destruct (Hwf eq_refl).
Qed.

(** X5.  Mints are deduplicated by proof, below a threshold.  On a prover
    whose staged mints have their pointer set, a mint is dropped exactly
    when it carries fewer than two proofs and shares a proof with a staged
    mint; a mint with two proofs or more is always appended. *)
Theorem handleTokenRequest_mint_dedup
  (transition : TokenRequest) (w : World)
  (trie : ProverTrie) (tries : list ProverTrie) (rp : list bytes) :
  frameProverTries (engine w) = trie :: tries ->
  Contains trie (provingKeyAddress (engine w)) = true ->
  mint_proofs transition = Some rp ->
  (forall ti, In ti (staged_requests (engine w)) ->
              kind_of ti = Some KMint -> is_Some (mint_proofs ti)) ->
  handleTokenRequest transition w
  = Done (None,
      staged_as
        (if (length rp <? 2)%nat
            && existsb (fun ti =>
                 match mint_proofs ti with
                 | Some tp =>
                     existsb (fun x => existsb (fun y => bytes_Equal x y) rp)
                       tp
                 | None => false
                 end) (staged_requests (engine w))
         then staged_requests (engine w)
         else staged_requests (engine w) ++ [transition]) w).
Proof.
  intros Htries Hin Hproofs Hwf.
  apply (handleTokenRequest_prover transition w trie tries); try done.
  rewrite (scan_staged_existsb
             (fun ti =>
                match mint_proofs ti with
                | Some tp =>
                    (length rp <? 2)%nat
                    && existsb (fun x => existsb (fun y => bytes_Equal x y)
                                           rp) tp
                | None => false
                end)).
  - cbn [orb]. f_equal. generalize (length rp <? 2)%nat as below.
    intros below. clear.
    induction (staged_requests (engine w)) as [|ti l IH].
    + by rewrite andb_false_r.
    + cbn [existsb]. rewrite IH.
      destruct below, (mint_proofs ti); cbn [andb orb]; try done.
      all: by rewrite ?orb_false_r.
  - intros ti Hti. apply staged_collides_mint_proofs; [done|]. by apply Hwf.
Qed.

Lemma handleTokenRequest_mint_dedup_witness :
  let p := Scenario.mint_of [Scenario.b "p"] in
  let pq := Scenario.mint_of [Scenario.b "p"; Scenario.b "q"] in
  handleTokenRequest p (Scenario.staging [pq])
  = Done (None, staged_as [pq] (Scenario.staging [pq]))
  /\ handleTokenRequest pq (Scenario.staging [pq])
     = Done (None, staged_as [pq; pq] (Scenario.staging [pq])).
Proof.
  intros p pq. split.
  - apply (handleTokenRequest_mint_dedup p (Scenario.staging [pq])
             Scenario.trieA [] [Scenario.b "p"]); try reflexivity.
    intros ti [<-|[]] _; by eexists.
  - apply (handleTokenRequest_mint_dedup pq (Scenario.staging [pq])
             Scenario.trieA [] [Scenario.b "p"; Scenario.b "q"]);
      try reflexivity.
    intros ti [<-|[]] _; by eexists.
Defined.

Lemma signer_KeyValue_key_of (s : option Ed448Signature) (key : bytes) :
  key_of s = Some key -> signer_KeyValue s = Done key.
Proof.
  destruct s as [[[k|] sig]|]; try done. simpl. by intros [= <-].
Qed.

Lemma staged_collides_membership (ti transition : TokenRequest)
  (k : RequestKind) (key : bytes) :
  kind_of transition = Some k ->
  is_membership k = true ->
  membership_key transition = Some key ->
  (kind_of ti = Some k -> is_Some (membership_key ti)) ->
  staged_collides ti transition
  = Done (match kind_of ti, membership_key ti with
          | Some k', Some key' => RequestKind_eqb k' k && bytes_Equal key' key
          | _, _ => false
          end).
Proof.
  unfold kind_of, membership_key, staged_collides.
  intros Hk Hm Hkey Hwf.
  destruct (Request transition) as [[]|]; try done;
    injection Hk as <-; try done;
    apply signer_KeyValue_key_of in Hkey;
    (destruct (Request ti) as [[]|]; try done;
     first
       [ specialize (Hwf eq_refl); destruct Hwf as [key' Hkey'];
         rewrite Hkey'; apply signer_KeyValue_key_of in Hkey';
         rewrite Hkey', Hkey; done
       | cbn [RequestKind_eqb andb]; by destruct (key_of _) ]).
Qed.

(** X6.  Joins, leaves, pauses and resumes are deduplicated by signer.  On
    a prover whose staged requests of the kind have their pointers set, a
    join (a leave, a pause, a resume) whose pointers are set is appended
    exactly when no staged request of the same kind carries the same
    signer key. *)
Theorem handleTokenRequest_membership_dedup
  (transition : TokenRequest) (w : World)
  (trie : ProverTrie) (tries : list ProverTrie)
  (k : RequestKind) (key : bytes) :
  frameProverTries (engine w) = trie :: tries ->
  Contains trie (provingKeyAddress (engine w)) = true ->
  kind_of transition = Some k ->
  is_membership k = true ->
  membership_key transition = Some key ->
  (forall ti, In ti (staged_requests (engine w)) ->
              kind_of ti = Some k -> is_Some (membership_key ti)) ->
  handleTokenRequest transition w
  = Done (None,
      staged_as
        (if existsb (fun ti =>
              match kind_of ti, membership_key ti with
              | Some k', Some key' =>
                  RequestKind_eqb k' k && bytes_Equal key' key
              | _, _ => false
              end) (staged_requests (engine w))
         then staged_requests (engine w)
         else staged_requests (engine w) ++ [transition]) w).
Proof.
  intros Htries Hin Hk Hm Hkey Hwf.
  apply (handleTokenRequest_prover transition w trie tries); try done.
  rewrite (scan_staged_existsb
             (fun ti =>
                match kind_of ti, membership_key ti with
                | Some k', Some key' =>
                    RequestKind_eqb k' k && bytes_Equal key' key
                | _, _ => false
                end)); [done|].
  intros ti Hti. apply staged_collides_membership; try done. by apply Hwf.
Qed.

Lemma handleTokenRequest_membership_dedup_witness :
  let a := Cases.join_of Scenario.keyA in
  let l := Cases.leave_of Scenario.keyA in
  handleTokenRequest a (Scenario.staging [l; a])
  = Done (None, staged_as [l; a] (Scenario.staging [l; a]))
  /\ handleTokenRequest a (Scenario.staging [l])
     = Done (None, staged_as [l; a] (Scenario.staging [l])).
Proof.
  intros a l. split.
  - apply (handleTokenRequest_membership_dedup a (Scenario.staging [l; a])
             Scenario.trieA [] KJoin Scenario.keyA); try reflexivity.
    intros ti [<-|[<-|[]]] Hk; [discriminate Hk|by eexists].
  - apply (handleTokenRequest_membership_dedup a (Scenario.staging [l])
             Scenario.trieA [] KJoin Scenario.keyA); try reflexivity.
    intros ti [<-|[]] Hk. discriminate Hk.
Defined.

(** ** Frame admission *)

Section MoreClockFrames.

Context (pk : Packages).

Lemma handleClockFrame_outcome (w w' : World) (peerID address : bytes)
  (f : ClockFrame) (r : option error) :
  handleClockFrame pk peerID address (Some f) w = Done (r, w') ->
  frame_outcome pk w f r w'.
Proof.
  unfold handleClockFrame, signer_KeyValue. run_M.
  destruct (ClockFrame_PublicKeySignatureEd448 f) as [sig|] eqn:Hsig;
    [|done]. simpl.
  destruct (Ed448Signature_PublicKey sig) as [key|] eqn:Hkey; [|done].
  simpl.
  destruct (poseidon_HashBytes pk (KeyValue key)) as [addr|err] eqn:Hhash.
  2:{ intros [= <- <-]. by eapply frame_hash_error. }
  destruct (frameProverTries (engine w)) as [|trie tries] eqn:Htries;
    [done|]. simpl.
  destruct (Contains trie (big_Bytes addr)) eqn:Hin; simpl.
  2:{ intros [= <- <-]. apply frame_skipped.
      by exists sig, key, addr, trie, tries. }
  assert (signer_in_trie pk (engine w) f true) as Hsigner
    by (by exists sig, key, addr, trie, tries).
  destruct (VerifyDataClockFrame (frameProver (engine w)) f)
    as [err|] eqn:Hverify; simpl.
  { intros [= <- <-].
    rewrite <- !app_assoc. by apply frame_rejected. }
  destruct (Head (dataTimeReel (engine w))) as [head|err] eqn:Hhead;
    [|done]. simpl.
  destruct (FrameNumber f >? FrameNumber head) eqn:Hcmp; simpl.
  - intros [= <- <-]. rewrite <- !app_assoc. apply frame_inserted.
    exists sig, key, addr, trie, tries, head.
    apply Z.gtb_lt in Hcmp. done.
  - intros [= <- <-]. rewrite <- !app_assoc.
    apply (frame_stale pk w f head); try done.
    rewrite Z.gtb_ltb in Hcmp. apply Z.ltb_ge in Hcmp. lia.
Qed.

(** Every outcome leaves the engine as it was and adds calls; an insert
    among them is the insert of an admitted frame. *)
Lemma frame_outcome_calls (w w' : World) (f : ClockFrame)
  (r : option error) :
  frame_outcome pk w f r w' ->
  exists evs,
    w' = emitted w evs
    /\ (forall g b, In (Insert g b) evs ->
          g = f /\ b = false /\ r = None /\ admitted_frame pk (engine w) f)
    /\ (is_Some r -> Forall (fun ev => is_time_reel_call ev = false) evs).
Proof.
  destruct 1.
  - exists []. rewrite emitted_nil. split; [done|]. split; [|done].
    by intros g b [].
  - eexists. split; [done|]. split.
    + intros g b [Hi|[]]; discriminate Hi.
    + by intros [? [=]].
  - eexists. split; [done|]. split.
    + intros g b [Hi|[Hi|[Hi|[]]]]; discriminate Hi.
    + intros _. by repeat constructor.
  - eexists. split; [done|]. split.
    + intros g b [Hi|[Hi|[Hi|[Hi|[]]]]]; discriminate Hi.
    + by intros [? [=]].
  - eexists. split; [done|]. split.
    + intros g b [Hi|[Hi|[Hi|[Hi|[Hi|[]]]]]]; try discriminate Hi.
      by injection Hi as <- <-.
    + by intros [? [=]].
Qed.

Lemma handleClockFrameData_calls
  (w w' : World) (peerID address : bytes) (any : Any) (isSync : bool)
  (r : option error) (f : ClockFrame) (b : bool) :
  handleClockFrameData pk peerID address any isSync w = Done (r, w') ->
  In (Insert f b) (calls_since w w') ->
  b = false /\ r = None
  /\ peerID <> GetPeerID (pubSub (engine w))
  /\ anypb_UnmarshalTo_ClockFrame pk any = inl f
  /\ admitted_frame pk (engine w) f.
Proof.
  unfold handleClockFrameData, mbind, M_bind, gets, mret, M_ret.
  destruct (bytes_Equal peerID (GetPeerID (pubSub (engine w)))) eqn:Hself.
  { intros [= <- <-]. unfold calls_since. by rewrite drop_all. }
  apply bytes_Equal_neq in Hself.
  destruct (anypb_UnmarshalTo_ClockFrame pk any) as [g|err] eqn:Hframe.
  2:{ intros [= <- <-]. unfold calls_since. by rewrite drop_all. }
  intros Hrun. apply handleClockFrame_outcome in Hrun.
  apply frame_outcome_calls in Hrun.
  destruct Hrun as (evs & -> & Hins & _). rewrite calls_since_emitted.
  intros Hin. destruct (Hins f b Hin) as (-> & -> & -> & Hadm). done.
Qed.

(** X7.  [handleClockFrameData] offers the time reel verified frames
    only.  When it completes, every [Insert] it has made is
    [Insert(frame, false)] of the frame the payload decodes to; the
    message came from another peer, the signer of the frame, hashed, is in
    the first prover trie, the frame prover accepted the frame, the frame
    number is above the head's, and the result is nil. *)
Theorem handleClockFrameData_inserts_only_admitted
  (w w' : World) (peerID address : bytes) (any : Any) (isSync : bool)
  (r : option error) (f : ClockFrame) (b : bool) :
  handleClockFrameData pk peerID address any isSync w = Done (r, w') ->
  In (Insert f b) (calls_since w w') ->
  b = false /\ r = None
  /\ peerID <> GetPeerID (pubSub (engine w))
  /\ anypb_UnmarshalTo_ClockFrame pk any = inl f
  /\ admitted_frame pk (engine w) f.
Proof.
  exact (handleClockFrameData_calls w w' peerID address any isSync r f b).
Qed.

(** X8.  An error of [handleClockFrame] is an error of the frame: when the
    handler returns an error, the frame was nil, or Poseidon failed on
    the key of its signer, or the frame prover rejected it, and the error
    is the wrapped cause; the time reel was not called and the engine is
    as it was. *)
Theorem handleClockFrame_error
  (w w' : World) (peerID address : bytes) (frame : option ClockFrame)
  (err : error) :
  handleClockFrame pk peerID address frame w = Done (Some err, w') ->
  engine w' = engine w
  /\ Forall (fun ev => is_time_reel_call ev = false) (calls_since w w')
  /\ ((frame = None
       /\ err = errors_Wrap "frame is nil" "handle clock frame")
      \/ exists f cause,
           frame = Some f
           /\ err = errors_Wrap cause "handle clock frame data"
           /\ ((exists sig key,
                  ClockFrame_PublicKeySignatureEd448 f = Some sig
                  /\ Ed448Signature_PublicKey sig = Some key
                  /\ poseidon_HashBytes pk (KeyValue key) = inr cause)
               \/ VerifyDataClockFrame (frameProver (engine w)) f
                  = Some cause)).
Proof.
  destruct frame as [f|].
  - intros Hrun. pose proof (handleClockFrame_outcome _ _ _ _ _ _ Hrun) as Ho.
    destruct (frame_outcome_calls _ _ _ _ Ho) as (evs & -> & _ & Herr).
    rewrite calls_since_emitted. split; [done|].
    split; [apply Herr; by eexists|]. right.
    inversion Ho; subst.
    + eexists f, _. split; [done|]. split; [done|]. left. by eexists _, _.
    + eexists f, _. split; [done|]. split; [done|]. by right.
  - unfold handleClockFrame. run_M. intros [= <- <-].
    split; [done|]. unfold calls_since. rewrite drop_all.
    split; [done|]. by left.
Qed.

End MoreClockFrames.

Lemma handleClockFrameData_inserts_only_admitted_witness :
  let f := Scenario.frame_of 6 Scenario.keyA in
  let pk := Cases.packages_with_frame f in
  exists w',
    handleClockFrameData pk Scenario.P1 [] Cases.frame_payload false
      Scenario.world0 = Done (None, w')
    /\ In (Insert f false) (calls_since Scenario.world0 w')
    /\ Scenario.P1 <> GetPeerID (pubSub (engine Scenario.world0))
    /\ anypb_UnmarshalTo_ClockFrame pk Cases.frame_payload = inl f
    /\ admitted_frame pk (engine Scenario.world0) f.
Proof.
  intros f pk.
  assert (exists w',
            handleClockFrameData pk Scenario.P1 [] Cases.frame_payload false
              Scenario.world0 = Done (None, w')
            /\ In (Insert f false) (calls_since Scenario.world0 w'))
    as (w' & Hrun & Hin).
  { exists (emitted Scenario.world0
              [Log DebugLevel "got clock frame";
               VerifyDataClockFrameCall f;
               Log DebugLevel "clock frame was valid"; HeadCall;
               Insert f false]).
    split; [reflexivity|]. rewrite calls_since_emitted.
    do 4 right. by left. }
  exists w'. split; [exact Hrun|]. split; [exact Hin|].
  apply (handleClockFrameData_inserts_only_admitted pk Scenario.world0 w'
           Scenario.P1 [] Cases.frame_payload false None f false Hrun Hin).
Defined.

Lemma handleClockFrame_error_witness :
  let f := {| Filter := []; FrameNumber := 6;
              AggregateProofs := [Scenario.b "bad"];
              ClockFrame_PublicKeySignatureEd448 :=
                Scenario.signed_by Scenario.keyA |} in
  exists w',
    handleClockFrame Scenario.pk0 Scenario.P1 [] (Some f) Scenario.world0
    = Done (Some (errors_Wrap "invalid proof" "handle clock frame data"), w')
    /\ engine w' = engine Scenario.world0
    /\ Forall (fun ev => is_time_reel_call ev = false)
         (calls_since Scenario.world0 w').
Proof.
  intros f.
  assert (exists w',
            handleClockFrame Scenario.pk0 Scenario.P1 [] (Some f)
              Scenario.world0
            = Done (Some (errors_Wrap "invalid proof"
                            "handle clock frame data"), w'))
    as (w' & Hrun).
  { exists (emitted Scenario.world0
              [Log DebugLevel "got clock frame";
               VerifyDataClockFrameCall f;
               Log DebugLevel "could not verify clock frame"]).
    reflexivity. }
  exists w'. split; [exact Hrun|].
  destruct (handleClockFrame_error Scenario.pk0 Scenario.world0 w'
              Scenario.P1 [] (Some f) _ Hrun) as (He & Hcalls & _).
  by split.
Defined.

(** ** The workers of the frame and the info queue *)

Lemma for_range_Done {A} (body : A -> M unit) (Inv : World -> Prop)
  (l : list A) (w w' : World) :
  for_range body l w = Done (tt, w') ->
  Inv w ->
  (forall x w1 w2, In x l -> Inv w1 -> body x w1 = Done (tt, w2) -> Inv w2) ->
  Inv w'.
Proof.
  revert w. induction l as [|x l IH]; intros w; simpl.
  - by intros [= <-].
  - unfold mbind, M_bind. destruct (body x w) as [[[] w1]|] eqn:Hx; [|done].
    intros Hrun Hw Hstep. apply (IH w1 Hrun).
    + by apply (Hstep x w w1 (or_introl eq_refl)).
    + intros y w2 w3 Hy. apply Hstep. by right.
Qed.

Section MoreWorkers.

Context (pk : Packages) (urls : TypeUrls).

Lemma frameMessageHandler_turn_calls (message : pb_Message) (w w' : World) :
  frameMessageHandler_turn pk urls message w = Done (tt, w') ->
  exists evs,
    w' = emitted w evs
    /\ forall f b, In (Insert f b) evs ->
         b = false /\ admitted_frame pk (engine w) f
         /\ carries_frame pk urls (engine w) message f.
Proof.
  unfold frameMessageHandler_turn.
  unfold mbind at 1, M_bind at 1. rewrite emit_emitted.
  destruct (proto_Unmarshal_Message pk (Data message)) as [msg|err] eqn:Hmsg.
  2:{ rewrite emit_emitted, emitted_emitted. intros [= <-].
      eexists. split; [done|]. intros f b [H|[H|[]]]; discriminate H. }
  destruct (proto_Unmarshal_Any pk (Payload msg)) as [any|err] eqn:Hany.
  2:{ rewrite emit_emitted, emitted_emitted. intros [= <-].
      eexists. split; [done|]. intros f b [H|[H|[]]]; discriminate H. }
  unfold mbind at 1, M_bind at 1. rewrite emit_emitted, emitted_emitted.
  destruct (String.eqb_spec (TypeUrl any) (protobufs_ClockFrameType urls))
    as [Hurl|Hurl].
  2:{ intros [= <-]. eexists. split; [done|].
      intros f b [H|[H|[]]]; discriminate H. }
  unfold mbind, M_bind, mret, M_ret.
  destruct (handleClockFrameData pk (From message) (Message_Address msg)
              any false _) as [[r w1]|] eqn:Hrun; [|done].
  intros [= <-].
  assert (exists evs, w1 = emitted (emitted w
            [Log DebugLevel "handling frame message";
             Log DebugLevel "message type"]) evs) as (evs & ->).
  { revert Hrun. unfold handleClockFrameData, mbind, M_bind, gets, mret, M_ret.
    destruct (bytes_Equal _ _).
    { intros [= <- <-]. exists []. by rewrite emitted_nil. }
    destruct (anypb_UnmarshalTo_ClockFrame pk any).
    - intros Ho. apply handleClockFrame_outcome in Ho.
      apply frame_outcome_calls in Ho. destruct Ho as (evs & -> & _).
      by exists evs.
    - intros [= <- <-]. exists []. by rewrite emitted_nil. }
  rewrite emitted_emitted. eexists. split; [done|].
  intros f b [H|[H|Hin]]; try discriminate H.
  assert (In (Insert f b)
            (calls_since (emitted w
               [Log DebugLevel "handling frame message";
                Log DebugLevel "message type"])
               (emitted (emitted w
                  [Log DebugLevel "handling frame message";
                   Log DebugLevel "message type"]) evs))) as Hin'
    by (by rewrite calls_since_emitted).
  destruct (handleClockFrameData_calls pk _ _ _ _ _ _ _ _ _
              Hrun Hin') as (-> & _ & Hself & Hframe & Hadm).
  split; [done|]. split; [exact Hadm|].
  by exists msg, any.
Qed.

(** X9.  The worker of the frame queue offers the time reel only frames
    that arrived as clock frames from other peers and passed the checks:
    every [Insert] it makes is [Insert(frame, false)] of an admitted frame
    that one of the delivered messages carries.  The worker leaves the
    engine (peer map, staged requests) as it was. *)
Theorem runFrameMessageHandler_inserts_only_admitted
  (delivered : list pb_Message) (w w' : World) (f : ClockFrame) (b : bool) :
  runFrameMessageHandler pk urls delivered w = Done (tt, w') ->
  In (Insert f b) (calls_since w w') ->
  b = false
  /\ engine w' = engine w
  /\ admitted_frame pk (engine w) f
  /\ exists message,
       In message delivered /\ carries_frame pk urls (engine w) message f.
Proof.
  intros Hrun Hin. unfold runFrameMessageHandler in Hrun.
  assert (exists evs,
            w' = emitted w evs
            /\ forall g c, In (Insert g c) evs ->
                 c = false /\ admitted_frame pk (engine w) g
                 /\ exists message,
                      In message delivered
                      /\ carries_frame pk urls (engine w) message g)
    as (evs & -> & Hevs).
  { apply (for_range_Done (frameMessageHandler_turn pk urls)
             (fun w1 => exists evs,
                w1 = emitted w evs
                /\ forall g c, In (Insert g c) evs ->
                     c = false /\ admitted_frame pk (engine w) g
                     /\ exists message,
                          In message delivered
                          /\ carries_frame pk urls (engine w) message g)
             delivered w w' Hrun).
    - exists []. rewrite emitted_nil. split; [done|]. by intros g c [].
    - intros message w1 w2 Hmsg (evs & -> & Hevs) Hturn.
      apply frameMessageHandler_turn_calls in Hturn.
      destruct Hturn as (evs' & -> & Hevs').
      exists (evs ++ evs'). rewrite emitted_emitted. split; [done|].
      intros g c [Hg|Hg]%in_app_or; [by apply Hevs|].
      destruct (Hevs' g c Hg) as (-> & Hadm & Hcarries).
      split; [done|]. split; [exact Hadm|]. by exists message. }
  rewrite calls_since_emitted in Hin.
  destruct (Hevs f b Hin) as (-> & Hadm & Hmsg). done.
Qed.

End MoreWorkers.

Lemma runFrameMessageHandler_inserts_only_admitted_witness :
  let f := Scenario.frame_of 6 Scenario.keyA in
  let pk := Cases.packages_with_frame f in
  let message :=
    Cases.wire Scenario.P1 (protobufs_ClockFrameType Cases.urls) [] in
  exists w',
    runFrameMessageHandler pk Cases.urls [message] Scenario.world0
    = Done (tt, w')
    /\ In (Insert f false) (calls_since Scenario.world0 w')
    /\ engine w' = engine Scenario.world0
    /\ admitted_frame pk (engine Scenario.world0) f
    /\ exists m,
         In m [message]
         /\ carries_frame pk Cases.urls (engine Scenario.world0) m f.
Proof.
  intros f pk message.
  assert (exists w',
            runFrameMessageHandler pk Cases.urls [message] Scenario.world0
            = Done (tt, w')
            /\ In (Insert f false) (calls_since Scenario.world0 w'))
    as (w' & Hrun & Hin).
  { exists (emitted Scenario.world0
              [Log DebugLevel "handling frame message";
               Log DebugLevel "message type";
               Log DebugLevel "got clock frame";
               VerifyDataClockFrameCall f;
               Log DebugLevel "clock frame was valid"; HeadCall;
               Insert f false]).
    split; [reflexivity|]. rewrite calls_since_emitted.
    do 6 right. by left. }
  exists w'. split; [exact Hrun|]. split; [exact Hin|].
  apply (runFrameMessageHandler_inserts_only_admitted pk Cases.urls
           [message] Scenario.world0 w' f false Hrun Hin).
Defined.

(** ** The peer registry *)

Section MoreAnnouncements.

Context (pk : Packages).

Lemma announce_step_refl (peerID : bytes) (w : World) :
  announce_step peerID w w.
Proof.
  split; [apply same_but_peerMap_refl|]. repeat split; try done.
  exists []. by rewrite app_nil_r.
Qed.

Lemma announce_step_emitted (peerID : bytes) (w : World)
  (evs : list Event) :
  Forall (announce_call peerID) evs -> announce_step peerID w (emitted w evs).
Proof.
  intros H. split; [apply same_but_peerMap_refl|]. repeat split; try done.
  by exists evs.
Qed.

Lemma announce_step_trans (peerID : bytes) (w1 w2 w3 : World) :
  announce_step peerID w1 w2 -> announce_step peerID w2 w3 ->
  announce_step peerID w1 w3.
Proof.
  intros (He & Hk & Hh & Hr & evs & Ht & Hev)
         (He' & Hk' & Hh' & Hr' & evs' & Ht' & Hev').
  split; [by eapply same_but_peerMap_trans|].
  split; [intros k Hne; rewrite Hk', Hk; done|].
  split; [congruence|]. split; [congruence|].
  exists (evs ++ evs'). rewrite Ht', Ht, app_assoc. split; [done|].
  by apply Forall_app.
Qed.

Lemma validate_peer_calls (p : DataPeer) (publicKey signature version : bytes)
  (w : World) :
  exists skipped evs,
    validate_peer pk p publicKey signature version w
    = Done (skipped, emitted w evs)
    /\ Forall (announce_call (PeerId p)) evs.
Proof.
  unfold validate_peer. run_M.
  destruct (pcrypto_UnmarshalEd448PublicKey pk publicKey) as [key|err].
  - destruct (negb (peer_MatchesPublicKey pk (PeerId p) key)).
    + eexists _, [_]. split; [reflexivity|]. by repeat constructor.
    + destruct (pcrypto_Verify pk key _ signature) as [ok err].
      destruct (bool_decide (is_Some err) || negb ok).
      * eexists _, [_]. split; [reflexivity|]. by repeat constructor.
      * destruct (_ && _).
        -- eexists _, [_; _]. split.
           ++ unfold emitted; simpl. by rewrite <- app_assoc.
           ++ constructor; [done|]. constructor; [|done].
              split; [done|by right].
        -- exists false, []. by rewrite emitted_nil.
  - eexists _, [_]. split; [reflexivity|]. by repeat constructor.
Qed.

Lemma update_peer_calls (peerID : bytes) (p : DataPeer) (w : World) :
  PeerId p = peerID ->
  exists w', update_peer pk peerID p w = Done (tt, w')
             /\ announce_step peerID w w'.
Proof.
  intros <-. unfold update_peer, time_Now_read. run_M.
  destruct (bool_decide (is_Some (uncooperativePeersMap _ !! _))).
  { eexists; split; [reflexivity|]. apply announce_step_refl. }
  simpl.
  match goal with |- context [if ?c then _ else _] => destruct c end.
  - eexists; split; [reflexivity|].
    apply (announce_step_emitted (PeerId p) w [SetPeerScore (PeerId p) 10]).
    constructor; [|done]. split; [done|by left].
  - eexists; split; [reflexivity|]. simpl.
    split; [apply same_but_peerMap_set|]. split.
    + intros k Hne. simpl. by rewrite lookup_insert_ne.
    + simpl. repeat split; try done.
      exists [SetPeerScore (PeerId p) 10]. split; [done|].
      constructor; [|done]. split; [done|by left].
Qed.

Lemma announce_record_calls (peerID : bytes) (p : DataPeer) (w : World) :
  exists w', announce_record pk peerID p w = Done (tt, w')
             /\ announce_step peerID w w'.
Proof.
  unfold announce_record. run_M.
  destruct (bytes_Equal (PeerId p) (GetPeerID _)).
  { eexists; split; [reflexivity|apply announce_step_refl]. }
  destruct (bytes_Equal (PeerId p) peerID) eqn:Hsender; simpl.
  2:{ eexists; split; [reflexivity|apply announce_step_refl]. }
  apply bytes_Equal_eq in Hsender.
  destruct (PublicKey p) as [publicKey|];
    [|eexists; split; [reflexivity|apply announce_step_refl]].
  destruct (Signature p) as [signature|];
    [|eexists; split; [reflexivity|apply announce_step_refl]].
  destruct (Version p) as [version|];
    [|eexists; split; [reflexivity|apply announce_step_refl]].
  destruct (validate_peer_calls p publicKey signature version w)
    as (skipped & evs & -> & Hevs).
  rewrite Hsender in Hevs.
  destruct skipped.
  - eexists; split; [reflexivity|]. by apply announce_step_emitted.
  - destruct (update_peer_calls peerID p (emitted w evs) Hsender)
      as (w' & -> & Hw').
    eexists; split; [reflexivity|].
    eapply announce_step_trans; [|exact Hw']. by apply announce_step_emitted.
Qed.

Lemma handleDataPeerListAnnounce_step
  (w : World) (peerID address : bytes) (any : Any) :
  exists r w',
    handleDataPeerListAnnounce pk peerID address any w = Done (r, w')
    /\ announce_step peerID w w'
    /\ (forall err, r = Some err ->
          w' = w
          /\ exists cause,
               anypb_UnmarshalTo_DataPeerListAnnounce pk any = inr cause
               /\ err = errors_Wrap cause "handle data peer list announce").
Proof.
  unfold handleDataPeerListAnnounce.
  destruct (anypb_UnmarshalTo_DataPeerListAnnounce pk any) as [ann|cause].
  - destruct (for_range_invariant (announce_record pk peerID)
                (announce_step peerID w) (PeerList ann) w)
      as (w' & Hrun & Hinv).
    + apply announce_step_refl.
    + intros p w1 _ Hw1.
      destruct (announce_record_calls peerID p w1) as (w2 & Hp & Hstep).
      exists w2. split; [done|]. by eapply announce_step_trans.
    + exists None, w'. unfold mbind, M_bind. rewrite Hrun.
      split; [done|]. split; [done|]. by intros err [=].
  - eexists _, w. split; [reflexivity|]. split; [apply announce_step_refl|].
    intros err [= <-]. split; [done|]. by exists cause.
Qed.


End MoreAnnouncements.

Section MoreAnnouncements2.

Context (pk : Packages).

Lemma announce_record_self (peerID : bytes) (p : DataPeer) (w : World) :
  PeerId p = GetPeerID (pubSub (engine w)) ->
  announce_record pk peerID p w = Done (tt, w).
Proof.
  intros Hself%bytes_Equal_eq. unfold announce_record. run_M.
  by rewrite Hself.
Qed.

(** X11.  No announcement changes what the node holds about itself: the
    handler completes, and the entry of the node's own peer id in the
    peer map is as it was and no score of it is set, whoever the sender
    claims to be. *)
Theorem handleDataPeerListAnnounce_self_untouched
  (w : World) (peerID address : bytes) (any : Any) :
  exists r w',
    handleDataPeerListAnnounce pk peerID address any w = Done (r, w')
    /\ peerMap (engine w') !! string_of_bytes (GetPeerID (pubSub (engine w)))
       = peerMap (engine w) !! string_of_bytes (GetPeerID (pubSub (engine w)))
    /\ Forall (fun ev =>
                 is_score_call_for (GetPeerID (pubSub (engine w))) ev = false)
         (calls_since w w').
Proof.
  set (self := GetPeerID (pubSub (engine w))).
  unfold handleDataPeerListAnnounce.
  destruct (anypb_UnmarshalTo_DataPeerListAnnounce pk any) as [ann|cause].
  2:{ eexists _, w. split; [reflexivity|]. split; [done|].
      unfold calls_since. by rewrite drop_all. }
  destruct (for_range_invariant (announce_record pk peerID)
              (fun w1 => same_but_peerMap (engine w) (engine w1)
                         /\ peer_untouched self w w1)
              (PeerList ann) w)
    as (w' & Hrun & _ & Hinv).
  - split; [apply same_but_peerMap_refl|apply peer_untouched_refl].
  - intros p w1 _ [Hsame Hw1].
    destruct (announce_record_step pk peerID p w1) as (w2 & Hp & Hstep).
    exists w2. split; [done|]. split.
    { eapply same_but_peerMap_trans; [exact Hsame|]. by destruct Hstep. }
    eapply peer_untouched_trans; [exact Hw1|].
    destruct (bytes_Equal (PeerId p) self) eqn:E.
    + apply bytes_Equal_eq in E.
      rewrite announce_record_self in Hp.
      * injection Hp as <-. apply peer_untouched_refl.
      * destruct (same_but_peerMap_fields _ _ Hsame) as (-> & _). done.
    + apply bytes_Equal_neq in E. by eapply record_step_other.
  - exists None, w'. unfold mbind, M_bind. rewrite Hrun.
    split; [done|]. split; [apply Hinv|]. by apply peer_untouched_calls.
Qed.

Lemma peer_masked_refl (id : bytes) (w : World) : peer_masked id w w.
Proof. split; [done|]. exists []. by rewrite app_nil_r. Qed.

Lemma peer_masked_trans (id : bytes) (w1 w2 w3 : World) :
  peer_masked id w1 w2 -> peer_masked id w2 w3 -> peer_masked id w1 w3.
Proof.
  intros (Hk & evs & Ht & Hev) (Hk' & evs' & Ht' & Hev').
  split; [by rewrite Hk', Hk|].
  exists (evs ++ evs'). rewrite Ht', Ht, app_assoc. split; [done|].
  by apply Forall_app.
Qed.

Lemma peer_untouched_masked (id : bytes) (w w' : World) :
  peer_untouched id w w' -> peer_masked id w w'.
Proof.
  intros (Hk & evs & Ht & Hev). split; [done|]. exists evs. split; [done|].
  eapply Forall_impl; [exact Hev|]. intros [] H; simpl in *; try done.
  by rewrite H.
Qed.

Lemma validate_peer_no_raise (p : DataPeer)
  (publicKey signature version : bytes) (w : World) :
  exists skipped evs,
    validate_peer pk p publicKey signature version w
    = Done (skipped, emitted w evs)
    /\ Forall (fun ev => is_raise_for (PeerId p) ev = false) evs.
Proof.
  unfold validate_peer. run_M.
  destruct (pcrypto_UnmarshalEd448PublicKey pk publicKey) as [key|err].
  - destruct (negb (peer_MatchesPublicKey pk (PeerId p) key)).
    + eexists _, [_]. split; [reflexivity|]. by repeat constructor.
    + destruct (pcrypto_Verify pk key _ signature) as [ok err].
      destruct (bool_decide (is_Some err) || negb ok).
      * eexists _, [_]. split; [reflexivity|]. by repeat constructor.
      * destruct (_ && _).
        -- eexists _, [_; _]. split.
           ++ unfold emitted; simpl. by rewrite <- app_assoc.
           ++ constructor; [done|]. constructor; [|done].
              simpl. by rewrite andb_false_r.
        -- exists false, []. by rewrite emitted_nil.
  - eexists _, [_]. split; [reflexivity|]. by repeat constructor.
Qed.

Lemma announce_record_uncooperative (peerID : bytes) (p : DataPeer)
  (w : World) :
  is_Some (uncooperativePeersMap (engine w) !! string_of_bytes (PeerId p)) ->
  exists evs,
    announce_record pk peerID p w = Done (tt, emitted w evs)
    /\ Forall (fun ev => is_raise_for (PeerId p) ev = false) evs.
Proof.
  intros Hunc. unfold announce_record. run_M.
  destruct (bytes_Equal (PeerId p) (GetPeerID _)).
  { exists []. by rewrite emitted_nil. }
  destruct (negb (bytes_Equal (PeerId p) peerID)).
  { exists []. by rewrite emitted_nil. }
  destruct (PublicKey p) as [publicKey|];
    [|exists []; by rewrite emitted_nil].
  destruct (Signature p) as [signature|];
    [|exists []; by rewrite emitted_nil].
  destruct (Version p) as [version|];
    [|exists []; by rewrite emitted_nil].
  destruct (validate_peer_no_raise p publicKey signature version w)
    as (skipped & evs & -> & Hevs).
  destruct skipped; [by exists evs|].
  unfold update_peer. run_M.
  rewrite bool_decide_eq_true_2 by done. by exists evs.
Qed.

(** X12.  Uncooperative peers are masked.  For a peer in the map of
    uncooperative peers, the handler completes, leaves the entry of the
    peer in the peer map as it was, and never raises its score by 10. *)
Theorem handleDataPeerListAnnounce_uncooperative_masked
  (w : World) (peerID address : bytes) (any : Any) (id : bytes) :
  is_Some (uncooperativePeersMap (engine w) !! string_of_bytes id) ->
  exists r w',
    handleDataPeerListAnnounce pk peerID address any w = Done (r, w')
    /\ peerMap (engine w') !! string_of_bytes id
       = peerMap (engine w) !! string_of_bytes id
    /\ Forall (fun ev => is_raise_for id ev = false) (calls_since w w').
Proof.
  intros Hunc. unfold handleDataPeerListAnnounce.
  destruct (anypb_UnmarshalTo_DataPeerListAnnounce pk any) as [ann|cause].
  2:{ eexists _, w. split; [reflexivity|]. split; [done|].
      unfold calls_since. by rewrite drop_all. }
  destruct (for_range_invariant (announce_record pk peerID)
              (fun w1 => same_but_peerMap (engine w) (engine w1)
                         /\ peer_masked id w w1)
              (PeerList ann) w)
    as (w' & Hrun & _ & Hk & evs & Ht & Hevs).
  - split; [apply same_but_peerMap_refl|apply peer_masked_refl].
  - intros p w1 _ [Hsame Hw1].
    destruct (announce_record_step pk peerID p w1) as (w2 & Hp & Hstep).
    exists w2. split; [done|]. split.
    { eapply same_but_peerMap_trans; [exact Hsame|]. by destruct Hstep. }
    eapply peer_masked_trans; [exact Hw1|].
    destruct (bytes_Equal (PeerId p) id) eqn:E.
    + apply bytes_Equal_eq in E. subst id.
      destruct (announce_record_uncooperative peerID p w1)
        as (evs & Hp' & Hevs).
      { destruct (same_but_peerMap_fields _ _ Hsame) as (_ & -> & _). done. }
      rewrite Hp' in Hp. injection Hp as <-.
      split; [done|]. by exists evs.
    + apply bytes_Equal_neq in E. apply peer_untouched_masked.
      by eapply record_step_other.
  - exists None, w'. unfold mbind, M_bind. rewrite Hrun.
    split; [done|]. split; [done|].
    unfold calls_since. by rewrite Ht, drop_app_length.
Qed.

Lemma announce_record_keyed (peerID : bytes) (p : DataPeer) (w : World) :
  keyed_by_peer_id (peerMap (engine w)) ->
  exists w',
    announce_record pk peerID p w = Done (tt, w')
    /\ keyed_by_peer_id (peerMap (engine w')).
Proof.
  intros Hkeyed. unfold announce_record. run_M.
  destruct (bytes_Equal (PeerId p) (GetPeerID _)); [by exists w|].
  destruct (negb (bytes_Equal (PeerId p) peerID)); [by exists w|].
  destruct (PublicKey p) as [publicKey|]; [|by exists w].
  destruct (Signature p) as [signature|]; [|by exists w].
  destruct (Version p) as [version|]; [|by exists w].
  destruct (validate_peer_emits pk p publicKey signature version w)
    as (skipped & evs & -> & _).
  destruct skipped; [by eexists|].
  unfold update_peer, time_Now_read. run_M.
  destruct (bool_decide (is_Some (uncooperativePeersMap _ !! _)));
    [by eexists|].
  simpl.
  match goal with |- context [if ?c then _ else _] => destruct c end;
    [by eexists|].
  eexists. split; [reflexivity|]. simpl.
  intros k info. destruct (decide (k = string_of_bytes (PeerId p))) as [->|Hk].
  - rewrite lookup_insert_eq. by intros [= <-].
  - rewrite lookup_insert_ne by done. apply Hkeyed.
Qed.

(** X13.  The peer map stays keyed by peer id: when every entry of the
    peer map is filed under the peer id it carries, this still holds
    after the handler. *)
Theorem handleDataPeerListAnnounce_keeps_keys
  (w : World) (peerID address : bytes) (any : Any) :
  keyed_by_peer_id (peerMap (engine w)) ->
  exists r w',
    handleDataPeerListAnnounce pk peerID address any w = Done (r, w')
    /\ keyed_by_peer_id (peerMap (engine w')).
Proof.
  intros Hkeyed. unfold handleDataPeerListAnnounce.
  destruct (anypb_UnmarshalTo_DataPeerListAnnounce pk any) as [ann|cause];
    [|by eexists _, w].
  destruct (for_range_invariant (announce_record pk peerID)
              (fun w1 => keyed_by_peer_id (peerMap (engine w1)))
              (PeerList ann) w) as (w' & Hrun & Hinv); [done| |].
  - intros p w1 _ Hw1. by apply announce_record_keyed.
  - exists None, w'. unfold mbind, M_bind. by rewrite Hrun.
Qed.

(** X14.  A record that passes the validation and is not held back by the
    version gate is registered: unless the peer is uncooperative or the
    peer map holds a later entry, the handler's loop body raises the score
    of the peer by 10 and files, under the peer id, an entry that carries
    the fields of the record, the multiaddr the pubsub knows, the reading
    of the clock in seconds, and [direct] set. *)
Theorem announce_record_registers
  (w : World) (peerID : bytes) (p : DataPeer) (version : bytes) :
  announcement_validated pk (engine w) peerID p ->
  Version p = Some version ->
  (bytes_Compare version (config_GetMinimumVersion pk) < 0 ->
   Timestamp p <= config_GetMinimumVersionCutoff_UnixMilli pk) ->
  uncooperativePeersMap (engine w) !! string_of_bytes (PeerId p) = None ->
  (forall existing,
     peerMap (engine w) !! string_of_bytes (PeerId p) = Some existing ->
     timestamp existing <= Timestamp p) ->
  exists w' info,
    announce_record pk peerID p w = Done (tt, w')
    /\ peerMap (engine w') !! string_of_bytes (PeerId p) = Some info
    /\ info = peerInfo_of (engine w) peerID p (time_Now pk (time_reads w))
    /\ direct info = true
    /\ calls_since w w' = [SetPeerScore (PeerId p) 10]
    /\ time_reads w' = S (time_reads w).
Proof.
  intros Hval Hver Hgate Hcoop Hwin.
  rewrite (announce_record_validated pk peerID p w version) by done.
  assert ((bytes_Compare version (config_GetMinimumVersion pk) <? 0)
          && (Timestamp p >? config_GetMinimumVersionCutoff_UnixMilli pk)
          = false) as ->.
  { destruct (Z.ltb_spec (bytes_Compare version (config_GetMinimumVersion pk))
                0) as [Hlow|]; [|done].
    simpl. rewrite Z.gtb_ltb. apply Z.ltb_ge. by apply Hgate. }
  pose proof Hval as (_ & Hsender & publicKey & signature & ver & key
                      & Hpub & Hsig & Hver' & _).
  rewrite update_peer_inserts; [|done|by eexists..|done].
  eexists _, _. split; [reflexivity|]. simpl.
  rewrite lookup_insert_eq. split; [done|]. split; [done|].
  split; [by apply bytes_Equal_eq|].
  split; [|done]. unfold calls_since; simpl. by rewrite drop_app_length.
Qed.

End MoreAnnouncements2.

Lemma handleDataPeerListAnnounce_uncooperative_masked_witness :
  let p := Scenario.record_of Scenario.P1 9 3000 Scenario.current in
  let pk := Scenario.packages (Scenario.announce_of [p]) in
  exists r w',
    handleDataPeerListAnnounce pk Scenario.P1 [] Scenario.announce_payload
      Cases.shunning_P1 = Done (r, w')
    /\ peerMap (engine w') !! string_of_bytes Scenario.P1
       = peerMap (engine Cases.shunning_P1) !! string_of_bytes Scenario.P1
    /\ Forall (fun ev => is_raise_for Scenario.P1 ev = false)
         (calls_since Cases.shunning_P1 w').
Proof.
  intros p pk.
  apply (handleDataPeerListAnnounce_uncooperative_masked pk
           Cases.shunning_P1 Scenario.P1 [] Scenario.announce_payload
           Scenario.P1).
  by eexists.
Defined.

Lemma handleDataPeerListAnnounce_keeps_keys_witness :
  let p := Scenario.record_of Scenario.P1 9 3000 Scenario.current in
  let pk := Scenario.packages (Scenario.announce_of [p]) in
  let w := Scenario.knowing
             [(string_of_bytes Scenario.P1, Scenario.P1_at_2000)] in
  exists r w',
    handleDataPeerListAnnounce pk Scenario.P1 [] Scenario.announce_payload w
    = Done (r, w')
    /\ keyed_by_peer_id (peerMap (engine w')).
Proof.
  intros p pk w.
  apply (handleDataPeerListAnnounce_keeps_keys pk w Scenario.P1 []
           Scenario.announce_payload).
  intros k info Hk.
  destruct (decide (k = string_of_bytes Scenario.P1)) as [->|Hne].
  - vm_compute in Hk. by injection Hk as <-.
  - unfold w, Scenario.knowing in Hk. simpl in Hk.
    rewrite lookup_insert_ne in Hk by done. done.
Defined.

Lemma announce_record_registers_witness :
  let p := Scenario.record_of Scenario.P1 9 3000 Scenario.current in
  exists w' info,
    announce_record Scenario.pk0 Scenario.P1 p Scenario.world0
    = Done (tt, w')
    /\ peerMap (engine w') !! string_of_bytes Scenario.P1 = Some info
    /\ info = peerInfo_of Scenario.engine0 Scenario.P1 p 5000000
    /\ direct info = true
    /\ calls_since Scenario.world0 w' = [SetPeerScore Scenario.P1 10]
    /\ time_reads w' = 1%nat.
Proof.
  intros p.
  apply (announce_record_registers Scenario.pk0 Scenario.world0 Scenario.P1
           p Scenario.current).
  - split; [vm_compute; discriminate|]. split; [reflexivity|].
    eexists _, _, _, _. repeat split; try reflexivity.
  - reflexivity.
  - vm_compute. discriminate.
  - reflexivity.
  - intros existing H. vm_compute in H. discriminate H.
Defined.

Section MoreWorkers2.

Context (pk : Packages) (urls : TypeUrls).

Lemma info_step_refl (w : World) : info_step w w.
Proof.
  split; [apply same_but_peerMap_refl|]. repeat split; try done.
  exists []. by rewrite app_nil_r.
Qed.

Lemma info_step_trans (w1 w2 w3 : World) :
  info_step w1 w2 -> info_step w2 w3 -> info_step w1 w3.
Proof.
  intros (He & Hh & Hr & evs & Ht & Hev) (He' & Hh' & Hr' & evs' & Ht' & Hev').
  split; [by eapply same_but_peerMap_trans|].
  split; [congruence|]. split; [congruence|].
  exists (evs ++ evs'). rewrite Ht', Ht, app_assoc. split; [done|].
  by apply Forall_app.
Qed.

Lemma info_step_logs (w : World) (evs : list Event) :
  Forall (fun ev => is_log_or_score ev = true) evs ->
  info_step w (emitted w evs).
Proof.
  intros H. split; [apply same_but_peerMap_refl|]. repeat split; try done.
  by exists evs.
Qed.

Lemma announce_step_info (peerID : bytes) (w w' : World) :
  announce_step peerID w w' -> info_step w w'.
Proof.
  intros (He & _ & Hh & Hr & evs & Ht & Hev).
  split; [done|]. split; [done|]. split; [done|].
  exists evs. split; [done|].
  eapply Forall_impl; [exact Hev|]. by intros [].
Qed.

Lemma infoMessageHandler_turn_step (message : pb_Message) (w : World) :
  exists w',
    infoMessageHandler_turn pk urls message w = Done (tt, w')
    /\ info_step w w'.
Proof.
  unfold infoMessageHandler_turn.
  unfold mbind at 1, M_bind at 1. rewrite emit_emitted.
  destruct (proto_Unmarshal_Message pk (Data message)) as [msg|err].
  2:{ rewrite emit_emitted, emitted_emitted. eexists. split; [done|].
      apply info_step_logs. by repeat constructor. }
  destruct (proto_Unmarshal_Any pk (Payload msg)) as [any|err].
  2:{ rewrite emit_emitted, emitted_emitted. eexists. split; [done|].
      apply info_step_logs. by repeat constructor. }
  unfold mbind at 1, M_bind at 1. rewrite emit_emitted, emitted_emitted.
  destruct (String.eqb (TypeUrl any)
              (protobufs_DataPeerListAnnounceType urls)).
  2:{ eexists. split; [done|]. apply info_step_logs. by repeat constructor. }
  unfold mbind, M_bind, mret, M_ret. cbn [app].
  destruct (handleDataPeerListAnnounce_step pk
              (emitted w [Log DebugLevel "handling info message";
                          Log DebugLevel "message type"])
              (From message) (Message_Address msg) any)
    as (r & w' & -> & Hstep & _).
  exists w'. split; [done|].
  eapply info_step_trans; [|by eapply announce_step_info].
  apply info_step_logs. by repeat constructor.
Qed.

(** X15.  The worker of the info queue completes on every sequence of
    messages: no message makes it panic.  It changes the engine in the
    peer map only, leaves the store and the entropy as they were, and its
    calls are logs and scores: it makes no call on the time reel, the
    frame prover, the execution engines or the pubsub transport, whatever
    the type of the payloads. *)
Theorem runInfoMessageHandler_total (delivered : list pb_Message) (w : World) :
  exists w',
    runInfoMessageHandler pk urls delivered w = Done (tt, w')
    /\ same_but_peerMap (engine w) (engine w')
    /\ staged_requests (engine w') = staged_requests (engine w)
    /\ heap w' = heap w /\ entropy w' = entropy w
    /\ Forall (fun ev => is_log_or_score ev = true) (calls_since w w').
Proof.
  destruct (for_range_invariant (infoMessageHandler_turn pk urls)
              (info_step w) delivered w)
    as (w' & Hrun & Hsame & Hh & Hr & evs & Ht & Hevs).
  - apply info_step_refl.
  - intros message w1 _ Hw1.
    destruct (infoMessageHandler_turn_step message w1) as (w2 & Hturn & Hstep).
    exists w2. split; [done|]. by eapply info_step_trans.
  - exists w'. split; [done|]. split; [done|].
    split.
    { destruct (same_but_peerMap_fields _ _ Hsame) as (_&_&_&_&_&Hst).
      unfold staged_requests. by rewrite Hst. }
    split; [done|]. split; [done|].
    unfold calls_since. by rewrite Ht, drop_app_length.
Qed.

End MoreWorkers2.

(** ** The worker of the tx queue with the gate open *)

Section MoreTxWorker.

Context (pk : Packages).

Lemma same_but_staged_trans (e1 e2 e3 : DataClockConsensusEngine) :
  same_but_staged e1 e2 -> same_but_staged e2 e3 -> same_but_staged e1 e3.
Proof.
  unfold same_but_staged. intros H12 H23. rewrite H23 at 1.
  rewrite H12 at 1. by destruct e1.
Qed.

Lemma same_but_staged_fields (e e' : DataClockConsensusEngine) :
  same_but_staged e e' ->
  executionEngines e' = executionEngines e
  /\ frameProverTries e' = frameProverTries e
  /\ provingKeyAddress e' = provingKeyAddress e
  /\ syncingStatus e' = syncingStatus e
  /\ peerMap e' = peerMap e.
Proof. intros ->. by destruct e. Qed.

Lemma tx_step_refl (w : World) : tx_step [] w w.
Proof.
  split; [apply same_but_staged_refl|]. split.
  - exists []. by rewrite app_nil_r.
  - exists []. by rewrite app_nil_r.
Qed.

Lemma tx_step_trans (c1 c2 : list Event) (w1 w2 w3 : World) :
  tx_step c1 w1 w2 -> tx_step c2 w2 w3 -> tx_step (c1 ++ c2) w1 w3.
Proof.
  intros (He & [a Ha] & evs & Ht & Hev) (He' & [a' Ha'] & evs' & Ht' & Hev').
  split; [by eapply same_but_staged_trans|]. split.
  - exists (a ++ a'). by rewrite Ha', Ha, app_assoc.
  - exists (evs ++ evs'). rewrite Ht', Ht, app_assoc. split; [done|].
    by rewrite filter_app, Hev, Hev'.
Qed.

Lemma tx_step_emitted (w : World) (evs : list Event) :
  tx_step (filter (fun ev => is_engine_call ev = true) evs) w (emitted w evs).
Proof.
  split; [apply same_but_staged_refl|]. split.
  - exists []. by rewrite app_nil_r.
  - by exists evs.
Qed.

Lemma handleTokenRequest_tx_step (t : TokenRequest) (w w' : World)
  (r : option error) :
  handleTokenRequest t w = Done (r, w') -> tx_step [] w w'.
Proof.
  intros (_ & Hsame & _ & _ & Htrace & Hstaged)%handleTokenRequest_effect.
  split; [done|]. split.
  - destruct Hstaged as [->|[-> _]]; [exists []|by eexists].
    by rewrite app_nil_r.
  - exists []. by rewrite app_nil_r.
Qed.

Lemma stage_app_message_step (name : string) (appMessage : Message)
  (w w' : World) :
  stage_app_message pk name appMessage w = Done (tt, w') -> tx_step [] w w'.
Proof.
  unfold stage_app_message.
  destruct (proto_Unmarshal_Any pk (Payload appMessage)) as [appMsg|err].
  2:{ rewrite emit_emitted. intros [= <-].
      apply (tx_step_emitted w [Log ErrorLevel _]). }
  unfold mbind at 1, M_bind at 1. rewrite emit_emitted.
  destruct (String.eqb _ _).
  2:{ intros [= <-]. apply (tx_step_emitted w [Log DebugLevel _]). }
  destruct (proto_Unmarshal_TokenRequest pk (Value appMsg)) as [t|err].
  2:{ intros [= <-]. apply (tx_step_emitted w [Log DebugLevel _]). }
  unfold mbind, M_bind, mret, M_ret.
  destruct (handleTokenRequest t _) as [[r w1]|] eqn:Hrun; [|done].
  intros [= <-]. apply handleTokenRequest_tx_step in Hrun.
  apply (tx_step_trans [] [] _ _ _ (tx_step_emitted w [Log DebugLevel _])
           Hrun).
Qed.

Lemma stage_app_messages_step (name : string) (messages : list Message)
  (w w' : World) :
  for_range (stage_app_message pk name) messages w = Done (tt, w') ->
  tx_step [] w w'.
Proof.
  intros Hrun.
  apply (for_range_Done (stage_app_message pk name) (tx_step [] w)
           messages w w' Hrun).
  - apply tx_step_refl.
  - intros m w1 w2 _ Hw1 Hm. apply stage_app_message_step in Hm.
    apply (tx_step_trans [] [] _ _ _ Hw1 Hm).
Qed.

Lemma process_with_engine_step (msg : Message) (name : string)
  (w w' : World) :
  process_with_engine pk msg name w = Done (tt, w') ->
  tx_step [ProcessMessageCall name (application_TOKEN_ADDRESS pk) msg] w w'.
Proof.
  unfold process_with_engine, mbind, M_bind, gets, lift.
  destruct (executionEngines (engine w) !! name) as [eng|]; [|done].
  cbn [deref]. rewrite emit_emitted.
  destruct (ProcessMessage eng _ msg) as [messages|err].
  - intros Hrun%stage_app_messages_step.
    apply (tx_step_trans [_] [] _ _ _
             (tx_step_emitted w [ProcessMessageCall name _ msg]) Hrun).
  - rewrite emit_emitted, emitted_emitted. intros [= <-].
    apply (tx_step_emitted w [ProcessMessageCall name _ msg; Log _ _]).
Qed.

Lemma process_with_engines_step (msg : Message) (names : list string)
  (w w' : World) :
  for_range (process_with_engine pk msg) names w = Done (tt, w') ->
  tx_step (map (fun name =>
                  ProcessMessageCall name (application_TOKEN_ADDRESS pk) msg)
             names) w w'.
Proof.
  revert w. induction names as [|name names IH]; intros w; simpl.
  - intros [= <-]. apply tx_step_refl.
  - unfold mbind, M_bind.
    destruct (process_with_engine pk msg name w) as [[[] w1]|] eqn:Hname;
      [|done].
    intros Hrest. apply process_with_engine_step in Hname.
    apply IH in Hrest.
    apply (tx_step_trans [_] _ _ _ _ Hname Hrest).
Qed.

Lemma txMessageHandler_turn_step
  (message : pb_Message) (msg : Message) (w w' : World)
  (trie : ProverTrie) (tries : list ProverTrie) :
  proto_Unmarshal_Message pk (Data message) = inl msg ->
  frameProverTries (engine w) = trie :: tries ->
  Contains trie (provingKeyAddress (engine w)) = true ->
  syncingStatus (engine w) = SyncStatusNotSyncing ->
  txMessageHandler_turn pk message w = Done (tt, w') ->
  filter (fun ev => is_engine_call ev = true) (calls_since w w')
  = map (fun name =>
           ProcessMessageCall name (application_TOKEN_ADDRESS pk) msg)
      (map fst (map_to_list (executionEngines (engine w))))
  /\ same_but_staged (engine w) (engine w')
  /\ exists added,
       staged_requests (engine w') = staged_requests (engine w) ++ added.
Proof.
  intros Hmsg Htries Hin Hsync.
  unfold txMessageHandler_turn.
  unfold mbind at 1, M_bind at 1. rewrite emit_emitted, Hmsg.
  unfold mbind at 1, M_bind at 1, gets.
  cbn [engine emitted]. rewrite Htries.
  unfold mbind at 1, M_bind at 1, lift. cbn [index0].
  rewrite Hin, Hsync. cbn [andb SyncStatus_eqb].
  unfold mbind at 1, M_bind at 1.
  destruct (for_range (process_with_engine pk msg) _ _)
    as [[[] w1]|] eqn:Hrun; [|done].
  apply process_with_engines_step in Hrun.
  intros Hlast.
  assert (exists ev, w' = emitted w1 [ev] /\ is_engine_call ev = false)
    as (ev & -> & Hev).
  { destruct (proto_Unmarshal_Any pk (Payload msg));
      rewrite emit_emitted in Hlast; injection Hlast as <-; by eexists. }
  pose proof (tx_step_trans _ _ _ _ _
                (tx_step_trans _ _ _ _ _
                   (tx_step_emitted w [Log DebugLevel "handling tx message"])
                   Hrun)
                (tx_step_emitted w1 [ev]))
    as (Hsame & Hadded & evs & Ht & Hcalls).
  split; [|by split].
  unfold calls_since. rewrite Ht, drop_app_length, Hcalls.
  cbn [filter]. rewrite app_nil_l.
  assert (filter (fun ev => is_engine_call ev = true) [ev] = []) as ->.
  { rewrite filter_cons_False by (by rewrite Hev). done. }
  by rewrite app_nil_r.
Qed.

(** X16.  With the gate open, the worker of the tx queue hands a message
    that decodes to every execution engine, once: when the turn
    completes, its calls on the engines are, in some order, one
    [ProcessMessage] per engine of the node, each with the token address
    and the decoded envelope.  The turn changes the engine in the staged
    requests only, and there it only appends. *)
Theorem txMessageHandler_turn_open
  (message : pb_Message) (msg : Message) (w w' : World)
  (trie : ProverTrie) (tries : list ProverTrie) :
  proto_Unmarshal_Message pk (Data message) = inl msg ->
  frameProverTries (engine w) = trie :: tries ->
  Contains trie (provingKeyAddress (engine w)) = true ->
  syncingStatus (engine w) = SyncStatusNotSyncing ->
  txMessageHandler_turn pk message w = Done (tt, w') ->
  Permutation
    (filter (fun ev => is_engine_call ev = true) (calls_since w w'))
    (map (fun name =>
            ProcessMessageCall name (application_TOKEN_ADDRESS pk) msg)
       (map fst (map_to_list (executionEngines (engine w)))))
  /\ same_but_staged (engine w) (engine w')
  /\ exists added,
       staged_requests (engine w') = staged_requests (engine w) ++ added.
Proof.
  intros Hmsg Htries Hin Hsync Hrun.
  destruct (txMessageHandler_turn_step message msg w w' trie tries
              Hmsg Htries Hin Hsync Hrun) as (-> & Hsame & Hadded).
  done.
Qed.

End MoreTxWorker.

Lemma txMessageHandler_turn_open_witness :
  let message := Scenario.wire_of (Scenario.transfer_of (Scenario.b "coinX")) in
  exists w' msg,
    txMessageHandler_turn Scenario.pk0 message Scenario.world0 = Done (tt, w')
    /\ proto_Unmarshal_Message Scenario.pk0 (Data message) = inl msg
    /\ Permutation
         (filter (fun ev => is_engine_call ev = true)
            (calls_since Scenario.world0 w'))
         [ProcessMessageCall "token" (Scenario.b "token") msg]
    /\ same_but_staged (engine Scenario.world0) (engine w')
    /\ exists added,
         staged_requests (engine w')
         = staged_requests (engine Scenario.world0) ++ added.
Proof.
  intros message.
  assert (exists w',
            txMessageHandler_turn Scenario.pk0 message Scenario.world0
            = Done (tt, w')) as (w' & Hrun).
  { eexists. vm_compute. reflexivity. }
  assert (exists msg,
            proto_Unmarshal_Message Scenario.pk0 (Data message) = inl msg)
    as (msg & Hmsg).
  { eexists. vm_compute. reflexivity. }
  exists w', msg. split; [exact Hrun|]. split; [exact Hmsg|].
  apply (txMessageHandler_turn_open Scenario.pk0 message msg Scenario.world0
           w' Scenario.trieA [] Hmsg eq_refl eq_refl eq_refl Hrun).
Defined.

(** ** [insertTxMessage] *)

Section MoreInsert.

Context (pk : Packages).

Lemma insertTxMessage_run
  (filter : bytes) (message : loc) (w w' : World)
  (r : option error) (sent : option pb_Message) :
  insertTxMessage pk filter message w = Done ((r, sent), w') ->
  w' = w
  /\ exists x,
       heap w !! message = Some x
       /\ match envelope_of pk (provingKeyAddress (engine w)) x with
          | inl msg =>
              match proto_Marshal_Message pk msg with
              | inl data =>
                  r = None
                  /\ sent = Some {| Data := data; Bitmask := filter;
                                    From := GetPeerID (pubSub (engine w));
                                    Seqno := None |}
              | inr err =>
                  r = Some (errors_Wrap err "publish message")
                  /\ sent = None
              end
          | inr err => r = Some err /\ sent = None
          end.
Proof.
  unfold insertTxMessage, load.
  unfold mbind, M_bind, mret, M_ret, gets, lift.
  destruct (heap w !! message) as [x|]; [|done]. cbn [deref].
  intros Hrun. assert (w' = w /\ exists x', Some x = Some x' /\
    match envelope_of pk (provingKeyAddress (engine w)) x' with
    | inl msg =>
        match proto_Marshal_Message pk msg with
        | inl data =>
            r = None
            /\ sent = Some {| Data := data; Bitmask := filter;
                              From := GetPeerID (pubSub (engine w));
                              Seqno := None |}
        | inr err =>
            r = Some (errors_Wrap err "publish message") /\ sent = None
        end
    | inr err => r = Some err /\ sent = None
    end); [|done].
  revert Hrun. unfold envelope_of.
  destruct (anypb_MarshalFrom pk x) as [any|err] eqn:Hany.
  2:{ intros [= <- <- <-]. split; [done|]. exists x. split; [done|].
      by rewrite Hany. }
  destruct (proto_Marshal_Any pk _) as [payload|err] eqn:Hpayload.
  2:{ intros [= <- <- <-]. split; [done|]. exists x. split; [done|].
      by rewrite Hany, Hpayload. }
  destruct (poseidon_HashBytes pk payload) as [h|err] eqn:Hh.
  2:{ intros [= <- <- <-]. split; [done|]. exists x. split; [done|].
      by rewrite Hany, Hpayload, Hh. }
  destruct (proto_Marshal_Message pk _) as [data|err] eqn:Hdata.
  - intros [= <- <- <-]. split; [done|]. exists x. split; [done|].
    by rewrite Hany, Hpayload, Hh, Hdata.
  - intros [= <- <- <-]. split; [done|]. exists x. split; [done|].
    by rewrite Hany, Hpayload, Hh, Hdata.
Qed.

(** X17.  [insertTxMessage] builds the envelope of [publishMessage]
    around the message as it is, without a nonce, and hands it to the tx
    queue instead of the pubsub.  When it completes the world is as it
    was (no call, no byte of entropy drawn, no object written); it
    returns nil exactly when it sends a message, and the message it sends
    carries the marshaled envelope, the filter, and the peer id of the
    node as sender. *)
Theorem insertTxMessage_envelope
  (filter : bytes) (message : loc) (w w' : World)
  (r : option error) (sent : option pb_Message) :
  insertTxMessage pk filter message w = Done ((r, sent), w') ->
  w' = w
  /\ exists x,
       heap w !! message = Some x
       /\ match envelope_of pk (provingKeyAddress (engine w)) x with
          | inl msg =>
              match proto_Marshal_Message pk msg with
              | inl data =>
                  r = None
                  /\ sent = Some {| Data := data; Bitmask := filter;
                                    From := GetPeerID (pubSub (engine w));
                                    Seqno := None |}
              | inr err =>
                  r = Some (errors_Wrap err "publish message")
                  /\ sent = None
              end
          | inr err => r = Some err /\ sent = None
          end.
Proof. exact (insertTxMessage_run filter message w w' r sent). Qed.

(** X18.  Loopback.  On a wire format that decodes the envelopes it
    encodes, the message [insertTxMessage] sends is the envelope of the
    inserted message again when the worker of the tx queue takes it, and,
    on a prover that is not syncing, the worker hands that envelope to
    every execution engine, once, in some order. *)
Theorem insertTxMessage_loopback
  (bitmask : bytes) (message : loc) (x : proto_Message) (w w' : World)
  (sent : pb_Message) (trie : ProverTrie) (tries : list ProverTrie) :
  (forall m d, proto_Marshal_Message pk m = inl d ->
               proto_Unmarshal_Message pk d = inl m) ->
  heap w !! message = Some x ->
  insertTxMessage pk bitmask message w = Done ((None, Some sent), w) ->
  frameProverTries (engine w) = trie :: tries ->
  Contains trie (provingKeyAddress (engine w)) = true ->
  syncingStatus (engine w) = SyncStatusNotSyncing ->
  txMessageHandler_turn pk sent w = Done (tt, w') ->
  exists msg,
    envelope_of pk (provingKeyAddress (engine w)) x = inl msg
    /\ proto_Unmarshal_Message pk (Data sent) = inl msg
    /\ Permutation
         (filter (fun ev => is_engine_call ev = true) (calls_since w w'))
         (map (fun name =>
                 ProcessMessageCall name (application_TOKEN_ADDRESS pk) msg)
            (map fst (map_to_list (executionEngines (engine w))))).
Proof.
  intros Hcodec Hx Hinsert Htries Hin Hsync Hturn.
  apply insertTxMessage_run in Hinsert.
  destruct Hinsert as (_ & x' & Hx' & Henv).
  assert (x' = x) as -> by congruence.
  destruct (envelope_of pk (provingKeyAddress (engine w)) x) as [msg|err];
    [|by destruct Henv].
  destruct (proto_Marshal_Message pk msg) as [data|err] eqn:Hdata;
    [|by destruct Henv].
  destruct Henv as [_ [= ->]]. exists msg. split; [done|].
  pose proof (Hcodec msg data Hdata) as Hdecode. split; [exact Hdecode|].
  by destruct (txMessageHandler_turn_step pk
                 {| Data := data; Bitmask := bitmask;
                    From := GetPeerID (pubSub (engine w)); Seqno := None |}
                 msg w w' trie tries Hdecode Htries Hin Hsync Hturn)
    as (-> & _).
Qed.

End MoreInsert.

Lemma Scenario_unframed_framed (x r : bytes) :
  (length x < 256)%nat ->
  Scenario.unframed (byte_of_Z (Z.of_nat (length x)) :: x ++ r)
  = Some (x, r).
Proof.
  intros Hx. unfold Scenario.unframed.
  rewrite to_N_byte_of_Z, Z.mod_small by lia.
  rewrite Z_N_nat, Nat2Z.id.
  destruct (length (x ++ r) <? length x)%nat eqn:Hlen.
  - apply Nat.ltb_lt in Hlen. rewrite length_app in Hlen. lia.
  - by rewrite take_app_length, drop_app_length.
Qed.

Lemma Scenario_message_codec (ann : DataPeerListAnnounce) (m : Message)
  (d : bytes) :
  proto_Marshal_Message (Scenario.packages ann) m = inl d ->
  proto_Unmarshal_Message (Scenario.packages ann) d = inl m.
Proof.
  cbn [proto_Marshal_Message proto_Unmarshal_Message Scenario.packages].
  unfold Scenario.marshal_message, Scenario.unmarshal_message.
  destruct (length (Hash m) <? 256)%nat eqn:Hh; [|done].
  destruct (length (Message_Address m) <? 256)%nat eqn:Ha; [|done].
  cbn [andb]. intros [= <-]. apply Nat.ltb_lt in Hh, Ha.
  rewrite (Scenario_unframed_framed _ _ Hh).
  rewrite (Scenario_unframed_framed _ _ Ha). by destruct m.
Qed.

Lemma insertTxMessage_envelope_witness :
  let t := Scenario.transfer_of (Scenario.b "coinX") in
  let w := Scenario.requesting t [] in
  exists r sent w',
    insertTxMessage Scenario.pk0 (Scenario.b "tx") 0%nat w
    = Done ((r, sent), w')
    /\ w' = w
    /\ exists x,
         heap w !! 0%nat = Some x
         /\ match envelope_of Scenario.pk0 (provingKeyAddress (engine w)) x
            with
            | inl msg =>
                match proto_Marshal_Message Scenario.pk0 msg with
                | inl data =>
                    r = None
                    /\ sent = Some {| Data := data;
                                      Bitmask := Scenario.b "tx";
                                      From := GetPeerID (pubSub (engine w));
                                      Seqno := None |}
                | inr err =>
                    r = Some (errors_Wrap err "publish message")
                    /\ sent = None
                end
            | inr err => r = Some err /\ sent = None
            end.
Proof.
  intros t w.
  assert (exists r sent w',
            insertTxMessage Scenario.pk0 (Scenario.b "tx") 0%nat w
            = Done ((r, sent), w')) as (r & sent & w' & Hrun).
  { eexists _, _, _. vm_compute. reflexivity. }
  exists r, sent, w'. split; [exact Hrun|].
  exact (insertTxMessage_envelope Scenario.pk0 (Scenario.b "tx") 0%nat w w'
           r sent Hrun).
Defined.

Lemma insertTxMessage_loopback_witness :
  let t := Scenario.transfer_of (Scenario.b "coinX") in
  let w := Scenario.requesting t [] in
  exists sent w' msg,
    insertTxMessage Scenario.pk0 (Scenario.b "tx") 0%nat w
    = Done ((None, Some sent), w)
    /\ txMessageHandler_turn Scenario.pk0 sent w = Done (tt, w')
    /\ envelope_of Scenario.pk0 (provingKeyAddress (engine w))
         (MsgTokenRequest t) = inl msg
    /\ proto_Unmarshal_Message Scenario.pk0 (Data sent) = inl msg
    /\ Permutation
         (filter (fun ev => is_engine_call ev = true) (calls_since w w'))
         [ProcessMessageCall "token" (Scenario.b "token") msg].
Proof.
  intros t w.
  assert (exists sent,
            insertTxMessage Scenario.pk0 (Scenario.b "tx") 0%nat w
            = Done ((None, Some sent), w)) as (sent & Hinsert).
  { eexists. vm_compute. reflexivity. }
  assert (exists w', txMessageHandler_turn Scenario.pk0 sent w
                     = Done (tt, w')) as (w' & Hturn).
  { apply (f_equal (fun o => match o with
                             | Done ((_, Some s), _) => s
                             | _ => sent
                             end)) in Hinsert.
    vm_compute in Hinsert. subst sent. eexists. vm_compute. reflexivity. }
  exists sent, w'.
  destruct (insertTxMessage_loopback Scenario.pk0 (Scenario.b "tx") 0%nat
              (MsgTokenRequest t) w w' sent Scenario.trieA []
              (Scenario_message_codec Scenario.no_announce)
              eq_refl Hinsert eq_refl eq_refl eq_refl Hturn)
    as (msg & Henv & Hdecode & Hcalls).
  exists msg. split; [exact Hinsert|]. split; [exact Hturn|].
  split; [exact Henv|]. split; [exact Hdecode|exact Hcalls].
Defined.
(** ** [publishMessage] and [autononce] *)

Section MorePublishing.

Context (pk : Packages).

Lemma Add_without_entropy (message : loc) (t : TokenRequest) (w : World) :
  heap w !! message = Some (MsgTokenRequest t) ->
  (length (entropy w) < 32)%nat ->
  autononce.Add message w = Panic "crypto/rand: read failed".
Proof.
  intros Ht Hrand.
  unfold autononce.Add, autononce.clone, autononce.AddTokenRequest,
    load, alloc, store, set_heap, rand_Read.
  unfold mbind, mret, M_bind, M_ret, lift, gets, panic.
  cbn -[make_bytes take drop]. rewrite Ht.
  cbn -[make_bytes take drop]. rewrite Ht.
  cbn -[make_bytes take drop]. rewrite list_lookup_middle by done.
  cbn -[make_bytes take drop].
  rewrite !length_app. cbn [length].
  destruct (decide (length (heap w) < length (heap w) + 1)%nat); [|lia].
  cbn -[make_bytes take drop].
  assert ((length (entropy w) <=? 31)%nat = true) as ->
    by (apply Nat.leb_le; lia).
  reflexivity.
Qed.

Lemma publishMessage_after_Add (filter : bytes) (message m : loc)
  (x : proto_Message) (w w1 w' : World) (r : option error) :
  autononce.Add message w = Done (m, w1) ->
  heap w1 !! m = Some x ->
  publishMessage pk filter message w = Done (r, w') ->
  match envelope_of pk (provingKeyAddress (engine w1)) x with
  | inl msg =>
      match proto_Marshal_Message pk msg with
      | inl data =>
          r = PublishToBitmask (pubSub (engine w1)) filter data
          /\ w' = emitted w1 [PublishToBitmaskCall filter data]
      | inr err => r = Some (errors_Wrap err "publish message") /\ w' = w1
      end
  | inr err => r = Some err /\ w' = w1
  end.
Proof.
  intros HAdd Hx. unfold publishMessage.
  unfold mbind at 1. unfold M_bind at 1. rewrite HAdd.
  unfold load. unfold mbind, mret, M_bind, M_ret, lift, gets, emit.
  rewrite Hx. cbn [deref]. unfold envelope_of.
  destruct (anypb_MarshalFrom pk x) as [any|err]; [|by intros [= <- <-]].
  destruct (proto_Marshal_Any pk _) as [payload|err];
    [|by intros [= <- <-]].
  destruct (poseidon_HashBytes pk payload) as [h|err];
    [|by intros [= <- <-]].
  destruct (proto_Marshal_Message pk _) as [data|err];
    by intros [= <- <-].
Qed.

(** X19.  [publishMessage] publishes the envelope of its message, at most
    once and on the filter it is given.  When it completes, the engine
    and the caller's message are as they were; when the message cannot
    be wrapped or marshaled, the error comes back wrapped as
    "publish message" and nothing is published; otherwise the envelope is
    published once, and the result of the pubsub comes back as it is.
    The envelope is that of the message itself, or, for a token request,
    of its copy with the next 32 bytes of the random source as nonce. *)
Theorem publishMessage_publishes_envelope
  (bitmask : bytes) (message : loc) (x : proto_Message) (w w' : World)
  (r : option error) :
  heap w !! message = Some x ->
  publishMessage pk bitmask message w = Done (r, w') ->
  engine w' = engine w
  /\ heap w' !! message = Some x
  /\ match envelope_of pk (provingKeyAddress (engine w))
             (published_object x (take 32 (entropy w))) with
     | inl msg =>
         match proto_Marshal_Message pk msg with
         | inl data =>
             r = PublishToBitmask (pubSub (engine w)) bitmask data
             /\ calls_since w w' = [PublishToBitmaskCall bitmask data]
         | inr err =>
             r = Some (errors_Wrap err "publish message")
             /\ calls_since w w' = []
         end
     | inr err => r = Some err /\ calls_since w w' = []
     end.
Proof.
  intros Hx Hrun.
  destruct (is_token_request x) eqn:Hkind.
  - destruct x as [t| |]; try done. cbn [published_object].
    destruct (decide (32 <= length (entropy w))%nat) as [Hrand|Hrand].
    + pose proof (publishMessage_after_Add bitmask message _
                    (MsgTokenRequest (with_nonce t (take 32 (entropy w))))
                    w _ w' r (Add_token_request message t w Hx Hrand)) as H.
      cbn [heap engine nonce_added] in H.
      specialize (H (list_lookup_middle _ _ _ _ eq_refl) Hrun).
      destruct (envelope_of pk _ _) as [msg|err].
      * destruct (proto_Marshal_Message pk msg) as [data|err];
          destruct H as [-> ->]; cbn [engine heap emitted nonce_added];
          (split; [done|]);
          (split; [by apply lookup_app_l_Some|]); (split; [done|]).
        -- unfold calls_since. cbn [trace emitted nonce_added].
           by rewrite drop_app_length.
        -- unfold calls_since. cbn [trace nonce_added]. by rewrite drop_all.
      * destruct H as [-> ->]. cbn [engine heap nonce_added].
        split; [done|]. split; [by apply lookup_app_l_Some|].
        split; [done|].
        unfold calls_since. cbn [trace nonce_added]. by rewrite drop_all.
    + unfold publishMessage in Hrun.
      unfold mbind at 1 in Hrun. unfold M_bind at 1 in Hrun.
      rewrite (Add_without_entropy message t w Hx) in Hrun by lia. done.
  - assert (published_object x (take 32 (entropy w)) = x) as ->
      by (by destruct x).
    pose proof (publishMessage_after_Add bitmask message message x w w w' r
                  (Add_other message x w Hx Hkind) Hx Hrun) as H.
    destruct (envelope_of pk _ _) as [msg|err].
    + destruct (proto_Marshal_Message pk msg) as [data|err];
        destruct H as [-> ->]; cbn [engine heap emitted];
        (split; [done|]); (split; [done|]); (split; [done|]).
      * apply calls_since_emitted.
      * unfold calls_since. by rewrite drop_all.
    + destruct H as [-> ->]. split; [done|]. split; [done|].
      split; [done|]. unfold calls_since. by rewrite drop_all.
Qed.


End MorePublishing.
Lemma publishMessage_publishes_envelope_witness :
  let t := Scenario.transfer_of (Scenario.b "coinX") in
  let w := Scenario.requesting t (repeat x01 32) in
  exists r w',
    publishMessage Scenario.pk0 (Scenario.b "tx") 0%nat w = Done (r, w')
    /\ engine w' = engine w
    /\ heap w' !! 0%nat = Some (MsgTokenRequest t)
    /\ match envelope_of Scenario.pk0 (provingKeyAddress (engine w))
               (published_object (MsgTokenRequest t) (take 32 (entropy w)))
       with
       | inl msg =>
           match proto_Marshal_Message Scenario.pk0 msg with
           | inl data =>
               r = PublishToBitmask (pubSub (engine w)) (Scenario.b "tx")
                     data
               /\ calls_since w w'
                  = [PublishToBitmaskCall (Scenario.b "tx") data]
           | inr err =>
               r = Some (errors_Wrap err "publish message")
               /\ calls_since w w' = []
           end
       | inr err => r = Some err /\ calls_since w w' = []
       end.
Proof.
  intros t w.
  assert (exists r w',
            publishMessage Scenario.pk0 (Scenario.b "tx") 0%nat w
            = Done (r, w')) as (r & w' & Hrun).
  { eexists _, _. vm_compute. reflexivity. }
  exists r, w'. split; [exact Hrun|].
  exact (publishMessage_publishes_envelope Scenario.pk0 (Scenario.b "tx")
           0%nat (MsgTokenRequest t) w w' r eq_refl Hrun).
Defined.

(** ** [publishProof] *)

Section MoreProofs.

Context (pk : Packages).

Lemma publishProof_overflow
  (frame : loc) (f : ClockFrame) (w : World) :
  heap w !! frame = Some (MsgClockFrame f) ->
  (256 < length (big_Bytes (GetTotalDistance (dataTimeReel (engine w)))))%nat ->
  publishProof pk frame w = Panic "math/big: buffer too small to fit value".
Proof.
  intros Hframe Hbig.
  unfold publishProof, load, time_Now_read, alloc.
  unfold mbind, mret, M_bind, M_ret, lift, gets, emit, modify_engine.
  cbn [heap engine entropy time_reads trace deref].
  rewrite Hframe. cbn [deref]. unfold big_FillBytes.
  unfold make_bytes. rewrite repeat_length.
  assert ((256 <? length (big_Bytes (GetTotalDistance
             (dataTimeReel (engine w)))))%nat = true) as ->
    by (by apply Nat.ltb_lt).
  reflexivity.
Qed.


Lemma publishProof_run (frame : loc) (f : ClockFrame) (w w' : World)
  (r : option error) :
  heap w !! frame = Some (MsgClockFrame f) ->
  publishProof pk frame w = Done (r, w') ->
  exists evs, w' = emitted (self_announced pk f w) evs.
Proof.
  intros Hframe Hrun.
  destruct (decide (length (big_Bytes (GetTotalDistance
              (dataTimeReel (engine w)))) <= 256)%nat) as [Hfit|Hbig].
  2:{ rewrite (publishProof_overflow frame f w Hframe) in Hrun
        by lia. done. }
  rewrite (publishProof_publishes pk w frame f Hframe Hfit) in Hrun.
  unfold mbind, M_bind in Hrun.
  destruct (publishMessage_other pk (infoFilter (engine w)) (length (heap w))
              (MsgDataPeerListAnnounce
                 {| PeerList := [];
                    Peer := Some
                      {| PeerId := []; Multiaddr := "";
                         MaxFrame := FrameNumber f;
                         Version := config_GetVersion pk;
                         Timestamp := UnixMilli (time_Now pk (time_reads w));
                         TotalDistance :=
                           repeat x00
                             (256 - length (big_Bytes (GetTotalDistance
                                (dataTimeReel (engine w)))))
                           ++ big_Bytes (GetTotalDistance
                                (dataTimeReel (engine w)));
                         Signature := None; PublicKey := None |} |})
              (self_announced pk f w))
    as (r1 & evs1 & Hinfo & _);
    [cbn [heap self_announced]; by rewrite list_lookup_middle|done|].
  rewrite Hinfo in Hrun.
  assert (exists evs, (match r1 with
             | Some _ => emit (Log DebugLevel "error publishing message")
             | None => mret tt
             end) (emitted (self_announced pk f w) evs1)
             = Done (tt, emitted (self_announced pk f w) evs))
    as (evs & Hlog).
  { destruct r1.
    - exists (evs1 ++ [Log DebugLevel "error publishing message"]).
      by rewrite emit_emitted, emitted_emitted.
    - by exists evs1. }
  rewrite Hlog in Hrun.
  destruct (publishMessage_other pk (frameFilter (engine w)) frame
              (MsgClockFrame f) (emitted (self_announced pk f w) evs))
    as (r2 & evs2 & Hpub & _); [|done|].
  { cbn [heap emitted self_announced]. by apply lookup_app_l_Some. }
  rewrite Hpub in Hrun. unfold mret, M_ret in Hrun.
  injection Hrun as _ <-. exists (evs ++ evs2). apply emitted_emitted.
Qed.

(** X22.  When [publishProof] completes, the peer map holds the node
    itself, under its own peer id, at the frame it published, stamped
    with the reading of the clock, with the total distance of the time
    reel in 256 bytes and without a key or a signature; every other entry
    of the peer map, and every other field of the engine, is as it was. *)
Theorem publishProof_self_entry
  (frame : loc) (f : ClockFrame) (w w' : World) (r : option error) :
  heap w !! frame = Some (MsgClockFrame f) ->
  publishProof pk frame w = Done (r, w') ->
  let self := GetPeerID (pubSub (engine w)) in
  let distance := GetTotalDistance (dataTimeReel (engine w)) in
  same_but_peerMap (engine w) (engine w')
  /\ (forall k, k <> string_of_bytes self ->
        peerMap (engine w') !! k = peerMap (engine w) !! k)
  /\ exists info,
       peerMap (engine w') !! string_of_bytes self = Some info
       /\ peerId info = self
       /\ maxFrame info = FrameNumber f
       /\ timestamp info = UnixMilli (time_Now pk (time_reads w))
       /\ version info = config_GetVersion pk
       /\ totalDistance info
          = repeat x00 (256 - length (big_Bytes distance))%nat
              ++ big_Bytes distance
       /\ length (totalDistance info) = 256%nat
       /\ signature info = None /\ publicKey info = None.
Proof.
  intros Hframe Hrun self distance.
  destruct (decide (length (big_Bytes distance) <= 256)%nat) as [Hfit|Hbig].
  2:{ rewrite (publishProof_overflow frame f w Hframe) in Hrun
        by (subst distance; lia). done. }
  destruct (publishProof_run frame f w w' r Hframe Hrun) as (evs & ->).
  cbn [engine emitted self_announced].
  split; [apply same_but_peerMap_set|].
  assert (forall g e, peerMap (set_peerMap g e) = g (peerMap e)) as Hset
    by (by intros g []).
  rewrite Hset. split.
  { intros k Hk. apply lookup_insert_ne. intros E. apply Hk. symmetry.
    exact E. }
  eexists. split; [apply lookup_insert_eq|].
  cbn [peerId maxFrame timestamp version totalDistance signature publicKey].
  repeat (split; [done|]). split; [|done].
  rewrite length_app, repeat_length. subst distance. lia.
Qed.

End MoreProofs.

Lemma publishProof_self_entry_witness :
  let w := Scenario.publishing (fun _ _ => None) in
  let f := Scenario.frame_of 6 Scenario.keyA in
  exists r w',
    publishProof Scenario.pk0 0%nat w = Done (r, w')
    /\ same_but_peerMap (engine w) (engine w')
    /\ (forall k, k <> string_of_bytes Scenario.self ->
          peerMap (engine w') !! k = peerMap (engine w) !! k)
    /\ exists info,
         peerMap (engine w') !! string_of_bytes Scenario.self = Some info
         /\ peerId info = Scenario.self
         /\ maxFrame info = 6
         /\ timestamp info = 5000000
         /\ version info = Some [x02; x00; x03]
         /\ totalDistance info = repeat x00 253 ++ [x01; x11; x70]
         /\ length (totalDistance info) = 256%nat
         /\ signature info = None /\ publicKey info = None.
Proof.
  intros w f.
  assert (exists r w', publishProof Scenario.pk0 0%nat w = Done (r, w'))
    as (r & w' & Hrun).
  { eexists _, _. vm_compute. reflexivity. }
  exists r, w'. split; [exact Hrun|].
  exact (publishProof_self_entry Scenario.pk0 0%nat f w w' r eq_refl Hrun).
Defined.
Section MoreAnnouncing.

Context (pk : Packages).

(** X23.  What a node announces of itself is lost on the nodes that
    receive it.  The announcement [publishProof] builds carries the node
    in the field [Peer], without a peer id, a key or a signature, and an
    empty [PeerList]; [handleDataPeerListAnnounce] reads [PeerList] only,
    so on such an announcement it returns nil and leaves the world as it
    was, and the record itself, were it listed, is skipped whoever sent
    it. *)
Theorem publishProof_announcement_ignored
  (frame : loc) (f : ClockFrame) (w w' : World) (r : option error) :
  heap w !! frame = Some (MsgClockFrame f) ->
  publishProof pk frame w = Done (r, w') ->
  exists p,
    heap w' = heap w ++ [MsgDataPeerListAnnounce
                           {| PeerList := []; Peer := Some p |}]
    /\ MaxFrame p = FrameNumber f
    /\ (forall pk' peerID address any w2,
          anypb_UnmarshalTo_DataPeerListAnnounce pk' any
          = inl {| PeerList := []; Peer := Some p |} ->
          handleDataPeerListAnnounce pk' peerID address any w2
          = Done (None, w2))
    /\ (forall pk' peerID w2,
          announce_record pk' peerID p w2 = Done (tt, w2)).
Proof.
  intros Hframe Hrun.
  destruct (publishProof_run pk frame f w w' r Hframe Hrun) as (evs & ->).
  cbn [heap emitted self_announced]. eexists. split; [reflexivity|].
  cbn [MaxFrame]. split; [done|]. split.
  - intros pk' peerID address any w2 Hany.
    unfold handleDataPeerListAnnounce. by rewrite Hany.
  - intros pk' peerID w2. unfold announce_record.
    unfold mbind, M_bind, gets, mret, M_ret.
    cbn [PeerId PublicKey Signature Version].
    destruct (bytes_Equal [] (GetPeerID (pubSub (engine w2)))); [done|].
    destruct (negb (bytes_Equal [] peerID)); [done|].
    by destruct (config_GetVersion pk).
Qed.

End MoreAnnouncing.

Lemma publishProof_announcement_ignored_witness :
  let w := Scenario.publishing (fun _ _ => None) in
  exists r w' p,
    publishProof Scenario.pk0 0%nat w = Done (r, w')
    /\ heap w' = heap w ++ [MsgDataPeerListAnnounce
                              {| PeerList := []; Peer := Some p |}]
    /\ MaxFrame p = 6
    /\ (forall pk' peerID address any w2,
          anypb_UnmarshalTo_DataPeerListAnnounce pk' any
          = inl {| PeerList := []; Peer := Some p |} ->
          handleDataPeerListAnnounce pk' peerID address any w2
          = Done (None, w2))
    /\ (forall pk' peerID w2,
          announce_record pk' peerID p w2 = Done (tt, w2)).
Proof.
  intros w.
  assert (exists r w', publishProof Scenario.pk0 0%nat w = Done (r, w'))
    as (r & w' & Hrun).
  { eexists _, _. vm_compute. reflexivity. }
  destruct (publishProof_announcement_ignored Scenario.pk0 0%nat
              (Scenario.frame_of 6 Scenario.keyA) w w' r eq_refl Hrun)
    as (p & Hheap & Hmax & Hhandler & Hrecord).
  exists r, w', p. split; [exact Hrun|]. split; [exact Hheap|].
  split; [exact Hmax|]. split; [exact Hhandler|exact Hrecord].
Defined.
(** ** [nearestApplicablePowerOfTwo] *)

(** X24.  [nearestApplicablePowerOfTwo] returns one of the four sizes
    128, 1024, 2048 and 65536: up to 65536 the least of them that holds
    the number, and 65536 for every number above, which it does not
    hold.  It is monotone. *)
Theorem nearestApplicablePowerOfTwo_least (number : Z) :
  let sizes := [128; 1024; 2048; 65536] in
  let power := nearestApplicablePowerOfTwo number in
  In power sizes
  /\ (number <= 65536 ->
      number <= power
      /\ forall size, In size sizes -> number <= size -> power <= size)
  /\ (65536 < number -> power = 65536)
  /\ (forall larger, number <= larger ->
        power <= nearestApplicablePowerOfTwo larger).
Proof.
  intros sizes power. subst sizes power.
  unfold nearestApplicablePowerOfTwo. rewrite !Z.gtb_ltb.
  destruct (Z.ltb_spec 2048 number), (Z.ltb_spec 1024 number),
    (Z.ltb_spec 128 number); try lia;
    (split; [cbn [In]; lia|]);
    (split; [intros Hcap; split; [lia|];
             intros size Hin; cbn [In] in Hin; lia|]);
    (split; [lia|]);
    intros larger Hle; rewrite !Z.gtb_ltb;
    destruct (Z.ltb_spec 2048 larger), (Z.ltb_spec 1024 larger),
      (Z.ltb_spec 128 larger); lia.
Qed.

(** ** The message a peer signs *)

Lemma byte_of_Z_inj (x y : Z) :
  byte_of_Z x = byte_of_Z y -> x mod 256 = y mod 256.
Proof.
  intros H. apply (f_equal Byte.to_N) in H. rewrite !to_N_byte_of_Z in H.
  apply Z2N.inj in H; [done| |]; apply Z.mod_pos_bound; lia.
Qed.

Lemma digits_determine (n : nat) (a c : Z) :
  (forall k, (k < n)%nat ->
     (a / 256 ^ Z.of_nat k) mod 256 = (c / 256 ^ Z.of_nat k) mod 256) ->
  a mod 256 ^ Z.of_nat n = c mod 256 ^ Z.of_nat n.
Proof.
  revert a c. induction n as [|n IH]; intros a c Hdigits.
  - by rewrite !Z.mod_1_r.
  - rewrite Nat2Z.inj_succ, Z.pow_succ_r by lia.
    rewrite !Z.rem_mul_r by lia.
    pose proof (Hdigits 0%nat ltac:(lia)) as H0.
    rewrite Z.pow_0_r, !Z.div_1_r in H0. rewrite H0. do 2 f_equal.
    apply IH. intros k Hk.
    pose proof (Hdigits (S k) ltac:(lia)) as HS.
    rewrite Nat2Z.inj_succ, Z.pow_succ_r in HS by lia.
    by rewrite <- !Z.div_div in HS by lia.
Qed.

Lemma BigEndian_AppendUint64_inj (x y : bytes) (u v : Z) :
  length x = length y ->
  BigEndian_AppendUint64 x u = BigEndian_AppendUint64 y v ->
  x = y /\ u mod 2 ^ 64 = v mod 2 ^ 64.
Proof.
  intros Hlen. unfold BigEndian_AppendUint64. intros H.
  apply app_inj_1 in H as [-> H]; [|done]. split; [done|].
  injection H as H7 H6 H5 H4 H3 H2 H1 H0.
  apply byte_of_Z_inj in H0, H1, H2, H3, H4, H5, H6, H7.
  rewrite !Z.shiftr_div_pow2 in * by lia.
  change (2 ^ 64) with (256 ^ Z.of_nat 8).
  apply digits_determine. intros k Hk.
  destruct k as [|[|[|[|[|[|[|[|k]]]]]]]]; [..|lia];
    first [ exact H0 | exact H1 | exact H2 | exact H3 | exact H4
          | exact H5 | exact H6 | exact H7 | idtac ].
  by rewrite Z.pow_0_r, !Z.div_1_r.
Qed.

(** X25.  The message a peer signs in an announcement determines what it
    signs: two records whose messages are equal have the same frame
    number, the same version and the same timestamp.  A signature on one
    record therefore fits no record that differs in one of the three. *)
Theorem announce_signing_message_injective
  (maxFrame1 maxFrame2 timestamp1 timestamp2 : Z) (version1 version2 : bytes) :
  0 <= maxFrame1 < 2 ^ 64 -> 0 <= maxFrame2 < 2 ^ 64 ->
  - 2 ^ 63 <= timestamp1 < 2 ^ 63 -> - 2 ^ 63 <= timestamp2 < 2 ^ 63 ->
  announce_signing_message maxFrame1 version1 timestamp1
  = announce_signing_message maxFrame2 version2 timestamp2 ->
  maxFrame1 = maxFrame2 /\ version1 = version2 /\ timestamp1 = timestamp2.
Proof.
  intros Hf1 Hf2 Ht1 Ht2 Heq. unfold announce_signing_message in Heq.
  assert (length version1 = length version2) as Hlen.
  { apply (f_equal length) in Heq. unfold BigEndian_AppendUint64 in Heq.
    rewrite !length_app in Heq. cbn [length] in Heq. lia. }
  apply BigEndian_AppendUint64_inj in Heq as [Heq Htime].
  2:{ unfold BigEndian_AppendUint64. rewrite !length_app. cbn [length]. lia. }
  apply app_inj_2 in Heq as [Heq ->]; [|done].
  apply BigEndian_AppendUint64_inj in Heq as [_ Hframe]; [|done].
  rewrite !Z.mod_small in Hframe by lia.
  unfold uint64_of_int64 in Htime. rewrite !Zmod_mod in Htime.
  split; [done|]. split; [done|].
  assert (timestamp1 mod 2 ^ 64 = timestamp2 mod 2 ^ 64) as Hmod by done.
  clear -Ht1 Ht2 Hmod. Z.div_mod_to_equations. lia.
Qed.

Lemma announce_signing_message_injective_witness :
  (0 <= 7 < 2 ^ 64 /\ - 2 ^ 63 <= -1 < 2 ^ 63)
  /\ announce_signing_message 7 [x02; x00; x03] (-1)
     = [x00; x00; x00; x00; x00; x00; x00; x07; x02; x00; x03;
        xff; xff; xff; xff; xff; xff; xff; xff]
  /\ 7 = 7 /\ [x02; x00; x03] = [x02; x00; x03] /\ -1 = -1.
Proof.
  split; [lia|]. split; [vm_compute; reflexivity|].
  apply (announce_signing_message_injective 7 7 (-1) (-1)
           [x02; x00; x03] [x02; x00; x03]); [lia..|reflexivity].
Defined.

(** ** [autononce] *)

(** X26.  [AddTokenRequest] writes the nonce into the request it is
    given and returns the same pointer; [Add] works on a copy.  With 32
    bytes to come from the random source, [AddTokenRequest] leaves the
    request with these bytes as its nonce in the place of the request,
    and [Add] returns a new object that holds the request with these
    bytes as its nonce, while the object it was given is as it was. *)
Theorem AddTokenRequest_in_place_Add_on_copy
  (request : loc) (t : TokenRequest) (w : World) :
  heap w !! request = Some (MsgTokenRequest t) ->
  (32 <= length (entropy w))%nat ->
  let fresh := MsgTokenRequest (with_nonce t (take 32 (entropy w))) in
  (exists w',
     autononce.AddTokenRequest request w = Done (request, w')
     /\ heap w' = <[request := fresh]> (heap w)
     /\ entropy w' = drop 32 (entropy w)
     /\ engine w' = engine w /\ trace w' = trace w)
  /\ (exists m w',
        autononce.Add request w = Done (m, w')
        /\ m <> request
        /\ heap w' !! request = Some (MsgTokenRequest t)
        /\ heap w' !! m = Some fresh
        /\ entropy w' = drop 32 (entropy w)).
Proof.
  intros Ht Hrand fresh. split.
  - pose proof (lookup_lt_Some _ _ _ Ht) as Hlt.
    unfold autononce.AddTokenRequest, load, store, set_heap, rand_Read.
    unfold mbind, mret, M_bind, M_ret, lift, gets, panic.
    cbn -[make_bytes take drop]. rewrite Ht.
    cbn -[make_bytes take drop].
    destruct (decide (request < length (heap w))%nat); [|lia].
    cbn -[make_bytes take drop].
    assert ((length (entropy w) <=? 31)%nat = false) as ->
      by (apply Nat.leb_gt; lia).
    cbn -[make_bytes take drop]. rewrite length_insert.
    destruct (decide (request < length (heap w))%nat); [|lia].
    eexists. split; [reflexivity|]. cbn -[make_bytes take drop].
    split; [by rewrite list_insert_insert_eq|done].
  - exists (length (heap w)), (nonce_added t w).
    split; [by apply Add_token_request|].
    pose proof (lookup_lt_Some _ _ _ Ht) as Hlt.
    split; [lia|]. cbn [heap nonce_added entropy].
    split; [by apply lookup_app_l_Some|].
    split; [by apply list_lookup_middle|done].
Qed.

Lemma AddTokenRequest_in_place_Add_on_copy_witness :
  let t := Scenario.transfer_of (Scenario.b "coinX") in
  let w := Scenario.requesting t (repeat x07 40) in
  let fresh := MsgTokenRequest (with_nonce t (repeat x07 32)) in
  (exists w',
     autononce.AddTokenRequest 0%nat w = Done (0%nat, w')
     /\ heap w' = [fresh]
     /\ entropy w' = repeat x07 8
     /\ engine w' = engine w /\ trace w' = trace w)
  /\ (exists m w',
        autononce.Add 0%nat w = Done (m, w')
        /\ m <> 0%nat
        /\ heap w' !! 0%nat = Some (MsgTokenRequest t)
        /\ heap w' !! m = Some fresh
        /\ entropy w' = repeat x07 8).
Proof.
  intros t w fresh.
  apply (AddTokenRequest_in_place_Add_on_copy 0%nat t w eq_refl).
  vm_compute. lia.
Defined.

(** ** Panics of [handleClockFrame] *)

Section MorePanics.

Context (pk : Packages).


End MorePanics.

